(** * ThreadPool: a shallow embedding of the worker-thread pool

    The development follows [ThreadPool/threadpool.h] and
    [ThreadPool/threadpool.cpp] (closed [Task] abstraction, hand-built [Any],
    [Semaphore] and [Result]); the control logic of the C++11 variant
    ([ThreadPool_C++11/threadpool.h]) is embedded in [Module Cxx11].

    Concurrency is modelled by interleaving: every step is one critical
    section under [taskQueMtx_] (or one atomic operation outside it), and the
    program counter of every thread that runs [threadFunc] is part of the
    state.  A blocked call is a step that is not enabled. *)

From Stdlib Require Import ZArith List Bool Lia String.
From stdpp Require Import gmap list.

Local Open Scope Z_scope.

(** ** Machine integers *)

Definition INT32_MAX : Z := 2147483647.
Definition INT32_MIN : Z := -2147483648.

(** [int] values. *)
Definition is_int (z : Z) : Prop := INT32_MIN <= z <= INT32_MAX.

Definition is_intb (z : Z) : bool := (INT32_MIN <=? z) && (z <=? INT32_MAX).

(** [std::atomic_int] arithmetic wraps around in two's complement. *)
Definition wrap_int (z : Z) : Z := (z + 2 ^ 31) mod 2 ^ 32 - 2 ^ 31.

(** [(size_t)x] for an [int] x on an LP64 platform. *)
Definition to_size_t (z : Z) : Z := z mod 2 ^ 64.

(** Arithmetic on a plain [int]: signed overflow is undefined behaviour. *)
Definition int_incr (z : Z) : option Z :=
  if z <? INT32_MAX then Some (z + 1) else None.

Definition int_decr (z : Z) : option Z :=
  if INT32_MIN <? z then Some (z - 1) else None.

(** ** Constants of threadpool.cpp *)

Definition TASK_MAX_THRESHHOLD : Z := INT32_MAX.
Definition THREAD_MAX_THRESHHOLD : Z := 1024.
Definition THREAD_MAX_IDLE_TIME : Z := 60.

(** Ticks of [std::chrono::high_resolution_clock] per second (nanosecond
    period). *)
Definition ticks_per_second : Z := 1000000000.

(** [duration_cast<seconds>(now - lastTime).count()]: truncation toward
    zero. *)
Definition duration_seconds (now lastTime : Z) : Z :=
  Z.quot (now - lastTime) ticks_per_second.

(** ** Any *)

(** [Any::Base] with the instantiations of [Derive<T>] the pool itself and
    scalar tasks produce. *)
Inductive Base : Type :=
| Derive_const_char_ptr (data_ : string)
| Derive_int (data_ : Z)
| Derive_unsigned_long (data_ : Z).

(** [Any] owns a [std::unique_ptr<Base>]; [None] is the null pointer of a
    default-constructed or moved-from [Any]. *)
Record Any : Type := mkAny { base_ : option Base }.

Definition Any_default : Any := mkAny None.

(** [Any(T data)]. *)
Definition Any_of (b : Base) : Any := mkAny (Some b).

(** The value [Result::get] returns for a rejected submission:
    [return ""], an [Any] built from the empty string literal. *)
Definition Any_empty_string : Any := Any_of (Derive_const_char_ptr EmptyString).

(** ** Semaphore *)

Module Semaphore.

Record t : Type := mk { resLimit_ : Z }.

(** [Semaphore(int limit = 0)]. *)
Definition init (limit : Z) : t := mk limit.

(** [wait()]: [None] while the caller is blocked on [cond_]
    ([resLimit_ > 0] does not hold); otherwise one resource is taken. *)
Definition wait (s : t) : option t :=
  if 0 <? resLimit_ s
  then mk <$> int_decr (resLimit_ s)
  else None.

(** [post()]: one more resource; [cond_.notify_all()] makes every blocked
    [wait] re-evaluate its predicate.  [None] is signed overflow. *)
Definition post (s : t) : option t := mk <$> int_incr (resLimit_ s).

End Semaphore.

(** ** Task and Result *)

(** Addresses of [Task] and [Result] objects. *)
Definition addr : Type := nat.

(** [std::shared_ptr<Task>]; [None] is [nullptr]. *)
Definition shared_ptr : Type := option addr.

Module Task.

(** [result_] is the raw back pointer; [run] is the value the user's
    override of [run()] returns. *)
Record t : Type := mk { result_ : option addr; run : Any }.

(** [Task::Task()] for a user class whose [run()] returns [v]. *)
Definition init (v : Any) : t := mk None v.

(** [setResult(res)]. *)
Definition setResult (res : addr) (tk : t) : t := mk (Some res) (run tk).

End Task.

Module Result.

Record t : Type := mk {
  any_ : Any;
  sem_ : Semaphore.t;
  task_ : addr;
  isValid_ : bool
}.

(** The member initialisers of [Result(task, isValid)]; the body, which
    writes the back pointer into the task, is [Result_ctor] below. *)
Definition init (task : addr) (isValid : bool) : t :=
  mk Any_default (Semaphore.init 0) task isValid.

(** Outcome of a call to [get()]. *)
Inductive outcome : Type :=
| Returned (v : Any) (r' : t)
| Blocked.

(** [get()]. The value is moved out of [any_]. *)
Definition get (r : t) : outcome :=
  if negb (isValid_ r) then Returned Any_empty_string r
  else match Semaphore.wait (sem_ r) with
       | Some s' => Returned (any_ r) (mk Any_default s' (task_ r) (isValid_ r))
       | None => Blocked
       end.

(** [setVal(any)]. *)
Definition setVal (v : Any) (r : t) : option t :=
  s' ← Semaphore.post (sem_ r);
  Some (mk v s' (task_ r) (isValid_ r)).

End Result.

(** ** Thread *)

Module Thread.

(** [func_] is always [ThreadPool::threadFunc] bound to the pool. *)
Record t : Type := mk { threadId_ : Z }.

Definition getId (th : t) : Z := threadId_ th.

End Thread.

(** ** The pool object *)

Inductive PoolMode : Type := MODE_FIXED | MODE_CACHED.

Definition PoolMode_eqb (a b : PoolMode) : bool :=
  match a, b with
  | MODE_FIXED, MODE_FIXED | MODE_CACHED, MODE_CACHED => true
  | _, _ => false
  end.

Record ThreadPool : Type := mkPool {
  threads_ : gmap Z Thread.t;
  initThreadSize_ : Z;
  threadSizeThreshHold_ : Z;
  curThreadSize_ : Z;
  idleThreadSize_ : Z;
  taskQue_ : list shared_ptr;
  taskSize_ : Z;
  taskQueMaxThreshHold_ : Z;
  poolMode_ : PoolMode;
  isPoolRunning_ : bool
}.

(** [ThreadPool::ThreadPool()]. *)
Definition ThreadPool_ctor : ThreadPool :=
  {| threads_ := ∅;
     initThreadSize_ := 0;
     threadSizeThreshHold_ := THREAD_MAX_THRESHHOLD;
     curThreadSize_ := 0;
     idleThreadSize_ := 0;
     taskQue_ := [];
     taskSize_ := 0;
     taskQueMaxThreshHold_ := TASK_MAX_THRESHHOLD;
     poolMode_ := MODE_FIXED;
     isPoolRunning_ := false |}.

Definition set_threads_ (v : gmap Z Thread.t) (p : ThreadPool) : ThreadPool :=
  mkPool v (initThreadSize_ p) (threadSizeThreshHold_ p) (curThreadSize_ p)
         (idleThreadSize_ p) (taskQue_ p) (taskSize_ p)
         (taskQueMaxThreshHold_ p) (poolMode_ p) (isPoolRunning_ p).

Definition set_initThreadSize_ (v : Z) (p : ThreadPool) : ThreadPool :=
  mkPool (threads_ p) v (threadSizeThreshHold_ p) (curThreadSize_ p)
         (idleThreadSize_ p) (taskQue_ p) (taskSize_ p)
         (taskQueMaxThreshHold_ p) (poolMode_ p) (isPoolRunning_ p).

Definition set_threadSizeThreshHold_ (v : Z) (p : ThreadPool) : ThreadPool :=
  mkPool (threads_ p) (initThreadSize_ p) v (curThreadSize_ p)
         (idleThreadSize_ p) (taskQue_ p) (taskSize_ p)
         (taskQueMaxThreshHold_ p) (poolMode_ p) (isPoolRunning_ p).

Definition set_curThreadSize_ (v : Z) (p : ThreadPool) : ThreadPool :=
  mkPool (threads_ p) (initThreadSize_ p) (threadSizeThreshHold_ p) v
         (idleThreadSize_ p) (taskQue_ p) (taskSize_ p)
         (taskQueMaxThreshHold_ p) (poolMode_ p) (isPoolRunning_ p).

Definition set_idleThreadSize_ (v : Z) (p : ThreadPool) : ThreadPool :=
  mkPool (threads_ p) (initThreadSize_ p) (threadSizeThreshHold_ p)
         (curThreadSize_ p) v (taskQue_ p) (taskSize_ p)
         (taskQueMaxThreshHold_ p) (poolMode_ p) (isPoolRunning_ p).

Definition set_taskQue_ (v : list shared_ptr) (p : ThreadPool) : ThreadPool :=
  mkPool (threads_ p) (initThreadSize_ p) (threadSizeThreshHold_ p)
         (curThreadSize_ p) (idleThreadSize_ p) v (taskSize_ p)
         (taskQueMaxThreshHold_ p) (poolMode_ p) (isPoolRunning_ p).

Definition set_taskSize_ (v : Z) (p : ThreadPool) : ThreadPool :=
  mkPool (threads_ p) (initThreadSize_ p) (threadSizeThreshHold_ p)
         (curThreadSize_ p) (idleThreadSize_ p) (taskQue_ p) v
         (taskQueMaxThreshHold_ p) (poolMode_ p) (isPoolRunning_ p).

Definition set_taskQueMaxThreshHold_ (v : Z) (p : ThreadPool) : ThreadPool :=
  mkPool (threads_ p) (initThreadSize_ p) (threadSizeThreshHold_ p)
         (curThreadSize_ p) (idleThreadSize_ p) (taskQue_ p) (taskSize_ p)
         v (poolMode_ p) (isPoolRunning_ p).

Definition set_poolMode_ (v : PoolMode) (p : ThreadPool) : ThreadPool :=
  mkPool (threads_ p) (initThreadSize_ p) (threadSizeThreshHold_ p)
         (curThreadSize_ p) (idleThreadSize_ p) (taskQue_ p) (taskSize_ p)
         (taskQueMaxThreshHold_ p) v (isPoolRunning_ p).

Definition set_isPoolRunning_ (v : bool) (p : ThreadPool) : ThreadPool :=
  mkPool (threads_ p) (initThreadSize_ p) (threadSizeThreshHold_ p)
         (curThreadSize_ p) (idleThreadSize_ p) (taskQue_ p) (taskSize_ p)
         (taskQueMaxThreshHold_ p) (poolMode_ p) v.

(** [checkRunningState()]. *)
Definition checkRunningState (p : ThreadPool) : bool := isPoolRunning_ p.

(** [setMode(mode)]. *)
Definition setMode (mode : PoolMode) (p : ThreadPool) : ThreadPool :=
  if checkRunningState p then p
  else set_poolMode_ mode p.

(** [setTaskQueMaxThreshHold(threshhold)]. *)
Definition setTaskQueMaxThreshHold (threshhold : Z) (p : ThreadPool) : ThreadPool :=
  if checkRunningState p then p
  else set_taskQueMaxThreshHold_ threshhold p.

(** [setThreadSizeThreshHold(threshhold)]. *)
Definition setThreadSizeThreshHold (threshhold : Z) (p : ThreadPool) : ThreadPool :=
  if checkRunningState p then p
  else if PoolMode_eqb (poolMode_ p) MODE_CACHED
       then set_threadSizeThreshHold_ threshhold p
       else p.

(** ** Threads that run [threadFunc] *)

(** Where a thread started by [Thread::start] stands in [threadFunc].  Every
    constructor is a point at which the thread does not hold [taskQueMtx_]. *)
Inductive WorkerPc : Type :=
| Entry
    (* created by [std::thread t(func_, threadId_)], [lastTime] not read yet *)
| AtLoop (lastTime : Z)
    (* top of [while (true)], about to lock [taskQueMtx_] *)
| InWaitFor (lastTime : Z) (notified : bool)
    (* blocked in [notEmpty_.wait_for(lock, 1s)] *)
| InWait (lastTime : Z) (notified : bool)
    (* blocked in [notEmpty_.wait(lock)] *)
| Holding (task : shared_ptr) (lastTime : Z)
    (* a task was taken and the lock released, [task->exec()] not done yet *)
| Executed (lastTime : Z)
    (* after [task->exec()], before [idleThreadSize_++] *)
| Exited.
    (* [threadFunc] has returned *)

(** A detached [std::thread] with the [threadid] argument it was given. *)
Record OsThread : Type := mkOs { threadid : Z; pc : WorkerPc }.

(** Where the thread that destroys the pool stands in [~ThreadPool]. *)
Inductive DtorPc : Type :=
| Alive
| FlagCleared                    (* [isPoolRunning_ = false] done *)
| DtorWaiting (notified : bool)  (* blocked in [exitCond_.wait(lock, ...)] *)
| Destroyed.

Record World : Type := mkWorld {
  pool : ThreadPool;
  generateId_ : Z;                 (* [Thread::generateId_] *)
  os_threads : list OsThread;
  tasks : gmap addr Task.t;
  results : gmap addr Result.t;
  dtor : DtorPc
}.

Definition set_pool (v : ThreadPool) (w : World) : World :=
  mkWorld v (generateId_ w) (os_threads w) (tasks w) (results w) (dtor w).

Definition set_generateId_ (v : Z) (w : World) : World :=
  mkWorld (pool w) v (os_threads w) (tasks w) (results w) (dtor w).

Definition set_os_threads (v : list OsThread) (w : World) : World :=
  mkWorld (pool w) (generateId_ w) v (tasks w) (results w) (dtor w).

Definition set_tasks (v : gmap addr Task.t) (w : World) : World :=
  mkWorld (pool w) (generateId_ w) (os_threads w) v (results w) (dtor w).

Definition set_results (v : gmap addr Result.t) (w : World) : World :=
  mkWorld (pool w) (generateId_ w) (os_threads w) (tasks w) v (dtor w).

Definition set_dtor (v : DtorPc) (w : World) : World :=
  mkWorld (pool w) (generateId_ w) (os_threads w) (tasks w) (results w) v.

Definition upd_pool (f : ThreadPool -> ThreadPool) (w : World) : World :=
  set_pool (f (pool w)) w.

(** A program that has constructed one pool and the task objects [tks]. *)
Definition World_init (tks : gmap addr Task.t) : World :=
  mkWorld ThreadPool_ctor 0 [] tks ∅ Alive.

Definition set_pc (i : nat) (c : WorkerPc) (w : World) : World :=
  set_os_threads
    (alter (fun th => mkOs (threadid th) c) i (os_threads w)) w.

(** *** Condition variables *)

Definition notify_pc (c : WorkerPc) : WorkerPc :=
  match c with
  | InWaitFor lt _ => InWaitFor lt true
  | InWait lt _ => InWait lt true
  | _ => c
  end.

(** [notEmpty_.notify_all()]: every thread blocked on [notEmpty_] is woken.
    The waiters of [notEmpty_] are exactly the threads in [threadFunc]. *)
Definition notEmpty_notify_all (w : World) : World :=
  set_os_threads
    (map (fun th => mkOs (threadid th) (notify_pc (pc th))) (os_threads w)) w.

(** [exitCond_.notify_all()]: its only waiter is the destroying thread. *)
Definition exitCond_notify_all (w : World) : World :=
  match dtor w with
  | DtorWaiting _ => set_dtor (DtorWaiting true) w
  | _ => w
  end.

(** [wait_for(lock, rel_time, pred)].  [observed] are the states in which the
    caller evaluated [pred] before the deadline (on entry and after every
    wake-up), [deadline] is the state in which it evaluates [pred] when the
    wait times out.  The result is the value of [pred] that ends the wait
    and the state in which the caller goes on, holding the lock. *)
Fixpoint wait_for {A : Type} (pred : A -> bool) (observed : list A)
    (deadline : A) : bool * A :=
  match observed with
  | [] => (pred deadline, deadline)
  | s :: rest => if pred s then (true, s) else wait_for pred rest deadline
  end.

(** *** Thread objects *)

(** [Thread::Thread(func)]: [threadId_(generateId_++)]. *)
Definition Thread_ctor (w : World) : option (Thread.t * World) :=
  g' ← int_incr (generateId_ w);
  Some (Thread.mk (generateId_ w), set_generateId_ g' w).

(** [Thread::start()]: a detached thread runs [func_(threadId_)]. *)
Definition Thread_start (th : Thread.t) (w : World) : World :=
  set_os_threads (os_threads w ++ [mkOs (Thread.threadId_ th) Entry]) w.

(** [threads_.emplace(threadId, std::move(ptr))]: no insertion when the key
    is present. *)
Definition emplace (k : Z) (th : Thread.t) (m : gmap Z Thread.t) : gmap Z Thread.t :=
  match m !! k with
  | Some _ => m
  | None => <[k := th]> m
  end.

(** *** Result construction and task execution *)

(** [Result::Result(task, isValid)] at the address [r] of the caller's
    object: [task_->setResult(this)] dereferences [task]. *)
Definition Result_ctor (r : addr) (sp : shared_ptr) (isValid : bool)
    (w : World) : option World :=
  t ← sp;
  tk ← tasks w !! t;
  match results w !! r with
  | Some _ => None
  | None =>
      Some (set_results (<[r := Result.init t isValid]> (results w))
             (set_tasks (<[t := Task.setResult r tk]> (tasks w)) w))
  end.

(** [Task::exec()] on the task object at [t]:
    [if (result_ != nullptr) result_->setVal(run())].  [exec()] reads
    [result_] without holding [taskQueMtx_], before it calls [run()], and
    calls [setVal] afterwards; here [result_] is read when the value is
    published.  The two agree as long as [result_] of this task object is
    not written between the moment a thread takes the task and the end of
    [exec()].  Such a write, by [Result]'s constructor in a [submitTask] of
    the same task object, is a data race with the read of [exec()]; [races]
    below recognises it, and the runs without a data race on a task object
    or its [Result] are the [race_free] ones. *)
Definition Task_exec (t : addr) (w : World) : option World :=
  tk ← tasks w !! t;
  match Task.result_ tk with
  | None => Some w
  | Some r =>
      res ← results w !! r;
      res' ← Result.setVal (Task.run tk) res;
      Some (set_results (<[r := res']> (results w)) w)
  end.

(** *** submitTask *)

(** The predicate of [notFull_.wait_for]:
    [taskQue_.size() < (size_t)taskQueMaxThreshHold_]. *)
Definition notFull_pred (w : World) : bool :=
  Z.of_nat (length (taskQue_ (pool w))) <? to_size_t (taskQueMaxThreshHold_ (pool w)).

(** The growth test of Cached mode. *)
Definition grow_cond (p : ThreadPool) : bool :=
  PoolMode_eqb (poolMode_ p) MODE_CACHED
  && (idleThreadSize_ p <? taskSize_ p)
  && (curThreadSize_ p <? threadSizeThreshHold_ p).

(** The body of the [if] that creates one more thread. *)
Definition submitTask_grow (w : World) : option World :=
  '(ptr, w1) ← Thread_ctor w;
  let threadId := Thread.getId ptr in
  let w2 := upd_pool (fun p => set_threads_ (emplace threadId ptr (threads_ p)) p) w1 in
  th ← threads_ (pool w2) !! threadId;
  let w3 := Thread_start th w2 in
  Some (upd_pool (fun p =>
          set_idleThreadSize_ (wrap_int (idleThreadSize_ p + 1))
            (set_curThreadSize_ (wrap_int (curThreadSize_ p + 1)) p)) w3).

(** [submitTask(sp)] from the point where [wait_for] has returned [ok] in
    state [w]; [r] is where the caller keeps the returned [Result]. *)
Definition submitTask_locked (ok : bool) (sp : shared_ptr) (r : addr)
    (w : World) : option World :=
  if negb ok then Result_ctor r sp false w
  else
    let w1 := upd_pool (fun p => set_taskQue_ (taskQue_ p ++ [sp]) p) w in
    let w2 := upd_pool (fun p => set_taskSize_ (wrap_int (taskSize_ p + 1)) p) w1 in
    let w3 := notEmpty_notify_all w2 in
    w4 ← (if grow_cond (pool w3) then submitTask_grow w3 else Some w3);
    Result_ctor r sp true w4.

(** [submitTask(sp)]. *)
Definition submitTask (observed : list World) (deadline : World)
    (sp : shared_ptr) (r : addr) : option World :=
  let '(ok, w) := wait_for notFull_pred observed deadline in
  submitTask_locked ok sp r w.

(** *** start *)

(** First loop of [start]: [n] thread objects are created and registered. *)
Fixpoint start_create (n : nat) (w : World) : option World :=
  match n with
  | O => Some w
  | S n' =>
      '(ptr, w1) ← Thread_ctor w;
      let threadId := Thread.getId ptr in
      start_create n'
        (upd_pool (fun p => set_threads_ (emplace threadId ptr (threads_ p)) p) w1)
  end.

(** Second loop of [start], from index [i]: [threads_[i]->start()] and
    [idleThreadSize_++].  [threads_[i]] on an absent key inserts a null
    pointer, which [->] then dereferences. *)
Fixpoint start_run (n : nat) (i : Z) (w : World) : option World :=
  match n with
  | O => Some w
  | S n' =>
      th ← threads_ (pool w) !! i;
      let w1 := Thread_start th w in
      start_run n' (i + 1)
        (upd_pool (fun p => set_idleThreadSize_ (wrap_int (idleThreadSize_ p + 1)) p) w1)
  end.

(** [start(initThreadSize)]. *)
Definition start (initThreadSize : Z) (w : World) : option World :=
  let w1 := upd_pool (set_isPoolRunning_ true) w in
  let w2 := upd_pool (set_initThreadSize_ initThreadSize) w1 in
  let w3 := upd_pool (set_curThreadSize_ initThreadSize) w2 in
  w4 ← start_create (Z.to_nat (initThreadSize_ (pool w3))) w3;
  start_run (Z.to_nat (initThreadSize_ (pool w4))) 0 w4.

(** *** threadFunc *)

(** [lastTime = high_resolution_clock().now()] on entry. *)
Definition threadFunc_enter (i : nat) (now : Z) (w : World) : World :=
  set_pc i (AtLoop now) w.

(** One evaluation of [while (taskQue_.size() == 0)] and what follows it,
    with the lock held, for the thread at index [i] called with [threadid]. *)
Definition threadFunc_check (i : nat) (threadid : Z) (lastTime : Z)
    (w : World) : World :=
  match taskQue_ (pool w) with
  | [] =>
      if negb (isPoolRunning_ (pool w)) then
        let w1 := upd_pool (fun p => set_threads_ (delete threadid (threads_ p)) p) w in
        set_pc i Exited (exitCond_notify_all w1)
      else if PoolMode_eqb (poolMode_ (pool w)) MODE_CACHED then
        set_pc i (InWaitFor lastTime false) w
      else
        set_pc i (InWait lastTime false) w
  | task :: rest =>
      let w1 := upd_pool (fun p => set_idleThreadSize_ (wrap_int (idleThreadSize_ p - 1)) p) w in
      let w2 := upd_pool (set_taskQue_ rest) w1 in
      let w3 := upd_pool (fun p => set_taskSize_ (wrap_int (taskSize_ p - 1)) p) w2 in
      (* notFull_.notify_all(): its waiters are callers of submitTask *)
      set_pc i (Holding task lastTime) w3
  end.

(** The test made after [notEmpty_.wait_for] returned [timeout]. *)
Definition reclaim_cond (now lastTime : Z) (p : ThreadPool) : bool :=
  (THREAD_MAX_IDLE_TIME <=? duration_seconds now lastTime)
  && (initThreadSize_ p <? curThreadSize_ p).

(** [notEmpty_.wait_for] returned [cv_status::timeout] at time [now]. *)
Definition threadFunc_timeout (i : nat) (threadid : Z) (lastTime now : Z)
    (w : World) : World :=
  if reclaim_cond now lastTime (pool w) then
    let w1 := upd_pool (fun p => set_threads_ (delete threadid (threads_ p)) p) w in
    let w2 := upd_pool (fun p => set_curThreadSize_ (wrap_int (curThreadSize_ p - 1)) p) w1 in
    let w3 := upd_pool (fun p => set_idleThreadSize_ (wrap_int (idleThreadSize_ p - 1)) p) w2 in
    set_pc i Exited w3
  else threadFunc_check i threadid lastTime w.

(** [if (task != nullptr) task->exec();], as one step of the thread that
    holds the task.  The step stands for the whole of [exec()] in the
    [race_free] runs: those in which, while the thread holds the task, the
    task is not submitted again, no other thread holds it, and no [get()]
    returns from the [Result] it points to.  The other runs have a data race
    on [Task::result_] or on [Result::any_]. *)
Definition threadFunc_exec (i : nat) (task : shared_ptr) (lastTime : Z)
    (w : World) : option World :=
  w1 ← match task with
       | Some t => Task_exec t w
       | None => Some w
       end;
  Some (set_pc i (Executed lastTime) w1).

(** [idleThreadSize_++; lastTime = high_resolution_clock().now();]. *)
Definition threadFunc_idle (i : nat) (now : Z) (w : World) : World :=
  set_pc i (AtLoop now)
    (upd_pool (fun p => set_idleThreadSize_ (wrap_int (idleThreadSize_ p + 1)) p) w).

(** *** ~ThreadPool *)

(** [isPoolRunning_ = false;]. *)
Definition dtor_begin (w : World) : World :=
  set_dtor FlagCleared (upd_pool (set_isPoolRunning_ false) w).

(** One evaluation of the predicate of [exitCond_.wait]. *)
Definition dtor_check (w : World) : World :=
  if (size (threads_ (pool w)) =? 0)%nat then set_dtor Destroyed w
  else set_dtor (DtorWaiting false) w.

(** The lock is taken, [notEmpty_.notify_all()], then [exitCond_.wait]. *)
Definition dtor_lock (w : World) : World :=
  dtor_check (notEmpty_notify_all w).

(** ** Interleaving semantics *)

(** The atomic steps of a program that uses one pool.  Calls of the public
    interface come from client threads; the [Worker] steps belong to the
    thread at index [i] of [os_threads]; clock readings come with the step
    that makes them. *)
Inductive Event : Type :=
| CallSetMode (mode : PoolMode)
| CallSetTaskQueMaxThreshHold (threshhold : Z)
| CallSetThreadSizeThreshHold (threshhold : Z)
| CallStart (initThreadSize : Z)
| CallSubmitTask (sp : shared_ptr) (r : addr)
    (* the critical section that ends [wait_for] and the rest of the call *)
| CallGet (r : addr)
    (* a [Result::get()] that returns *)
| CallDestroy
    (* [~ThreadPool] up to [isPoolRunning_ = false] *)
| DtorLock
    (* [~ThreadPool] takes the lock, notifies, first test of [exitCond_] *)
| DtorWake (spurious : bool)
    (* the destroying thread wakes on [exitCond_] and tests again *)
| WorkerEnter (i : nat) (now : Z)
| WorkerLock (i : nat)
    (* from the top of [while (true)] to the release of the lock *)
| WorkerWake (i : nat) (spurious : bool)
    (* [wait] returns, or [wait_for] returns [no_timeout] *)
| WorkerTimeout (i : nat) (now : Z)
    (* [wait_for] returns [timeout] *)
| WorkerExec (i : nat)
    (* [if (task != nullptr) task->exec()], see [threadFunc_exec] *)
| WorkerIdle (i : nat) (now : Z).

(** Steps of the thread at index [i]. *)
Definition worker_step (e : Event) (w : World) : option World :=
  match e with
  | WorkerEnter i now =>
      th ← os_threads w !! i;
      match pc th with
      | Entry => Some (threadFunc_enter i now w)
      | _ => None
      end
  | WorkerLock i =>
      th ← os_threads w !! i;
      match pc th with
      | AtLoop lt => Some (threadFunc_check i (threadid th) lt w)
      | _ => None
      end
  | WorkerWake i spurious =>
      th ← os_threads w !! i;
      match pc th with
      | InWaitFor lt notified | InWait lt notified =>
          if spurious || notified
          then Some (threadFunc_check i (threadid th) lt w)
          else None
      | _ => None
      end
  | WorkerTimeout i now =>
      th ← os_threads w !! i;
      match pc th with
      | InWaitFor lt _ => Some (threadFunc_timeout i (threadid th) lt now w)
      | _ => None
      end
  | WorkerExec i =>
      th ← os_threads w !! i;
      match pc th with
      | Holding task lt => threadFunc_exec i task lt w
      | _ => None
      end
  | WorkerIdle i now =>
      th ← os_threads w !! i;
      match pc th with
      | Executed _ => Some (threadFunc_idle i now w)
      | _ => None
      end
  | _ => None
  end.

(** Calls of the pool's public interface, on a pool whose destructor has
    not been entered; [int] arguments are [int]s.  [start] and the setters
    take no lock: each is one step, and calls that overlap them are outside
    the model. *)
Definition client_step (e : Event) (w : World) : option World :=
  match e with
  | CallSetMode mode => Some (upd_pool (setMode mode) w)
  | CallSetTaskQueMaxThreshHold n =>
      if is_intb n then Some (upd_pool (setTaskQueMaxThreshHold n) w) else None
  | CallSetThreadSizeThreshHold n =>
      if is_intb n then Some (upd_pool (setThreadSizeThreshHold n) w) else None
  | CallStart n =>
      if is_intb n then start n w else None
  | CallSubmitTask sp r => submitTask [] w sp r
  | CallDestroy => Some (dtor_begin w)
  | _ => None
  end.

(** A call of [Result::get()] that returns; a [Result] lives in its caller
    and can be read whatever the state of the pool. *)
Definition result_step (e : Event) (w : World) : option World :=
  match e with
  | CallGet r =>
      res ← results w !! r;
      match Result.get res with
      | Result.Returned _ res' => Some (set_results (<[r := res']> (results w)) w)
      | Result.Blocked => None
      end
  | _ => None
  end.

(** Steps of the destroying thread inside [~ThreadPool]. *)
Definition dtor_step (e : Event) (w : World) : option World :=
  match e, dtor w with
  | DtorLock, FlagCleared => Some (dtor_lock w)
  | DtorWake spurious, DtorWaiting notified =>
      if spurious || notified then Some (dtor_check w) else None
  | _, _ => None
  end.

Definition is_worker_event (e : Event) : bool :=
  match e with
  | WorkerEnter _ _ | WorkerLock _ | WorkerWake _ _ | WorkerTimeout _ _
  | WorkerExec _ | WorkerIdle _ _ => true
  | _ => false
  end.

Definition is_result_event (e : Event) : bool :=
  match e with
  | CallGet _ => true
  | _ => false
  end.

(** One step.  [None]: the step is not enabled, or it has undefined
    behaviour. The members of a destroyed pool are not accessed. *)
Definition step (e : Event) (w : World) : option World :=
  if is_result_event e then result_step e w
  else
    match dtor w with
    | Destroyed => None
    | Alive =>
        if is_worker_event e then worker_step e w
        else client_step e w
    | _ =>
        if is_worker_event e then worker_step e w
        else dtor_step e w
    end.

(** A run: the steps of a schedule in order. *)
Fixpoint run (evs : list Event) (w : World) : option World :=
  match evs with
  | [] => Some w
  | e :: evs' => w' ← step e w; run evs' w'
  end.

(** *** Observations on a run *)

(** The task a step hands to a thread, if it does. *)
Definition dispatched_by (e : Event) (w w' : World) : list shared_ptr :=
  match e with
  | WorkerLock i | WorkerWake i _ | WorkerTimeout i _ =>
      match pc <$> os_threads w' !! i with
      | Some (Holding task _) => [task]
      | _ => []
      end
  | _ => []
  end.

(** The task a step appends to the queue, if it does. *)
Definition enqueued_by (e : Event) (w : World) : list shared_ptr :=
  match e with
  | CallSubmitTask sp _ => if notFull_pred w then [sp] else []
  | _ => []
  end.

(** Tasks handed to threads along a run, in order. *)
Fixpoint dispatched (evs : list Event) (w : World) : list shared_ptr :=
  match evs with
  | [] => []
  | e :: evs' =>
      match step e w with
      | Some w' => dispatched_by e w w' ++ dispatched evs' w'
      | None => []
      end
  end.

(** Tasks accepted into the queue along a run, in order. *)
Fixpoint enqueued (evs : list Event) (w : World) : list shared_ptr :=
  match evs with
  | [] => []
  | e :: evs' =>
      match step e w with
      | Some w' => enqueued_by e w ++ enqueued evs' w'
      | None => []
      end
  end.

(** Threads that have not returned from [threadFunc]. *)
Definition live (th : OsThread) : bool :=
  match pc th with
  | Exited => false
  | _ => true
  end.

Definition live_threads (w : World) : list OsThread :=
  filter (fun th => live th = true) (os_threads w).

(** [n] calls of [get()] in a row on one handle; [None] when one of them
    blocks. *)
Fixpoint gets (n : nat) (r : Result.t) : option (list Any * Result.t) :=
  match n with
  | O => Some ([], r)
  | S n' =>
      match Result.get r with
      | Result.Returned v r' =>
          '(vs, r'') ← gets n' r'; Some (v :: vs, r'')
      | Result.Blocked => None
      end
  end.

(** *** Classes of steps *)

(** Steps other than a call of [setTaskQueMaxThreshHold]. *)
Definition keeps_queue_limit (e : Event) : bool :=
  match e with
  | CallSetTaskQueMaxThreshHold _ => false
  | _ => true
  end.

(** Steps other than a call of [start]. *)
Definition not_start (e : Event) : bool :=
  match e with
  | CallStart _ => false
  | _ => true
  end.

(** Steps other than the entry into the destructor. *)
Definition not_destroy (e : Event) : bool :=
  match e with
  | CallDestroy => false
  | _ => true
  end.

(** The queue length is within the configured limit. *)
Definition queue_within_limit (w : World) : Prop :=
  0 <= Z.of_nat (length (taskQue_ (pool w))) <= taskQueMaxThreshHold_ (pool w).

(** What the thread counters satisfy once the pool has been started: the
    plain [int]s are [int]s, the current count is at most the larger of the
    initial size and the threshold, and a pool whose destructor has not been
    entered is running. *)
Definition started_inv (w : World) : Prop :=
  is_int (initThreadSize_ (pool w))
  /\ is_int (threadSizeThreshHold_ (pool w))
  /\ is_int (curThreadSize_ (pool w))
  /\ curThreadSize_ (pool w)
       <= Z.max (initThreadSize_ (pool w)) (threadSizeThreshHold_ (pool w))
  /\ (dtor w = Alive -> isPoolRunning_ (pool w) = true).

(** Threads that hold a task they have taken from the queue. *)
Definition holds_task (th : OsThread) : bool :=
  match pc th with
  | Holding _ _ => true
  | _ => false
  end.

(** Number of tasks in flight: taken from the queue, not yet executed. *)
Definition in_flight (w : World) : nat :=
  length (filter (fun th => holds_task th = true) (os_threads w)).

(** The thread a step belongs to, for the steps inside [threadFunc]. *)
Definition event_thread (e : Event) : option nat :=
  match e with
  | WorkerEnter i _ | WorkerLock i | WorkerWake i _ | WorkerTimeout i _
  | WorkerExec i | WorkerIdle i _ => Some i
  | _ => None
  end.

(** Places of a thread other than the timed wait and the exit. *)
Definition untimed_and_live (c : WorkerPc) : bool :=
  match c with
  | InWaitFor _ _ | Exited => false
  | _ => true
  end.


(** The registry and the threads fit together: a thread object is stored
    under its own id, ids handed out so far are below [generateId_], every
    thread that has not returned is registered under its [threadid], and no
    two such threads share a [threadid]. *)
Definition registry_wf_parts (reg : gmap Z Thread.t) (g : Z)
    (ths : list OsThread) : Prop :=
  (forall k th, reg !! k = Some th -> Thread.threadId_ th = k /\ k < g)
  /\ (forall i th, ths !! i = Some th -> live th = true ->
        is_Some (reg !! threadid th))
  /\ (forall i j thi thj,
        ths !! i = Some thi -> ths !! j = Some thj ->
        live thi = true -> live thj = true ->
        threadid thi = threadid thj -> i = j).

Definition registry_wf (w : World) : Prop :=
  registry_wf_parts (threads_ (pool w)) (generateId_ w) (os_threads w).

(** A thread is in the timed wait only in Cached mode, and only while the
    pool is running or being destroyed. *)
Definition timed_wait_inv (w : World) : Prop :=
  forall i th lt b,
    os_threads w !! i = Some th -> pc th = InWaitFor lt b ->
    poolMode_ (pool w) = MODE_CACHED
    /\ (isPoolRunning_ (pool w) = true \/ dtor w <> Alive).

(** The counter [taskSize_] is the length of the queue (as an [int]). *)
Definition taskSize_inv (w : World) : Prop :=
  taskSize_ (pool w) = wrap_int (Z.of_nat (length (taskQue_ (pool w)))).

(** *** Example programs *)

(** Two task objects whose [run()] returns 7 and 8. *)
Definition example_tasks : gmap addr Task.t :=
  <[0%nat := Task.init (Any_of (Derive_int 7))]>
    (<[1%nat := Task.init (Any_of (Derive_int 8))]> ∅).

(** The state a schedule leads to (the start state when it cannot run). *)
Definition after (evs : list Event) (w : World) : World :=
  default w (run evs w).

(** ** The C++11 variant *)

(** [ThreadPool_C++11/threadpool.h].  The pool object has the same members;
    a queued [std::function<void()>] is represented by the pointer to the
    [std::packaged_task] its closure captures. *)
Module Cxx11.

Definition TASK_MAX_THRESHHOLD : Z := INT32_MAX.
Definition THREAD_MAX_THRESHHOLD : Z := 1024.
Definition THREAD_MAX_IDLE_TIME : Z := 60.

(** [ThreadPool()]. *)
Definition ThreadPool_ctor : ThreadPool :=
  {| threads_ := ∅;
     initThreadSize_ := 0;
     threadSizeThreshHold_ := THREAD_MAX_THRESHHOLD;
     curThreadSize_ := 0;
     idleThreadSize_ := 0;
     taskQue_ := [];
     taskSize_ := 0;
     taskQueMaxThreshHold_ := TASK_MAX_THRESHHOLD;
     poolMode_ := MODE_FIXED;
     isPoolRunning_ := false |}.

(** The [std::future] that [submitTask] returns. *)
Inductive future : Type :=
| FutureOf (task : addr)
    (* [task->get_future()] of the queued task *)
| FutureDefault.
    (* future of a task [[]()->RType { return RType(); }] already run *)

(** [submitTask(func, args...)] from the point where [wait_for] has
    returned [ok] in state [w]; [task] is the packaged task made from
    [func] and [args].  The growth test and its body are the same
    statements as in threadpool.cpp. *)
Definition submitTask_locked (ok : bool) (task : addr) (w : World)
    : option (World * future) :=
  if negb ok then Some (w, FutureDefault)
  else
    let w1 := upd_pool (fun p => set_taskQue_ (taskQue_ p ++ [Some task]) p) w in
    let w2 := upd_pool (fun p => set_taskSize_ (wrap_int (taskSize_ p + 1)) p) w1 in
    let w3 := notEmpty_notify_all w2 in
    w4 ← (if grow_cond (pool w3) then submitTask_grow w3 else Some w3);
    Some (w4, FutureOf task).

Definition submitTask (observed : list World) (deadline : World)
    (task : addr) : option (World * future) :=
  let '(ok, w) := wait_for notFull_pred observed deadline in
  submitTask_locked ok task w.

End Cxx11.

(** ** Typed construction and extraction of [Any] *)

(** The types at which [Any(T)] and [cast_<T>()] are instantiated here. *)
Inductive CType : Type := T_const_char_ptr | T_int | T_unsigned_long.

(** Values of the C++ type [T]. *)
Definition value (T : CType) : Type :=
  match T with
  | T_const_char_ptr => string
  | T_int | T_unsigned_long => Z
  end.

(** [Derive<T>(data)]. *)
Definition Derive (T : CType) : value T -> Base :=
  match T with
  | T_const_char_ptr => Derive_const_char_ptr
  | T_int => Derive_int
  | T_unsigned_long => Derive_unsigned_long
  end.

(** [Any(T data)]: [base_(std::make_unique<Derive<T>>(data))]. *)
Definition Any_ctor (T : CType) (data : value T) : Any :=
  mkAny (Some (Derive T data)).

(** [dynamic_cast<Derive<T>*>(base_.get())]: the null pointer for a null
    [base_] and for an object of another instantiation of [Derive]. *)
Definition dynamic_cast_Derive (T : CType) (b : option Base) : option (value T) :=
  match T return option (value T) with
  | T_const_char_ptr =>
      match b with Some (Derive_const_char_ptr d) => Some d | _ => None end
  | T_int =>
      match b with Some (Derive_int d) => Some d | _ => None end
  | T_unsigned_long =>
      match b with Some (Derive_unsigned_long d) => Some d | _ => None end
  end.

(** [cast_<T>()]: [inr] is the string that is thrown. *)
Definition cast_ (T : CType) (a : Any) : value T + string :=
  match dynamic_cast_Derive T (base_ a) with
  | Some data_ => inl data_
  | None => inr "type is unmatch!"%string
  end.

(** ** Repeated calls *)

(** [n] calls in a row of an operation on one object; [None] when one of
    them blocks or is undefined. *)
Fixpoint calls {A : Type} (n : nat) (f : A -> option A) (x : A) : option A :=
  match n with
  | O => Some x
  | S n' => x' ← f x; calls n' f x'
  end.

(** ** Counting threads and pointers *)

(** Places of a thread between taking a task and [idleThreadSize_++]. *)
Definition busy_pc (c : WorkerPc) : bool :=
  match c with
  | Holding _ _ | Executed _ => true
  | _ => false
  end.

(** [1] for [true], [0] for [false]. *)
Definition b2z (b : bool) : Z := if b then 1 else 0.

(** Number of threads that are not counted as idle. *)
Definition busy (w : World) : nat :=
  length (filter (fun th => busy_pc (pc th) = true) (os_threads w)).

(** [idleThreadSize_] counts the threads of [curThreadSize_] that are not
    busy (the atomic counters wrap around). *)
Definition idle_inv (w : World) : Prop :=
  wrap_int (idleThreadSize_ (pool w) + Z.of_nat (busy w))
  = wrap_int (curThreadSize_ (pool w)).

(** [curThreadSize_] is [threads_.size()]. *)
Definition count_inv (w : World) : Prop :=
  curThreadSize_ (pool w) = Z.of_nat (size (threads_ (pool w))).

(** A task pointer that is not null and points to a task object whose back
    pointer [result_] points to a [Result] object. *)
Definition bound (w : World) (sp : shared_ptr) : Prop :=
  exists t tk r res,
    sp = Some t /\ tasks w !! t = Some tk
    /\ Task.result_ tk = Some r /\ results w !! r = Some res.

(** Every pointer the pool holds is [bound]: the entries of the queue and
    the tasks taken by threads; and every back pointer of a task object
    points to a [Result] object. *)
Definition heap_inv (w : World) : Prop :=
  (forall t tk r, tasks w !! t = Some tk -> Task.result_ tk = Some r ->
     is_Some (results w !! r))
  /\ Forall (bound w) (taskQue_ (pool w))
  /\ (forall i th task lt, os_threads w !! i = Some th ->
        pc th = Holding task lt -> bound w task).

(** From [w] to [w'] no [Result] object has gone, and a task object has
    changed at most by getting a back pointer to a [Result] object. *)
Definition heap_le (w w' : World) : Prop :=
  (forall r, is_Some (results w !! r) -> is_Some (results w' !! r))
  /\ (forall t tk, tasks w !! t = Some tk ->
        tasks w' !! t = Some tk
        \/ exists r, tasks w' !! t = Some (Task.setResult r tk)
                     /\ is_Some (results w' !! r))
  /\ (forall t tk', tasks w' !! t = Some tk' ->
        tasks w !! t = Some tk'
        \/ exists r, Task.result_ tk' = Some r /\ is_Some (results w' !! r)).

(** No task object points to the [Result] object at [r], which holds
    [res]. *)
Definition orphaned (r : addr) (res : Result.t) (w : World) : Prop :=
  results w !! r = Some res
  /\ forall t tk, tasks w !! t = Some tk -> Task.result_ tk <> Some r.

(** The thread object registered under [k] belongs to no thread that has
    not returned, and [k] has been handed out. *)
Definition unowned (k : Z) (w : World) : Prop :=
  is_Some (threads_ (pool w) !! k)
  /\ (forall key th, threads_ (pool w) !! key = Some th ->
        Thread.threadId_ th = key /\ key < generateId_ w)
  /\ (forall i th, os_threads w !! i = Some th -> live th = true ->
        threadid th <> k).

(** ** The local variable [lastTime] *)

(** The value of [lastTime] at a place of [threadFunc]: [None] before it is
    initialised and after the return. *)
Definition lastTime_of (c : WorkerPc) : option Z :=
  match c with
  | Entry | Exited => None
  | AtLoop lt | InWaitFor lt _ | InWait lt _ | Holding _ lt | Executed lt =>
      Some lt
  end.

(** Steps other than the completion of a task by the thread at [i]
    ([idleThreadSize_++; lastTime = now] after [task->exec()]). *)
Definition not_completion_of (i : nat) (e : Event) : bool :=
  match e with
  | WorkerIdle j _ => negb (j =? i)%nat
  | _ => true
  end.

(** ** Executions of tasks *)

(** The task of a place at which a thread holds one. *)
Definition held_at (c : WorkerPc) : list shared_ptr :=
  match c with
  | Holding task _ => [task]
  | _ => []
  end.

(** The tasks that threads have taken and not yet passed to
    [if (task != nullptr) task->exec()]. *)
Definition held (ths : list OsThread) : list shared_ptr :=
  concat (map (fun th => held_at (pc th)) ths).



(** ** Data races on a task object and its [Result] *)

(** The thread holds the task object at [t]: it has taken it from the queue
    and has not finished [task->exec()]. *)
Definition holds (t : addr) (th : OsThread) : bool :=
  match pc th with
  | Holding (Some t') _ => (t' =? t)%nat
  | _ => false
  end.

(** The thread holds a task object whose [result_] points to the [Result]
    at [r]: its [exec()] writes [any_] of that [Result] in [setVal]. *)
Definition publishes_into (w : World) (r : addr) (th : OsThread) : bool :=
  match pc th with
  | Holding (Some t) _ =>
      match Task.result_ <$> tasks w !! t with
      | Some (Some r') => (r' =? r)%nat
      | _ => false
      end
  | _ => false
  end.

(** Calls that race with an [exec()] in progress.  [Result]'s constructor
    writes [Task::result_] under [taskQueMtx_]; [exec()] reads it without
    the lock, before it calls [run()], and calls [setVal] afterwards: a
    submission of a task object that a thread holds is a data race with
    that read.  [get()] on a valid [Result] moves the value out of [any_],
    which [setVal] writes: a [get()] that returns from a valid [Result]
    while a thread holds a task that points to it is a data race with that
    write. *)
Definition races (e : Event) (w : World) : bool :=
  match e with
  | CallSubmitTask (Some t) _ => existsb (holds t) (os_threads w)
  | CallGet r =>
      match results w !! r with
      | Some res =>
          Result.isValid_ res && existsb (publishes_into w r) (os_threads w)
      | None => false
      end
  | _ => false
  end.

(** The task objects that threads hold. *)
Definition held_objects (ths : list OsThread) : list addr :=
  omap id (held ths).

(** No address occurs twice. *)
Fixpoint distinct (l : list addr) : bool :=
  match l with
  | [] => true
  | t :: l' => negb (existsb (Nat.eqb t) l') && distinct l'
  end.

(** No task object is held by two threads.  Two threads that hold one task
    object both call [run()] on it and both write [any_] of its [Result]
    in [setVal], without synchronisation. *)
Definition exclusive (w : World) : bool :=
  distinct (held_objects (os_threads w)).

(** Runs without a data race on a task object or its [Result]: every state
    they pass is [exclusive] and no step [races].  Along them
    [Task::result_] of a task does not change while a thread holds the
    task, so that the value [exec()] reads is the value at the step
    [WorkerExec]. *)
Fixpoint race_free (evs : list Event) (w : World) : bool :=
  exclusive w
  && match evs with
     | [] => true
     | e :: evs' =>
         negb (races e w)
         && match step e w with
            | Some w' => race_free evs' w'
            | None => true
            end
     end.

(** ** The queue at the end of the destructor *)


(** * Properties *)

(** Closes the conjuncts of an invariant after a step has been unfolded. *)
Ltac close_inv :=
  repeat match goal with |- _ /\ _ => split end;
  first [ done | lia | (unfold is_int in *; lia) | congruence | auto ].

(** ** Integers *)

Lemma is_intb_spec z : is_intb z = true <-> is_int z.
Proof. unfold is_intb, is_int. rewrite andb_true_iff, !Z.leb_le. tauto. Qed.

Lemma wrap_int_id z : is_int z -> wrap_int z = z.
Proof.
  unfold is_int, wrap_int, INT32_MIN, INT32_MAX. intros H.
  rewrite Z.mod_small; lia.
Qed.

Lemma duration_seconds_ge now lastTime :
  THREAD_MAX_IDLE_TIME <= duration_seconds now lastTime
  <-> THREAD_MAX_IDLE_TIME * ticks_per_second <= now - lastTime.
Proof.
  unfold duration_seconds, THREAD_MAX_IDLE_TIME, ticks_per_second.
  split; intros H.
  - destruct (Z.le_gt_cases 0 (now - lastTime)) as [Hs | Hs].
    + rewrite Z.quot_div_nonneg in H by lia.
      pose proof (Z.mul_div_le (now - lastTime) 1000000000). lia.
    + pose proof (Z.quot_opp_l (now - lastTime) 1000000000).
      assert (0 <= Z.quot (- (now - lastTime)) 1000000000)
        by (apply Z.quot_pos; lia).
      lia.
  - rewrite Z.quot_div_nonneg by lia.
    apply Z.div_le_lower_bound; lia.
Qed.

(** ** C10: the constructed pool *)

(** C10. A newly constructed pool is in Fixed mode, not running, with empty
    registry and queue and all counters zero; its queue depth limit is
    INT32_MAX = 2147483647, which is also the bound the queue size is
    compared with, and its Cached-mode thread maximum is 1024.  The
    constructor of the C++11 variant builds the same object. *)
Theorem ThreadPool_ctor_defaults :
  poolMode_ ThreadPool_ctor = MODE_FIXED
  /\ isPoolRunning_ ThreadPool_ctor = false
  /\ initThreadSize_ ThreadPool_ctor = 0
  /\ curThreadSize_ ThreadPool_ctor = 0
  /\ idleThreadSize_ ThreadPool_ctor = 0
  /\ taskSize_ ThreadPool_ctor = 0
  /\ taskQue_ ThreadPool_ctor = []
  /\ threads_ ThreadPool_ctor = ∅
  /\ taskQueMaxThreshHold_ ThreadPool_ctor = INT32_MAX
  /\ INT32_MAX = 2 ^ 31 - 1
  /\ to_size_t (taskQueMaxThreshHold_ ThreadPool_ctor) = 2147483647
  /\ threadSizeThreshHold_ ThreadPool_ctor = 1024
  /\ Cxx11.ThreadPool_ctor = ThreadPool_ctor.
Proof. repeat split. Qed.

(** ** C8: configuration after start *)

Lemma upd_pool_id f w : f (pool w) = pool w -> upd_pool f w = w.
Proof. intros H. destruct w. unfold upd_pool, set_pool. simpl in *. by rewrite H. Qed.

(** C8. While the pool is running, [setMode], [setTaskQueMaxThreshHold] and
    [setThreadSizeThreshHold] return with the pool object unchanged, and as
    steps of a program they succeed and leave the whole state unchanged;
    [setThreadSizeThreshHold] also leaves the pool unchanged whenever the
    mode is Fixed, running or not. *)
Theorem setters_ignored_while_running (p : ThreadPool) (w : World)
    (mode : PoolMode) (n : Z) :
  (isPoolRunning_ p = true ->
     setMode mode p = p
     /\ setTaskQueMaxThreshHold n p = p
     /\ setThreadSizeThreshHold n p = p)
  /\ (poolMode_ p = MODE_FIXED -> setThreadSizeThreshHold n p = p)
  /\ (isPoolRunning_ (pool w) = true -> dtor w = Alive -> is_int n ->
        step (CallSetMode mode) w = Some w
        /\ step (CallSetTaskQueMaxThreshHold n) w = Some w
        /\ step (CallSetThreadSizeThreshHold n) w = Some w).
Proof.
  split; [| split].
  - intros Hrun. unfold setMode, setTaskQueMaxThreshHold,
      setThreadSizeThreshHold, checkRunningState. by rewrite Hrun.
  - intros Hmode. unfold setThreadSizeThreshHold.
    destruct (checkRunningState p); [done |]. by rewrite Hmode.
  - intros Hrun Halive Hn. apply is_intb_spec in Hn.
    unfold step. rewrite Halive. simpl. rewrite Hn.
    rewrite !upd_pool_id; [done | | |];
      unfold setMode, setTaskQueMaxThreshHold, setThreadSizeThreshHold,
        checkRunningState; by rewrite Hrun.
Qed.

Lemma setters_ignored_while_running_witness :
  let p := set_isPoolRunning_ true ThreadPool_ctor in
  let w := set_pool p (World_init ∅) in
  (setMode MODE_CACHED p = p
   /\ setTaskQueMaxThreshHold 8 p = p
   /\ setThreadSizeThreshHold 8 p = p)
  /\ setThreadSizeThreshHold 8 ThreadPool_ctor = ThreadPool_ctor
  /\ (step (CallSetMode MODE_CACHED) w = Some w
      /\ step (CallSetTaskQueMaxThreshHold 8) w = Some w
      /\ step (CallSetThreadSizeThreshHold 8) w = Some w).
Proof.
  intros p w.
  split; [| split].
  - apply (setters_ignored_while_running p w MODE_CACHED 8). reflexivity.
  - apply (setters_ignored_while_running ThreadPool_ctor w MODE_CACHED 8).
    reflexivity.
  - apply (setters_ignored_while_running p w MODE_CACHED 8);
      [reflexivity | reflexivity | unfold is_int, INT32_MIN, INT32_MAX; lia].
Defined.

(** ** C1: rejected submissions *)

Lemma wait_for_never {A : Type} (pred : A -> bool) observed deadline :
  Forall (fun s => pred s = false) observed ->
  pred deadline = false ->
  wait_for pred observed deadline = (false, deadline).
Proof.
  induction 1 as [| s rest Hs _ IH]; intros Hd; simpl.
  - by rewrite Hd.
  - rewrite Hs. by apply IH.
Qed.

Lemma notFull_pred_at_limit w :
  Z.of_nat (length (taskQue_ (pool w))) = taskQueMaxThreshHold_ (pool w) ->
  notFull_pred w = false.
Proof.
  intros H. unfold notFull_pred. apply Z.ltb_ge.
  unfold to_size_t. rewrite <- H.
  pose proof (Z.mod_le (Z.of_nat (length (taskQue_ (pool w)))) (2 ^ 64)).
  lia.
Qed.

(** C1. When the queue is at the configured depth limit every time the
    caller evaluates the admission predicate, up to and including the
    evaluation at the 1-second deadline, [submitTask] returns right after
    that evaluation with an invalid [Result]: the pool object (queue,
    pending count, registry, counters) and the threads are those of the
    deadline state, nothing is enqueued, and [get()] on the returned handle
    returns the empty-string [Any] without waiting, however often it is
    called. *)
Theorem submitTask_rejects_when_full (observed : list World)
    (deadline : World) (t r : addr) (tk : Task.t) :
  Forall (fun w => Z.of_nat (length (taskQue_ (pool w)))
                   = taskQueMaxThreshHold_ (pool w)) observed ->
  Z.of_nat (length (taskQue_ (pool deadline)))
    = taskQueMaxThreshHold_ (pool deadline) ->
  tasks deadline !! t = Some tk ->
  results deadline !! r = None ->
  exists w' res,
    submitTask observed deadline (Some t) r = Some w'
    /\ pool w' = pool deadline
    /\ os_threads w' = os_threads deadline
    /\ enqueued_by (CallSubmitTask (Some t) r) deadline = []
    /\ results w' !! r = Some res
    /\ Result.isValid_ res = false
    /\ Result.get res = Result.Returned Any_empty_string res
    /\ forall n, gets n res = Some (replicate n Any_empty_string, res).
Proof.
  intros Hobs Hdl Htk Hr.
  pose proof (notFull_pred_at_limit _ Hdl) as Hfull.
  exists (set_results (<[r := Result.init t false]> (results deadline))
            (set_tasks (<[t := Task.setResult r tk]> (tasks deadline)) deadline)),
         (Result.init t false).
  split.
  { unfold submitTask. rewrite wait_for_never; [| | done].
    - unfold submitTask_locked, Result_ctor. simpl. rewrite Htk. simpl.
      by rewrite Hr.
    - eapply Forall_impl; [exact Hobs |]. intros w Hw.
      by apply notFull_pred_at_limit. }
  repeat split.
  - simpl. by rewrite Hfull.
  - simpl. apply lookup_insert_eq.
  - induction n as [| n IH]; [done |].
    simpl. rewrite IH. done.
Qed.

(** ** C2: reading a published handle *)

Lemma get_blocked_iff r :
  Result.get r = Result.Blocked
  <-> Result.isValid_ r = true /\ Semaphore.resLimit_ (Result.sem_ r) <= 0.
Proof.
  unfold Result.get, Semaphore.wait, int_decr, INT32_MIN.
  destruct (Result.isValid_ r); simpl.
  - destruct (Z.ltb_spec 0 (Semaphore.resLimit_ (Result.sem_ r))) as [H | H].
    + destruct (Z.ltb_spec (-2147483648) (Semaphore.resLimit_ (Result.sem_ r)));
        simpl; [| lia]. split; [discriminate | lia].
    + split; [intros _; split; [done | lia] | done].
  - split; [discriminate | intros [? _]; discriminate].
Qed.

(** C2, as amended. On a valid handle that holds no unread value (the state
    in which every handle is created), [setVal] stores the value and
    releases exactly one reader: the first [get()] afterwards returns the
    published value without blocking and moves it out, and the [get()]
    after that blocks, since the semaphore count is back at zero. *)
Theorem get_after_setVal (r : Result.t) (v : Any) :
  Result.isValid_ r = true ->
  Semaphore.resLimit_ (Result.sem_ r) = 0 ->
  exists r1 r2,
    Result.setVal v r = Some r1
    /\ Result.get r1 = Result.Returned v r2
    /\ Result.any_ r2 = Any_default
    /\ Semaphore.resLimit_ (Result.sem_ r2) = 0
    /\ Result.get r2 = Result.Blocked.
Proof.
  intros Hvalid Hzero. destruct r as [a [lim] t valid]. simpl in *. subst.
  eexists _, _. repeat split.
Qed.

Lemma get_after_setVal_witness :
  exists r1 r2,
    Result.setVal (Any_of (Derive_int 7)) (Result.init 0%nat true) = Some r1
    /\ Result.get r1 = Result.Returned (Any_of (Derive_int 7)) r2
    /\ Result.any_ r2 = Any_default
    /\ Semaphore.resLimit_ (Result.sem_ r2) = 0
    /\ Result.get r2 = Result.Blocked.
Proof.
  apply (get_after_setVal (Result.init 0%nat true) (Any_of (Derive_int 7)));
    reflexivity.
Defined.

(** C2 as stated fails: after one [setVal] on a fresh valid handle the
    second [get()] blocks. *)
Lemma second_get_blocks :
  ~ (forall (r r1 : Result.t) (v : Any),
       Result.isValid_ r = true ->
       Result.setVal v r = Some r1 ->
       forall n, is_Some (gets n r1)).
Proof.
  intros H.
  specialize (H (Result.init 0%nat true)
                (Result.mk (Any_of (Derive_int 7)) (Semaphore.mk 1) 0%nat true)
                (Any_of (Derive_int 7)) eq_refl eq_refl 2%nat).
  destruct H as [x Hx]. discriminate Hx.
Qed.

(** ** C5: growth on submission *)

Lemma PoolMode_eqb_eq a b : PoolMode_eqb a b = true <-> a = b.
Proof. destruct a, b; simpl; split; congruence. Qed.

Lemma grow_cond_spec p :
  grow_cond p = true
  <-> poolMode_ p = MODE_CACHED
      /\ idleThreadSize_ p < taskSize_ p
      /\ curThreadSize_ p < threadSizeThreshHold_ p.
Proof.
  unfold grow_cond.
  rewrite !andb_true_iff, PoolMode_eqb_eq, !Z.ltb_lt. tauto.
Qed.

Lemma emplace_lookup k th m : is_Some (emplace k th m !! k).
Proof.
  unfold emplace. destruct (m !! k) eqn:E.
  - rewrite E. eauto.
  - rewrite lookup_insert_eq. eauto.
Qed.

Lemma submitTask_grow_spec w w' :
  submitTask_grow w = Some w' ->
  exists th,
    threads_ (pool w') !! generateId_ w = Some th
    /\ threads_ (pool w') = emplace (generateId_ w) (Thread.mk (generateId_ w)) (threads_ (pool w))
    /\ os_threads w' = os_threads w ++ [mkOs (Thread.threadId_ th) Entry]
    /\ generateId_ w' = generateId_ w + 1
    /\ curThreadSize_ (pool w') = wrap_int (curThreadSize_ (pool w) + 1)
    /\ idleThreadSize_ (pool w') = wrap_int (idleThreadSize_ (pool w) + 1)
    /\ taskQue_ (pool w') = taskQue_ (pool w)
    /\ taskSize_ (pool w') = taskSize_ (pool w)
    /\ initThreadSize_ (pool w') = initThreadSize_ (pool w)
    /\ threadSizeThreshHold_ (pool w') = threadSizeThreshHold_ (pool w)
    /\ taskQueMaxThreshHold_ (pool w') = taskQueMaxThreshHold_ (pool w)
    /\ poolMode_ (pool w') = poolMode_ (pool w)
    /\ isPoolRunning_ (pool w') = isPoolRunning_ (pool w)
    /\ tasks w' = tasks w /\ results w' = results w /\ dtor w' = dtor w.
Proof.
  unfold submitTask_grow, Thread_ctor, int_incr.
  destruct (generateId_ w <? INT32_MAX); simpl; [| discriminate].
  destruct (emplace_lookup (generateId_ w) (Thread.mk (generateId_ w))
              (threads_ (pool w))) as [th Hth].
  unfold Thread.getId. simpl. rewrite Hth. simpl.
  intros [= <-]. exists th. simpl. repeat split; done.
Qed.

Lemma Result_ctor_frame r sp valid w w' :
  Result_ctor r sp valid w = Some w' ->
  pool w' = pool w /\ os_threads w' = os_threads w
  /\ generateId_ w' = generateId_ w /\ dtor w' = dtor w.
Proof.
  unfold Result_ctor. destruct sp as [t |]; simpl; [| discriminate].
  destruct (tasks w !! t); simpl; [| discriminate].
  destruct (results w !! r); [discriminate |].
  intros [= <-]. done.
Qed.

(** C5. A call of [submitTask] that is admitted in state [w] appends the
    task to the queue and starts at most one thread before it returns:
    exactly one, with a fresh thread object registered and both thread
    counters incremented, when the mode is Cached, the pending count
    ([taskSize_] after the increment for this task; [taskSize_] is the
    length of the queue in every state a program reaches, [run_taskSize])
    exceeds the idle count and the current count is below
    [threadSizeThreshHold_]; none otherwise, and in particular none in Fixed
    mode.  The C++11 [submitTask] changes the pool, the threads and the id
    counter in the same way. *)
Theorem submitTask_spawns_at_most_one (observed : list World)
    (deadline w w' : World) (sp : shared_ptr) (r : addr) :
  wait_for notFull_pred observed deadline = (true, w) ->
  submitTask observed deadline sp r = Some w' ->
  let pending := wrap_int (taskSize_ (pool w) + 1) in
  let cond := poolMode_ (pool w) = MODE_CACHED
              /\ idleThreadSize_ (pool w) < pending
              /\ curThreadSize_ (pool w) < threadSizeThreshHold_ (pool w) in
  taskQue_ (pool w') = taskQue_ (pool w) ++ [sp]
  /\ taskSize_ (pool w') = pending
  /\ (cond ->
        (exists tid,
           os_threads w' = os_threads (notEmpty_notify_all w) ++ [mkOs tid Entry])
        /\ is_Some (threads_ (pool w') !! generateId_ w)
        /\ generateId_ w' = generateId_ w + 1
        /\ curThreadSize_ (pool w') = wrap_int (curThreadSize_ (pool w) + 1)
        /\ idleThreadSize_ (pool w') = wrap_int (idleThreadSize_ (pool w) + 1))
  /\ (~ cond ->
        os_threads w' = os_threads (notEmpty_notify_all w)
        /\ threads_ (pool w') = threads_ (pool w)
        /\ generateId_ w' = generateId_ w
        /\ curThreadSize_ (pool w') = curThreadSize_ (pool w)
        /\ idleThreadSize_ (pool w') = idleThreadSize_ (pool w))
  /\ (poolMode_ (pool w) = MODE_FIXED ->
        length (os_threads w') = length (os_threads w))
  /\ (length (os_threads w') <= S (length (os_threads w)))%nat
  /\ (forall task, sp = Some task ->
        exists w'',
          Cxx11.submitTask observed deadline task = Some (w'', Cxx11.FutureOf task)
          /\ pool w'' = pool w' /\ os_threads w'' = os_threads w'
          /\ generateId_ w'' = generateId_ w').
Proof.
  intros Hwait Hsub pending cond.
  unfold submitTask in Hsub. rewrite Hwait in Hsub.
  pose (w3 := notEmpty_notify_all
                (upd_pool (fun p => set_taskSize_ (wrap_int (taskSize_ p + 1)) p)
                   (upd_pool (fun p => set_taskQue_ (taskQue_ p ++ [sp]) p) w))).
  change ((if grow_cond (pool w3) then submitTask_grow w3 else Some w3)
            ≫= Result_ctor r sp true = Some w') in Hsub.
  assert (Hcond : grow_cond (pool w3) = true <-> cond).
  { rewrite grow_cond_spec. subst w3 cond pending. simpl. tauto. }
  assert (Hnot : length (os_threads w3) = length (os_threads w)).
  { subst w3. simpl. by rewrite length_map. }
  assert (Hcxx : forall w4,
    (if grow_cond (pool w3) then submitTask_grow w3 else Some w3) = Some w4 ->
    forall task, sp = Some task ->
      Cxx11.submitTask observed deadline task = Some (w4, Cxx11.FutureOf task)).
  { intros w4 H4 task ->. unfold Cxx11.submitTask. rewrite Hwait.
    change (Cxx11.submitTask_locked true task w)
      with ((if grow_cond (pool w3) then submitTask_grow w3 else Some w3)
              ≫= fun w4 => Some (w4, Cxx11.FutureOf task)).
    by rewrite H4. }
  destruct (grow_cond (pool w3)) eqn:Hg.
  - destruct (submitTask_grow w3) as [w4 |] eqn:Hgrow; [| discriminate].
    specialize (Hcxx w4 eq_refl).
    apply Result_ctor_frame in Hsub as (Hp & Hos & Hgen & _).
    apply submitTask_grow_spec in Hgrow
      as (th & Hth & _ & Hos4 & Hgen4 & Hcur & Hidle & Hq & Hsz & _).
    assert (Hc : cond) by by apply Hcond.
    rewrite Hp, Hos, Hgen.
    split; [by rewrite Hq |].
    split; [by rewrite Hsz |].
    split.
    { intros _. split; [by exists (Thread.threadId_ th) |].
      split; [by exists th |]. done. }
    split; [intros Hn; by destruct (Hn Hc) |].
    split; [intros Hfix; destruct Hc as [Hc _]; congruence |].
    split; [rewrite Hos4, length_app, Hnot; simpl; lia |].
    intros task Ht. exists w4. by rewrite (Hcxx task Ht).
  - specialize (Hcxx w3 eq_refl).
    apply Result_ctor_frame in Hsub as (Hp & Hos & Hgen & _).
    assert (Hn : ~ cond) by (intros Hc; apply Hcond in Hc; congruence).
    rewrite Hp, Hos, Hgen.
    split; [done |]. split; [done |].
    split; [intros Hc; by destruct (Hn Hc) |].
    split; [done |].
    split; [intros _; exact Hnot |].
    split; [rewrite Hnot; lia |].
    intros task Ht. exists w3. by rewrite (Hcxx task Ht).
Qed.

(** ** Effects of the elementary operations *)

(** The four kinds of steps. *)
Lemma step_cases e w w' :
  step e w = Some w' ->
  (is_result_event e = true /\ result_step e w = Some w')
  \/ (dtor w <> Destroyed /\ is_worker_event e = true
      /\ worker_step e w = Some w')
  \/ (dtor w = Alive /\ is_worker_event e = false
      /\ client_step e w = Some w')
  \/ (dtor w <> Alive /\ dtor w <> Destroyed /\ is_worker_event e = false
      /\ dtor_step e w = Some w').
Proof.
  unfold step. destruct (is_result_event e); [auto |].
  destruct (dtor w) eqn:Hd; try discriminate;
    destruct (is_worker_event e); intros H; auto 10.
Qed.

(** A read of a [Result] touches nothing but that [Result]. *)
Lemma result_step_frame e w w' :
  result_step e w = Some w' ->
  pool w' = pool w /\ os_threads w' = os_threads w
  /\ generateId_ w' = generateId_ w /\ tasks w' = tasks w
  /\ dtor w' = dtor w
  /\ event_thread e = None
  /\ enqueued_by e w = [] /\ dispatched_by e w w' = [].
Proof.
  destruct e; simpl; try discriminate.
  destruct (results w !! r) as [res |]; simpl; [| discriminate].
  destruct (Result.get res); [| discriminate].
  intros [= <-]. done.
Qed.

Lemma set_pc_lookup i c w th :
  os_threads w !! i = Some th ->
  os_threads (set_pc i c w) !! i = Some (mkOs (threadid th) c).
Proof.
  intros H. unfold set_pc. simpl.
  rewrite list_lookup_alter_eq, H. done.
Qed.

Lemma exitCond_notify_all_frame w :
  pool (exitCond_notify_all w) = pool w
  /\ os_threads (exitCond_notify_all w) = os_threads w
  /\ generateId_ (exitCond_notify_all w) = generateId_ w
  /\ tasks (exitCond_notify_all w) = tasks w
  /\ results (exitCond_notify_all w) = results w.
Proof. unfold exitCond_notify_all. by destruct (dtor w). Qed.

Lemma setMode_taskQue_ m p : taskQue_ (setMode m p) = taskQue_ p.
Proof. unfold setMode. by destruct (checkRunningState p). Qed.

Lemma setTaskQueMaxThreshHold_taskQue_ n p :
  taskQue_ (setTaskQueMaxThreshHold n p) = taskQue_ p.
Proof. unfold setTaskQueMaxThreshHold. by destruct (checkRunningState p). Qed.

Lemma setThreadSizeThreshHold_taskQue_ n p :
  taskQue_ (setThreadSizeThreshHold n p) = taskQue_ p.
Proof.
  unfold setThreadSizeThreshHold.
  destruct (checkRunningState p); [done |].
  by destruct (PoolMode_eqb _ _).
Qed.

(** What the two loops of [start] leave alone. *)
Lemma start_create_frame n w w' :
  start_create n w = Some w' ->
  os_threads w' = os_threads w
  /\ taskQue_ (pool w') = taskQue_ (pool w)
  /\ taskSize_ (pool w') = taskSize_ (pool w)
  /\ initThreadSize_ (pool w') = initThreadSize_ (pool w)
  /\ curThreadSize_ (pool w') = curThreadSize_ (pool w)
  /\ idleThreadSize_ (pool w') = idleThreadSize_ (pool w)
  /\ threadSizeThreshHold_ (pool w') = threadSizeThreshHold_ (pool w)
  /\ taskQueMaxThreshHold_ (pool w') = taskQueMaxThreshHold_ (pool w)
  /\ poolMode_ (pool w') = poolMode_ (pool w)
  /\ isPoolRunning_ (pool w') = isPoolRunning_ (pool w)
  /\ tasks w' = tasks w /\ results w' = results w /\ dtor w' = dtor w.
Proof.
  revert w. induction n as [| n IH]; intros w; simpl.
  - intros [= <-]. done.
  - unfold Thread_ctor, int_incr.
    destruct (generateId_ w <? INT32_MAX); simpl; [| discriminate].
    intros H. apply IH in H. simpl in H. exact H.
Qed.

Lemma start_run_frame n i w w' :
  start_run n i w = Some w' ->
  threads_ (pool w') = threads_ (pool w)
  /\ generateId_ w' = generateId_ w
  /\ taskQue_ (pool w') = taskQue_ (pool w)
  /\ taskSize_ (pool w') = taskSize_ (pool w)
  /\ initThreadSize_ (pool w') = initThreadSize_ (pool w)
  /\ curThreadSize_ (pool w') = curThreadSize_ (pool w)
  /\ threadSizeThreshHold_ (pool w') = threadSizeThreshHold_ (pool w)
  /\ taskQueMaxThreshHold_ (pool w') = taskQueMaxThreshHold_ (pool w)
  /\ poolMode_ (pool w') = poolMode_ (pool w)
  /\ isPoolRunning_ (pool w') = isPoolRunning_ (pool w)
  /\ tasks w' = tasks w /\ results w' = results w /\ dtor w' = dtor w.
Proof.
  revert i w. induction n as [| n IH]; intros i w; simpl.
  - intros [= <-]. done.
  - destruct (threads_ (pool w) !! i); simpl; [| discriminate].
    intros H. apply IH in H. simpl in H. exact H.
Qed.

Lemma start_frame n w w' :
  start n w = Some w' ->
  taskQue_ (pool w') = taskQue_ (pool w)
  /\ taskSize_ (pool w') = taskSize_ (pool w)
  /\ initThreadSize_ (pool w') = n
  /\ curThreadSize_ (pool w') = n
  /\ threadSizeThreshHold_ (pool w') = threadSizeThreshHold_ (pool w)
  /\ taskQueMaxThreshHold_ (pool w') = taskQueMaxThreshHold_ (pool w)
  /\ poolMode_ (pool w') = poolMode_ (pool w)
  /\ isPoolRunning_ (pool w') = true
  /\ tasks w' = tasks w /\ results w' = results w /\ dtor w' = dtor w.
Proof.
  unfold start. intros H.
  destruct (start_create _ _) as [w4 |] eqn:Hc; simpl in H; [| discriminate].
  apply start_create_frame in Hc. apply start_run_frame in H.
  simpl in Hc. destruct_and!. repeat split; congruence.
Qed.

Lemma wait_for_nil {A : Type} (pred : A -> bool) s :
  wait_for pred [] s = (pred s, s).
Proof. done. Qed.

(** The queue after the critical section of [submitTask]. *)
Lemma submitTask_locked_queue ok sp r w w' :
  submitTask_locked ok sp r w = Some w' ->
  taskQue_ (pool w') = taskQue_ (pool w) ++ (if ok then [sp] else [])
  /\ taskQueMaxThreshHold_ (pool w') = taskQueMaxThreshHold_ (pool w).
Proof.
  unfold submitTask_locked. destruct ok; cbn [negb]; cbv zeta.
  - set (w3 := notEmpty_notify_all _).
    assert (H3 : taskQue_ (pool w3) = taskQue_ (pool w) ++ [sp]
                 /\ taskQueMaxThreshHold_ (pool w3) = taskQueMaxThreshHold_ (pool w))
      by done.
    clearbody w3. destruct H3 as [Hq3 Ht3].
    destruct (grow_cond (pool w3)).
    + destruct (submitTask_grow w3) as [w4 |] eqn:Hg; [| by intros ?].
      intros H. apply Result_ctor_frame in H as (-> & _).
      apply submitTask_grow_spec in Hg as (th & Hg). destruct_and!.
      split; congruence.
    + intros H. apply Result_ctor_frame in H as (-> & _). done.
  - intros H. apply Result_ctor_frame in H as (-> & _).
    by rewrite app_nil_r.
Qed.

(** The queue and the thread's place after one evaluation of the loop
    head. *)
Lemma threadFunc_check_queue i tid lt w th :
  os_threads w !! i = Some th ->
  let w' := threadFunc_check i tid lt w in
  taskQueMaxThreshHold_ (pool w') = taskQueMaxThreshHold_ (pool w)
  /\ match taskQue_ (pool w) with
     | [] => taskQue_ (pool w') = []
             /\ exists c, pc <$> os_threads w' !! i = Some c
                          /\ forall task lt', c <> Holding task lt'
     | task :: rest =>
         taskQue_ (pool w') = rest
         /\ pc <$> os_threads w' !! i = Some (Holding task lt)
     end.
Proof.
  intros Hth w'. subst w'. unfold threadFunc_check.
  destruct (taskQue_ (pool w)) as [| task rest] eqn:Hq.
  - destruct (isPoolRunning_ (pool w)); simpl.
    + destruct (PoolMode_eqb _ _); simpl; (split; [done |]); (split; [done |]);
        erewrite list_lookup_alter_eq, Hth; simpl; eexists; split; done.
    + destruct (exitCond_notify_all_frame
                  (upd_pool (fun p => set_threads_ (delete tid (threads_ p)) p) w))
        as (Hp & Hos & _).
      rewrite Hp, Hos. simpl. split; [done |]. split; [done |].
      rewrite list_lookup_alter_eq, Hth. simpl. eexists; split; done.
  - simpl. split; [done |]. split; [done |].
    by rewrite list_lookup_alter_eq, Hth.
Qed.

(** ** C6: FIFO dispatch *)

Lemma worker_step_fifo e w w' :
  worker_step e w = Some w' ->
  dispatched_by e w w' ++ taskQue_ (pool w') = taskQue_ (pool w)
  /\ enqueued_by e w = [].
Proof.
  destruct e; simpl; try discriminate;
    destruct (os_threads w !! i) as [th |] eqn:Hth; simpl; try discriminate;
    destruct (pc th) eqn:Hpc; try discriminate.
  - intros [= <-]. done.
  - intros [= <-].
    destruct (threadFunc_check_queue i (threadid th) lastTime w th Hth) as [_ H].
    destruct (taskQue_ (pool w)) as [| task rest].
    + destruct H as (-> & c & -> & Hc). by destruct c; try (by destruct (Hc task lastTime0)).
    + destruct H as (-> & ->). done.
  - destruct (spurious || notified); [| discriminate]. intros [= <-].
    destruct (threadFunc_check_queue i (threadid th) lastTime w th Hth) as [_ H].
    destruct (taskQue_ (pool w)) as [| task rest].
    + destruct H as (-> & c & -> & Hc). by destruct c; try (by destruct (Hc task lastTime0)).
    + destruct H as (-> & ->). done.
  - destruct (spurious || notified); [| discriminate]. intros [= <-].
    destruct (threadFunc_check_queue i (threadid th) lastTime w th Hth) as [_ H].
    destruct (taskQue_ (pool w)) as [| task rest].
    + destruct H as (-> & c & -> & Hc). by destruct c; try (by destruct (Hc task lastTime0)).
    + destruct H as (-> & ->). done.
  - intros [= <-]. unfold threadFunc_timeout.
    destruct (reclaim_cond now lastTime (pool w)).
    + simpl. by rewrite list_lookup_alter_eq, Hth.
    + destruct (threadFunc_check_queue i (threadid th) lastTime w th Hth) as [_ H].
      destruct (taskQue_ (pool w)) as [| task rest].
      * destruct H as (-> & c & -> & Hc). by destruct c; try (by destruct (Hc task lastTime0)).
      * destruct H as (-> & ->). done.
  - unfold threadFunc_exec. intros H.
    destruct task as [t |]; simpl in H.
    + unfold Task_exec in H.
      destruct (tasks w !! t) as [tk |]; simpl in H; [| discriminate].
      destruct (Task.result_ tk) as [r |].
      * destruct (results w !! r) as [res |]; simpl in H; [| discriminate].
        destruct (Result.setVal (Task.run tk) res); simpl in H; [| discriminate].
        injection H as <-. done.
      * injection H as <-. done.
    + injection H as <-. done.
  - intros [= <-]. done.
Qed.

Lemma client_step_fifo e w w' :
  client_step e w = Some w' ->
  taskQue_ (pool w') = taskQue_ (pool w) ++ enqueued_by e w
  /\ dispatched_by e w w' = [].
Proof.
  destruct e; simpl; try discriminate.
  - intros [= <-]. simpl. by rewrite setMode_taskQue_, app_nil_r.
  - destruct (is_intb threshhold); [| discriminate]. intros [= <-]. simpl.
    by rewrite setTaskQueMaxThreshHold_taskQue_, app_nil_r.
  - destruct (is_intb threshhold); [| discriminate]. intros [= <-]. simpl.
    by rewrite setThreadSizeThreshHold_taskQue_, app_nil_r.
  - destruct (is_intb initThreadSize); [| discriminate]. intros H.
    apply start_frame in H as (-> & _). by rewrite app_nil_r.
  - unfold submitTask. rewrite wait_for_nil. intros H.
    apply submitTask_locked_queue in H as [-> _]. done.
  - intros [= <-]. simpl. by rewrite app_nil_r.
Qed.

Lemma dtor_step_queue e w w' :
  dtor_step e w = Some w' ->
  taskQue_ (pool w') = taskQue_ (pool w)
  /\ taskQueMaxThreshHold_ (pool w') = taskQueMaxThreshHold_ (pool w)
  /\ dispatched_by e w w' = [] /\ enqueued_by e w = [].
Proof.
  unfold dtor_step, dtor_lock, dtor_check.
  destruct e; try (by destruct (dtor w)); destruct (dtor w); try discriminate.
  - intros [= <-]. by destruct (_ =? _)%nat.
  - destruct (spurious || notified); [| discriminate].
    intros [= <-]. by destruct (_ =? _)%nat.
Qed.

Lemma step_fifo e w w' :
  step e w = Some w' ->
  dispatched_by e w w' ++ taskQue_ (pool w') = taskQue_ (pool w) ++ enqueued_by e w.
Proof.
  intros H.
  apply step_cases in H
    as [(_ & H) | [(_ & _ & H) | [(_ & _ & H) | (_ & _ & _ & H)]]].
  - apply result_step_frame in H as (-> & _ & _ & _ & _ & _ & -> & ->).
    by rewrite app_nil_r.
  - apply worker_step_fifo in H as [-> ->]. by rewrite app_nil_r.
  - apply client_step_fifo in H as [-> ->]. done.
  - apply dtor_step_queue in H as (-> & _ & -> & ->). by rewrite app_nil_r.
Qed.

Lemma run_fifo evs w w' :
  run evs w = Some w' ->
  dispatched evs w ++ taskQue_ (pool w') = taskQue_ (pool w) ++ enqueued evs w.
Proof.
  revert w. induction evs as [| e evs IH]; intros w; simpl.
  - intros [= <-]. by rewrite app_nil_r.
  - destruct (step e w) as [w1 |] eqn:Hs; simpl; [| discriminate].
    intros Hr. apply IH in Hr. apply step_fifo in Hs.
    rewrite <- app_assoc, Hr, !app_assoc. by rewrite Hs.
Qed.

Lemma step_takes_head e w1 w2 t :
  step e w1 = Some w2 -> dispatched_by e w1 w2 = [t] ->
  taskQue_ (pool w1) = t :: taskQue_ (pool w2).
Proof.
  intros H Ht.
  apply step_cases in H
    as [(_ & H) | [(_ & _ & H) | [(_ & _ & H) | (_ & _ & _ & H)]]].
  - apply result_step_frame in H. destruct_and!. congruence.
  - apply worker_step_fifo in H as [<- _]. by rewrite Ht.
  - apply client_step_fifo in H as [_ H]. congruence.
  - apply dtor_step_queue in H. destruct_and!. congruence.
Qed.

(** C6. A step that hands a task to a thread takes the head of the queue,
    and submissions append at the tail; so along every run the tasks handed
    to threads, followed by the tasks still queued, are the tasks queued at
    the start followed by the tasks accepted since, in that order.  Hence
    for an entry A that stands before an entry B in the queue (at positions
    [length l1] and [length l1 + length l2 + 1]): once B's entry has been
    handed out, A's has been handed out at the earlier position of the
    dispatch sequence; and while A's entry has not been handed out, both
    are still queued, A before B. *)
Theorem fifo_dispatch (w w' : World) (evs : list Event)
    (l1 l2 l3 : list shared_ptr) (A B : shared_ptr) :
  taskQue_ (pool w) = l1 ++ A :: l2 ++ B :: l3 ->
  run evs w = Some w' ->
  (forall e w1 w2 t, step e w1 = Some w2 -> dispatched_by e w1 w2 = [t] ->
     taskQue_ (pool w1) = t :: taskQue_ (pool w2))
  /\ dispatched evs w ++ taskQue_ (pool w') = taskQue_ (pool w) ++ enqueued evs w
  /\ ((length l1 + length l2 + 1 < length (dispatched evs w))%nat ->
      dispatched evs w !! length l1 = Some A
      /\ dispatched evs w !! (length l1 + length l2 + 1)%nat = Some B)
  /\ ((length (dispatched evs w) <= length l1)%nat ->
      exists k, taskQue_ (pool w') !! k = Some A
                /\ taskQue_ (pool w') !! (k + length l2 + 1)%nat = Some B).
Proof.
  intros Hq Hrun. pose proof (run_fifo _ _ _ Hrun) as Heq.
  split; [apply step_takes_head |].
  split; [exact Heq |].
  rewrite Hq in Heq.
  assert (HA : (l1 ++ A :: l2 ++ B :: l3) !! length l1 = Some A).
  { rewrite lookup_app_r by lia. by rewrite Nat.sub_diag. }
  assert (HB : (l1 ++ A :: l2 ++ B :: l3) !! (length l1 + length l2 + 1)%nat = Some B).
  { rewrite lookup_app_r by lia.
    replace (length l1 + length l2 + 1 - length l1)%nat with (S (length l2)) by lia.
    simpl. rewrite lookup_app_r by lia. by rewrite Nat.sub_diag. }
  split.
  - intros Hlen.
    assert (H : forall k x, (k < length (dispatched evs w))%nat ->
                (l1 ++ A :: l2 ++ B :: l3) !! k = Some x ->
                dispatched evs w !! k = Some x).
    { intros k x Hk Hx.
      assert (Hx' : ((l1 ++ A :: l2 ++ B :: l3) ++ enqueued evs w) !! k = Some x)
        by (by apply lookup_app_l_Some).
      rewrite <- Heq in Hx'. by rewrite lookup_app_l in Hx'. }
    split; apply H; [lia | done | lia | done].
  - intros Hlen. exists (length l1 - length (dispatched evs w))%nat.
    assert (H : forall k x, (length (dispatched evs w) <= k)%nat ->
                (l1 ++ A :: l2 ++ B :: l3) !! k = Some x ->
                taskQue_ (pool w') !! (k - length (dispatched evs w))%nat = Some x).
    { intros k x Hk Hx.
      assert (Hx' : ((l1 ++ A :: l2 ++ B :: l3) ++ enqueued evs w) !! k = Some x)
        by (by apply lookup_app_l_Some).
      rewrite <- Heq in Hx'. by rewrite lookup_app_r in Hx'. }
    split; [by apply H |].
    replace (length l1 - length (dispatched evs w) + length l2 + 1)%nat
      with (length l1 + length l2 + 1 - length (dispatched evs w))%nat by lia.
    apply H; [lia | done].
Qed.

(** ** Configuration is stable under the steps of the threads *)

Lemma Task_exec_frame t w w' :
  Task_exec t w = Some w' ->
  pool w' = pool w /\ os_threads w' = os_threads w
  /\ generateId_ w' = generateId_ w /\ tasks w' = tasks w /\ dtor w' = dtor w.
Proof.
  unfold Task_exec.
  destruct (tasks w !! t) as [tk |]; simpl; [| discriminate].
  destruct (Task.result_ tk) as [r |].
  - destruct (results w !! r) as [res |]; simpl; [| discriminate].
    destruct (Result.setVal (Task.run tk) res); simpl; [| discriminate].
    intros [= <-]. done.
  - intros [= <-]. done.
Qed.

Lemma threadFunc_check_config i tid lt w :
  let w' := threadFunc_check i tid lt w in
  initThreadSize_ (pool w') = initThreadSize_ (pool w)
  /\ threadSizeThreshHold_ (pool w') = threadSizeThreshHold_ (pool w)
  /\ curThreadSize_ (pool w') = curThreadSize_ (pool w)
  /\ taskQueMaxThreshHold_ (pool w') = taskQueMaxThreshHold_ (pool w)
  /\ poolMode_ (pool w') = poolMode_ (pool w)
  /\ isPoolRunning_ (pool w') = isPoolRunning_ (pool w)
  /\ generateId_ w' = generateId_ w
  /\ tasks w' = tasks w /\ results w' = results w
  /\ (dtor w' = dtor w
      \/ exists b, dtor w = DtorWaiting b /\ dtor w' = DtorWaiting true).
Proof.
  intros w'. subst w'. unfold threadFunc_check.
  destruct (taskQue_ (pool w)); [| repeat (split; [done |]); by left].
  destruct (isPoolRunning_ (pool w)) eqn:Hrun; simpl.
  - destruct (PoolMode_eqb _ _); repeat (split; [done |]); by left.
  - unfold exitCond_notify_all. simpl.
    destruct (dtor w) eqn:Hd; simpl; rewrite ?Hd; repeat (split; [done |]);
      first [by left | right; by eexists].
Qed.

Lemma worker_step_config e w w' :
  worker_step e w = Some w' ->
  initThreadSize_ (pool w') = initThreadSize_ (pool w)
  /\ threadSizeThreshHold_ (pool w') = threadSizeThreshHold_ (pool w)
  /\ taskQueMaxThreshHold_ (pool w') = taskQueMaxThreshHold_ (pool w)
  /\ poolMode_ (pool w') = poolMode_ (pool w)
  /\ isPoolRunning_ (pool w') = isPoolRunning_ (pool w)
  /\ generateId_ w' = generateId_ w
  /\ tasks w' = tasks w
  /\ (dtor w' = dtor w
      \/ exists b, dtor w = DtorWaiting b /\ dtor w' = DtorWaiting true).
Proof.
  destruct e; simpl; try discriminate;
    destruct (os_threads w !! i) as [th |] eqn:Hth; simpl; try discriminate;
    destruct (pc th) eqn:Hpc; try discriminate.
  - intros [= <-]. repeat (split; [done |]). by left.
  - intros [= <-].
    pose proof (threadFunc_check_config i (threadid th) lastTime w) as H.
    simpl in H. destruct_and!. done.
  - destruct (spurious || notified); [| discriminate]. intros [= <-].
    pose proof (threadFunc_check_config i (threadid th) lastTime w) as H.
    simpl in H. destruct_and!. done.
  - destruct (spurious || notified); [| discriminate]. intros [= <-].
    pose proof (threadFunc_check_config i (threadid th) lastTime w) as H.
    simpl in H. destruct_and!. done.
  - intros [= <-]. unfold threadFunc_timeout.
    destruct (reclaim_cond now lastTime (pool w));
      [repeat (split; [done |]); by left |].
    pose proof (threadFunc_check_config i (threadid th) lastTime w) as H.
    simpl in H. destruct_and!. done.
  - unfold threadFunc_exec.
    destruct task as [t |]; simpl.
    + destruct (Task_exec t w) as [w1 |] eqn:Hx; simpl; [| discriminate].
      intros [= <-]. apply Task_exec_frame in Hx as (Hp & _ & Hg & Ht & Hd).
      simpl. rewrite Hp, Hg, Ht, Hd. repeat (split; [done |]). by left.
    + intros [= <-]. repeat (split; [done |]). by left.
  - intros [= <-]. repeat (split; [done |]). by left.
Qed.

Lemma setMode_frame m p :
  threads_ (setMode m p) = threads_ p
  /\ initThreadSize_ (setMode m p) = initThreadSize_ p
  /\ threadSizeThreshHold_ (setMode m p) = threadSizeThreshHold_ p
  /\ curThreadSize_ (setMode m p) = curThreadSize_ p
  /\ idleThreadSize_ (setMode m p) = idleThreadSize_ p
  /\ taskSize_ (setMode m p) = taskSize_ p
  /\ taskQueMaxThreshHold_ (setMode m p) = taskQueMaxThreshHold_ p
  /\ isPoolRunning_ (setMode m p) = isPoolRunning_ p.
Proof. unfold setMode. by destruct (checkRunningState p). Qed.

Lemma setTaskQueMaxThreshHold_frame n p :
  threads_ (setTaskQueMaxThreshHold n p) = threads_ p
  /\ initThreadSize_ (setTaskQueMaxThreshHold n p) = initThreadSize_ p
  /\ threadSizeThreshHold_ (setTaskQueMaxThreshHold n p) = threadSizeThreshHold_ p
  /\ curThreadSize_ (setTaskQueMaxThreshHold n p) = curThreadSize_ p
  /\ idleThreadSize_ (setTaskQueMaxThreshHold n p) = idleThreadSize_ p
  /\ taskSize_ (setTaskQueMaxThreshHold n p) = taskSize_ p
  /\ poolMode_ (setTaskQueMaxThreshHold n p) = poolMode_ p
  /\ isPoolRunning_ (setTaskQueMaxThreshHold n p) = isPoolRunning_ p.
Proof. unfold setTaskQueMaxThreshHold. by destruct (checkRunningState p). Qed.

Lemma setThreadSizeThreshHold_frame n p :
  threads_ (setThreadSizeThreshHold n p) = threads_ p
  /\ initThreadSize_ (setThreadSizeThreshHold n p) = initThreadSize_ p
  /\ curThreadSize_ (setThreadSizeThreshHold n p) = curThreadSize_ p
  /\ idleThreadSize_ (setThreadSizeThreshHold n p) = idleThreadSize_ p
  /\ taskSize_ (setThreadSizeThreshHold n p) = taskSize_ p
  /\ taskQueMaxThreshHold_ (setThreadSizeThreshHold n p) = taskQueMaxThreshHold_ p
  /\ poolMode_ (setThreadSizeThreshHold n p) = poolMode_ p
  /\ isPoolRunning_ (setThreadSizeThreshHold n p) = isPoolRunning_ p.
Proof.
  unfold setThreadSizeThreshHold.
  destruct (checkRunningState p); [done |]. by destruct (PoolMode_eqb _ _).
Qed.

(** ** C3: the queue bound *)

Lemma step_queue_limit e w w' :
  step e w = Some w' ->
  keeps_queue_limit e = true ->
  taskQueMaxThreshHold_ (pool w') = taskQueMaxThreshHold_ (pool w).
Proof.
  intros H Hk.
  apply step_cases in H
    as [(_ & H) | [(_ & _ & H) | [(_ & _ & H) | (_ & _ & _ & H)]]].
  - by apply result_step_frame in H as (-> & _).
  - apply worker_step_config in H. by destruct_and!.
  - destruct e; simpl in H; try discriminate.
    + injection H as <-. simpl. pose proof (setMode_frame mode (pool w)).
      by destruct_and!.
    + destruct (is_intb threshhold); [| discriminate]. injection H as <-. simpl.
      pose proof (setThreadSizeThreshHold_frame threshhold (pool w)).
      by destruct_and!.
    + destruct (is_intb initThreadSize); [| discriminate].
      apply start_frame in H. by destruct_and!.
    + unfold submitTask in H. rewrite wait_for_nil in H.
      apply submitTask_locked_queue in H. by destruct_and!.
    + by injection H as <-.
  - apply dtor_step_queue in H. by destruct_and!.
Qed.

Lemma notFull_pred_lt w :
  0 <= taskQueMaxThreshHold_ (pool w) ->
  notFull_pred w = true ->
  Z.of_nat (length (taskQue_ (pool w))) < taskQueMaxThreshHold_ (pool w).
Proof.
  unfold notFull_pred, to_size_t. intros H0 H. apply Z.ltb_lt in H.
  pose proof (Z.mod_le (taskQueMaxThreshHold_ (pool w)) (2 ^ 64)). lia.
Qed.

Lemma enqueued_by_length e w :
  0 <= taskQueMaxThreshHold_ (pool w) ->
  enqueued_by e w = []
  \/ (exists sp, enqueued_by e w = [sp])
     /\ Z.of_nat (length (taskQue_ (pool w))) < taskQueMaxThreshHold_ (pool w).
Proof.
  intros H0. destruct e; simpl; auto.
  destruct (notFull_pred w) eqn:Hp; auto.
  right. split; [by eexists |]. by apply notFull_pred_lt.
Qed.

Lemma step_queue_within_limit e w w' :
  step e w = Some w' ->
  keeps_queue_limit e = true ->
  queue_within_limit w -> queue_within_limit w'.
Proof.
  unfold queue_within_limit. intros Hs Hk Hq.
  rewrite (step_queue_limit _ _ _ Hs Hk).
  apply step_fifo in Hs. apply (f_equal length) in Hs.
  rewrite !length_app in Hs.
  destruct (enqueued_by_length e w) as [He | [[sp He] Hlt]]; [lia | |];
    rewrite He in Hs; simpl in Hs; lia.
Qed.

(** C3, as amended. When the configured limit is not negative and the queue
    is within it, the queue stays within it along every run in which the
    limit is not reconfigured ([0 <= len <= taskQueMaxThreshHold_] in every
    state reached), and a submission in the state reached either leaves the
    queue alone or appends its task after having observed
    [len < taskQueMaxThreshHold_] in that state. *)
Theorem queue_bound (w w' : World) (evs : list Event) :
  queue_within_limit w ->
  forallb keeps_queue_limit evs = true ->
  run evs w = Some w' ->
  queue_within_limit w'
  /\ taskQueMaxThreshHold_ (pool w') = taskQueMaxThreshHold_ (pool w)
  /\ forall sp r w'',
       step (CallSubmitTask sp r) w' = Some w'' ->
       taskQue_ (pool w'') = taskQue_ (pool w')
       \/ (taskQue_ (pool w'') = taskQue_ (pool w') ++ [sp]
           /\ Z.of_nat (length (taskQue_ (pool w'))) < taskQueMaxThreshHold_ (pool w')).
Proof.
  revert w. induction evs as [| e evs IH]; intros w Hq Hk; simpl.
  - intros [= ->]. split; [done |]. split; [done |].
    intros sp r w'' Hs. pose proof (step_fifo _ _ _ Hs) as Hf. simpl in Hf.
    destruct (notFull_pred w') eqn:Hp; [right | left].
    + split; [done |]. apply notFull_pred_lt; [| done].
      unfold queue_within_limit in Hq. lia.
    + by rewrite app_nil_r in Hf.
  - simpl in Hk. apply andb_true_iff in Hk as [Hke Hk].
    destruct (step e w) as [w1 |] eqn:Hs; simpl; [| discriminate].
    intros Hr.
    destruct (IH w1 (step_queue_within_limit _ _ _ Hs Hke Hq) Hk Hr)
      as (H1 & H2 & H3).
    split; [done |]. split; [| done].
    rewrite H2. by apply (step_queue_limit e).
Qed.

(** ** C4: the thread count *)

Lemma submitTask_locked_counters ok sp r w w' :
  submitTask_locked ok sp r w = Some w' ->
  initThreadSize_ (pool w') = initThreadSize_ (pool w)
  /\ threadSizeThreshHold_ (pool w') = threadSizeThreshHold_ (pool w)
  /\ poolMode_ (pool w') = poolMode_ (pool w)
  /\ isPoolRunning_ (pool w') = isPoolRunning_ (pool w)
  /\ dtor w' = dtor w
  /\ (curThreadSize_ (pool w') = curThreadSize_ (pool w)
      \/ (ok = true
          /\ poolMode_ (pool w) = MODE_CACHED
          /\ curThreadSize_ (pool w) < threadSizeThreshHold_ (pool w)
          /\ curThreadSize_ (pool w') = wrap_int (curThreadSize_ (pool w) + 1))).
Proof.
  unfold submitTask_locked. destruct ok; cbn [negb]; cbv zeta.
  - set (w3 := notEmpty_notify_all _).
    assert (H3 : initThreadSize_ (pool w3) = initThreadSize_ (pool w)
                 /\ threadSizeThreshHold_ (pool w3) = threadSizeThreshHold_ (pool w)
                 /\ poolMode_ (pool w3) = poolMode_ (pool w)
                 /\ isPoolRunning_ (pool w3) = isPoolRunning_ (pool w)
                 /\ dtor w3 = dtor w
                 /\ curThreadSize_ (pool w3) = curThreadSize_ (pool w)) by done.
    clearbody w3. destruct H3 as (Hi & Ht & Hm & Hr & Hd & Hc).
    destruct (grow_cond (pool w3)) eqn:Hg.
    + destruct (submitTask_grow w3) as [w4 |] eqn:Hgrow; [| by intros ?].
      intros H. apply Result_ctor_frame in H as (-> & _ & _ & ->).
      apply submitTask_grow_spec in Hgrow as (th & Hgrow). destruct_and!.
      apply grow_cond_spec in Hg as (Hg1 & _ & Hg3).
      repeat (split; [congruence |]). right.
      repeat split; congruence.
    + intros H. apply Result_ctor_frame in H as (-> & _ & _ & ->).
      repeat (split; [congruence |]). left. congruence.
  - intros H. apply Result_ctor_frame in H as (-> & _ & _ & ->).
    repeat (split; [done |]). by left.
Qed.

Lemma threadFunc_timeout_counters i tid lt now w :
  let w' := threadFunc_timeout i tid lt now w in
  curThreadSize_ (pool w') = curThreadSize_ (pool w)
  \/ (initThreadSize_ (pool w) < curThreadSize_ (pool w)
      /\ curThreadSize_ (pool w') = wrap_int (curThreadSize_ (pool w) - 1)).
Proof.
  intros w'. subst w'. unfold threadFunc_timeout.
  destruct (reclaim_cond now lt (pool w)) eqn:Hr.
  - right. unfold reclaim_cond in Hr. apply andb_true_iff in Hr as [_ Hr].
    apply Z.ltb_lt in Hr. done.
  - left. pose proof (threadFunc_check_config i tid lt w) as H.
    simpl in H. by destruct_and!.
Qed.

Lemma worker_step_counters e w w' :
  worker_step e w = Some w' ->
  curThreadSize_ (pool w') = curThreadSize_ (pool w)
  \/ (initThreadSize_ (pool w) < curThreadSize_ (pool w)
      /\ curThreadSize_ (pool w') = wrap_int (curThreadSize_ (pool w) - 1)).
Proof.
  destruct e; simpl; try discriminate;
    destruct (os_threads w !! i) as [th |] eqn:Hth; simpl; try discriminate;
    destruct (pc th) eqn:Hpc; try discriminate.
  - intros [= <-]. by left.
  - intros [= <-]. left.
    pose proof (threadFunc_check_config i (threadid th) lastTime w) as H.
    simpl in H. by destruct_and!.
  - destruct (spurious || notified); [| discriminate]. intros [= <-]. left.
    pose proof (threadFunc_check_config i (threadid th) lastTime w) as H.
    simpl in H. by destruct_and!.
  - destruct (spurious || notified); [| discriminate]. intros [= <-]. left.
    pose proof (threadFunc_check_config i (threadid th) lastTime w) as H.
    simpl in H. by destruct_and!.
  - intros [= <-]. apply threadFunc_timeout_counters.
  - unfold threadFunc_exec.
    destruct task as [t |]; simpl.
    + destruct (Task_exec t w) as [w1 |] eqn:Hx; simpl; [| discriminate].
      intros [= <-]. apply Task_exec_frame in Hx as (Hp & _).
      simpl. rewrite Hp. by left.
    + intros [= <-]. by left.
  - intros [= <-]. by left.
Qed.

Lemma dtor_step_frame e w w' :
  dtor_step e w = Some w' ->
  pool w' = pool w /\ generateId_ w' = generateId_ w
  /\ tasks w' = tasks w /\ results w' = results w
  /\ dtor w <> Alive /\ dtor w' <> Alive.
Proof.
  unfold dtor_step, dtor_lock, dtor_check.
  destruct e; try (by destruct (dtor w)); destruct (dtor w); try discriminate.
  - intros [= <-]. by destruct (_ =? _)%nat.
  - destruct (spurious || notified); [| discriminate].
    intros [= <-]. by destruct (_ =? _)%nat.
Qed.

Lemma step_started e w w' :
  step e w = Some w' ->
  not_start e = true ->
  started_inv w ->
  started_inv w'
  /\ initThreadSize_ (pool w') = initThreadSize_ (pool w)
  /\ threadSizeThreshHold_ (pool w') = threadSizeThreshHold_ (pool w)
  /\ curThreadSize_ (pool w')
     <= curThreadSize_ (pool w) + Z.of_nat (length (enqueued_by e w)).
Proof.
  unfold started_inv. intros H Hns (Hi & Ht & Hc & Hb & Hrun).
  apply step_cases in H
    as [(_ & H) | [(_ & _ & H) | [(Hd & _ & H) | (_ & _ & _ & H)]]].
  - apply result_step_frame in H as (-> & _ & _ & _ & -> & _ & -> & _).
    simpl. close_inv.
  - pose proof (worker_step_counters _ _ _ H) as Hcur.
    pose proof (worker_step_fifo _ _ _ H) as [_ ->].
    apply worker_step_config in H
      as (Hi' & Ht' & _ & _ & Hr' & _ & _ & Hd).
    rewrite Hi', Ht', Hr'. simpl.
    assert (Hdt : dtor w' = Alive -> dtor w = Alive).
    { intros Hx. destruct Hd as [<- | (b & _ & Hd)]; congruence. }
    destruct Hcur as [-> | [Hlt ->]].
    + close_inv.
    + assert (is_int (curThreadSize_ (pool w) - 1))
        by (unfold is_int in *; lia).
      rewrite wrap_int_id by done.
      close_inv.
  - (* calls of the interface: the pool is running *)
    specialize (Hrun Hd).
    destruct e; simpl in H; try discriminate.
    + injection H as <-. rewrite upd_pool_id
        by (unfold setMode, checkRunningState; by rewrite Hrun).
      close_inv.
    + destruct (is_intb threshhold); [| discriminate]. injection H as <-.
      rewrite upd_pool_id
        by (unfold setTaskQueMaxThreshHold, checkRunningState; by rewrite Hrun).
      close_inv.
    + destruct (is_intb threshhold); [| discriminate]. injection H as <-.
      rewrite upd_pool_id
        by (unfold setThreadSizeThreshHold, checkRunningState; by rewrite Hrun).
      close_inv.
    + unfold submitTask in H. rewrite wait_for_nil in H.
      apply submitTask_locked_counters in H
        as (Hi' & Ht' & _ & Hr' & Hd' & Hcur).
      rewrite Hi', Ht', Hr', Hd'. simpl.
      destruct Hcur as [-> | (Hok & _ & Hlt & ->)].
      * close_inv.
      * rewrite Hok. simpl.
        assert (is_int (curThreadSize_ (pool w) + 1))
          by (unfold is_int in *; lia).
        rewrite wrap_int_id by done.
        close_inv.
    + injection H as <-. simpl. close_inv.
  - pose proof (dtor_step_queue _ _ _ H) as (_ & _ & _ & ->).
    apply dtor_step_frame in H as (-> & _ & _ & _ & _ & Hna).
    simpl. close_inv.
Qed.

Lemma run_started evs w w' :
  started_inv w ->
  forallb not_start evs = true ->
  run evs w = Some w' ->
  started_inv w'
  /\ initThreadSize_ (pool w') = initThreadSize_ (pool w)
  /\ threadSizeThreshHold_ (pool w') = threadSizeThreshHold_ (pool w)
  /\ curThreadSize_ (pool w')
     <= curThreadSize_ (pool w) + Z.of_nat (length (enqueued evs w)).
Proof.
  revert w. induction evs as [| e evs IH]; intros w Hinv Hev; simpl.
  - intros [= ->]. close_inv.
  - simpl in Hev. apply andb_true_iff in Hev as [He Hev].
    destruct (step e w) as [w1 |] eqn:Hs; simpl; [| discriminate].
    intros Hr.
    destruct (step_started _ _ _ Hs He Hinv) as (Hinv1 & Hi1 & Ht1 & Hc1).
    destruct (IH w1 Hinv1 Hev Hr) as (Hinv' & Hi' & Ht' & Hc').
    rewrite length_app. close_inv.
Qed.

Lemma start_started n w w' :
  is_int (threadSizeThreshHold_ (pool w)) ->
  step (CallStart n) w = Some w' ->
  started_inv w'
  /\ initThreadSize_ (pool w') = n
  /\ curThreadSize_ (pool w') = n
  /\ threadSizeThreshHold_ (pool w') = threadSizeThreshHold_ (pool w).
Proof.
  unfold started_inv. intros Ht H.
  apply step_cases in H
    as [(? & _) | [(_ & ? & _) | [(Hd & _ & H) | (_ & _ & _ & H)]]];
    try discriminate.
  simpl in H. destruct (is_intb n) eqn:Hn; [| discriminate].
  apply is_intb_spec in Hn.
  apply start_frame in H as (_ & _ & Hi & Hc & Hth & _ & _ & Hr & _).
  rewrite Hi, Hc, Hth, Hr. close_inv.
Qed.

Lemma step_threshold_is_int e w w' :
  step e w = Some w' ->
  is_int (threadSizeThreshHold_ (pool w)) ->
  is_int (threadSizeThreshHold_ (pool w')).
Proof.
  intros H Hi.
  apply step_cases in H
    as [(_ & H) | [(_ & _ & H) | [(_ & _ & H) | (_ & _ & _ & H)]]].
  - by apply result_step_frame in H as (-> & _).
  - apply worker_step_config in H as (_ & -> & _). done.
  - destruct e; simpl in H; try discriminate.
    + injection H as <-. simpl.
      by destruct (setMode_frame mode (pool w)) as (_ & _ & -> & _).
    + destruct (is_intb threshhold); [| discriminate]. injection H as <-. simpl.
      by destruct (setTaskQueMaxThreshHold_frame threshhold (pool w))
        as (_ & _ & -> & _).
    + destruct (is_intb threshhold) eqn:Hn; [| discriminate].
      injection H as <-. simpl. apply is_intb_spec in Hn.
      unfold setThreadSizeThreshHold.
      destruct (checkRunningState (pool w)); [done |].
      by destruct (PoolMode_eqb _ _).
    + destruct (is_intb initThreadSize); [| discriminate].
      apply start_frame in H. destruct_and!. congruence.
    + unfold submitTask in H. rewrite wait_for_nil in H.
      apply submitTask_locked_counters in H. destruct_and!. congruence.
    + by injection H as <-.
  - by apply dtor_step_frame in H as (-> & _).
Qed.

(** The threshold of every state a program reaches is an [int]. *)
Lemma run_threshold_is_int evs tks w :
  run evs (World_init tks) = Some w ->
  is_int (threadSizeThreshHold_ (pool w)).
Proof.
  assert (H : forall w0, is_int (threadSizeThreshHold_ (pool w0)) ->
                run evs w0 = Some w -> is_int (threadSizeThreshHold_ (pool w))).
  { induction evs as [| e evs IH]; intros w0 Hinv; simpl.
    - by intros [= <-].
    - destruct (step e w0) as [w1 |] eqn:Hs; simpl; [| discriminate].
      eauto using step_threshold_is_int. }
  apply H. unfold is_int, INT32_MIN, INT32_MAX. simpl.
  unfold THREAD_MAX_THRESHHOLD. lia.
Qed.

(** C4, as amended. After [start(n)], along every run without a second
    [start], the configured sizes stay as they are and the current thread
    count is at most the larger of [n] and [threadSizeThreshHold_], and at
    most [n] plus the number of tasks accepted into the queue since
    [start].  (The threshold is an [int] in every state a program reaches,
    [run_threshold_is_int].) *)
Theorem thread_count_bound (w0 w1 w' : World) (n : Z) (evs : list Event) :
  is_int (threadSizeThreshHold_ (pool w0)) ->
  step (CallStart n) w0 = Some w1 ->
  forallb not_start evs = true ->
  run evs w1 = Some w' ->
  initThreadSize_ (pool w') = n
  /\ threadSizeThreshHold_ (pool w') = threadSizeThreshHold_ (pool w0)
  /\ curThreadSize_ (pool w') <= Z.max n (threadSizeThreshHold_ (pool w0))
  /\ curThreadSize_ (pool w') <= n + Z.of_nat (length (enqueued evs w1)).
Proof.
  intros Ht Hstart Hev Hrun.
  destruct (start_started _ _ _ Ht Hstart) as (Hinv & Hi & Hc & Hth).
  destruct (run_started _ _ _ Hinv Hev Hrun) as (Hinv' & Hi' & Hth' & Hc').
  destruct Hinv' as (_ & _ & _ & Hb & _).
  rewrite Hi', Hth', Hi, Hth in Hb. rewrite Hc in Hc'.
  close_inv.
Qed.

(** C4 as stated fails: in Cached mode with [threadSizeThreshHold_] set to 2,
    [start(4)] leaves the current thread count at 4, above the threshold
    and above the number of tasks submitted, pending or in flight (none). *)
Lemma thread_count_exceeds_threshold_after_start :
  exists w,
    run [CallSetMode MODE_CACHED; CallSetThreadSizeThreshHold 2; CallStart 4]
        (World_init ∅) = Some w
    /\ enqueued [CallSetMode MODE_CACHED; CallSetThreadSizeThreshHold 2; CallStart 4]
                (World_init ∅) = []
    /\ poolMode_ (pool w) = MODE_CACHED
    /\ isPoolRunning_ (pool w) = true
    /\ curThreadSize_ (pool w) = 4
    /\ threadSizeThreshHold_ (pool w) = 2
    /\ taskQue_ (pool w) = []
    /\ in_flight w = 0%nat
    /\ ~ (curThreadSize_ (pool w) <= threadSizeThreshHold_ (pool w))
    /\ ~ (curThreadSize_ (pool w)
           <= Z.of_nat (length (taskQue_ (pool w)) + in_flight w)).
Proof.
  eexists. split; [vm_compute; reflexivity |].
  repeat split; try (vm_compute; congruence).
Qed.

(** ** How a step changes the threads *)

Lemma notify_lookup (l : list OsThread) i th :
  l !! i = Some th ->
  map (fun th => mkOs (threadid th) (notify_pc (pc th))) l !! i
  = Some (mkOs (threadid th) (notify_pc (pc th))).
Proof.
  revert i. induction l as [| x l IH]; intros [| i]; simpl; try done.
  - by intros [= ->].
  - apply IH.
Qed.

Lemma start_create_threads n w w' :
  start_create n w = Some w' -> os_threads w' = os_threads w.
Proof. intros H. apply start_create_frame in H. by destruct_and!. Qed.

Lemma start_run_threads n i w w' :
  start_run n i w = Some w' ->
  exists new, os_threads w' = os_threads w ++ new
              /\ Forall (fun th => pc th = Entry) new.
Proof.
  revert i w. induction n as [| n IH]; intros i w; simpl.
  - intros [= <-]. exists []. by rewrite app_nil_r.
  - destruct (threads_ (pool w) !! i) as [th |]; simpl; [| discriminate].
    intros H. apply IH in H as (new & -> & Hnew). simpl.
    exists (mkOs (Thread.threadId_ th) Entry :: new).
    rewrite <- app_assoc. split; [done |]. by constructor.
Qed.

Lemma start_threads n w w' :
  start n w = Some w' ->
  exists new, os_threads w' = os_threads w ++ new
              /\ Forall (fun th => pc th = Entry) new.
Proof.
  unfold start. intros H.
  destruct (start_create _ _) as [w4 |] eqn:Hc; simpl in H; [| discriminate].
  apply start_create_threads in Hc. apply start_run_threads in H.
  simpl in Hc. by rewrite Hc in H.
Qed.

Lemma submitTask_locked_threads ok sp r w w' :
  submitTask_locked ok sp r w = Some w' ->
  exists new,
    os_threads w'
    = (if ok then map (fun th => mkOs (threadid th) (notify_pc (pc th))) (os_threads w)
       else os_threads w) ++ new
    /\ Forall (fun th => pc th = Entry) new.
Proof.
  unfold submitTask_locked. destruct ok; cbn [negb]; cbv zeta.
  - set (w3 := notEmpty_notify_all _).
    assert (H3 : os_threads w3
                 = map (fun th => mkOs (threadid th) (notify_pc (pc th))) (os_threads w))
      by done.
    clearbody w3.
    destruct (grow_cond (pool w3)).
    + destruct (submitTask_grow w3) as [w4 |] eqn:Hg; [| by intros ?].
      intros H. apply Result_ctor_frame in H as (_ & -> & _).
      apply submitTask_grow_spec in Hg as (th & _ & _ & -> & _).
      rewrite H3. eexists. split; [done |]. by repeat constructor.
    + intros H. apply Result_ctor_frame in H as (_ & -> & _).
      rewrite H3. exists []. by rewrite app_nil_r.
  - intros H. apply Result_ctor_frame in H as (_ & -> & _).
    exists []. by rewrite app_nil_r.
Qed.

Lemma threadFunc_check_threads i tid lt w :
  exists c,
    os_threads (threadFunc_check i tid lt w)
    = alter (fun th => mkOs (threadid th) c) i (os_threads w)
    /\ (forall lt' b, c = InWaitFor lt' b ->
          poolMode_ (pool w) = MODE_CACHED /\ isPoolRunning_ (pool w) = true).
Proof.
  unfold threadFunc_check.
  destruct (taskQue_ (pool w)); [| by eexists].
  destruct (isPoolRunning_ (pool w)); simpl.
  - destruct (PoolMode_eqb _ _) eqn:Hm.
    + apply PoolMode_eqb_eq in Hm. by eexists.
    + by eexists.
  - unfold exitCond_notify_all. simpl. destruct (dtor w); by eexists.
Qed.

Lemma worker_step_threads e w w' :
  worker_step e w = Some w' ->
  exists i c,
    event_thread e = Some i
    /\ os_threads w' = alter (fun th => mkOs (threadid th) c) i (os_threads w)
    /\ (forall lt' b, c = InWaitFor lt' b ->
          poolMode_ (pool w) = MODE_CACHED /\ isPoolRunning_ (pool w) = true).
Proof.
  destruct e; simpl; try discriminate;
    destruct (os_threads w !! i) as [th |] eqn:Hth; simpl; try discriminate;
    destruct (pc th) eqn:Hpc; try discriminate.
  - intros [= <-]. by (exists i; eexists).
  - intros [= <-].
    destruct (threadFunc_check_threads i (threadid th) lastTime w) as (c & -> & Hc).
    by (exists i; eexists).
  - destruct (spurious || notified); [| discriminate]. intros [= <-].
    destruct (threadFunc_check_threads i (threadid th) lastTime w) as (c & -> & Hc).
    by (exists i; eexists).
  - destruct (spurious || notified); [| discriminate]. intros [= <-].
    destruct (threadFunc_check_threads i (threadid th) lastTime w) as (c & -> & Hc).
    by (exists i; eexists).
  - intros [= <-]. unfold threadFunc_timeout.
    destruct (reclaim_cond now lastTime (pool w)); [by (exists i; eexists) |].
    destruct (threadFunc_check_threads i (threadid th) lastTime w) as (c & -> & Hc).
    by (exists i; eexists).
  - unfold threadFunc_exec.
    destruct task as [t |]; simpl.
    + destruct (Task_exec t w) as [w1 |] eqn:Hx; simpl; [| discriminate].
      intros [= <-]. apply Task_exec_frame in Hx as (_ & Hos & _).
      simpl. rewrite Hos. by (exists i; eexists).
    + intros [= <-]. by (exists i; eexists).
  - intros [= <-]. by (exists i; eexists).
Qed.

Lemma client_step_threads e w w' :
  client_step e w = Some w' ->
  event_thread e = None
  /\ exists new,
       (os_threads w' = os_threads w ++ new
        \/ os_threads w'
           = map (fun th => mkOs (threadid th) (notify_pc (pc th))) (os_threads w)
             ++ new)
       /\ Forall (fun th => pc th = Entry) new.
Proof.
  destruct e; simpl; try discriminate; intros H; (split; [done |]); revert H.
  - intros [= <-]. exists []. rewrite app_nil_r. by split; [left |].
  - destruct (is_intb threshhold); [| discriminate]. intros [= <-].
    exists []. rewrite app_nil_r. by split; [left |].
  - destruct (is_intb threshhold); [| discriminate]. intros [= <-].
    exists []. rewrite app_nil_r. by split; [left |].
  - destruct (is_intb initThreadSize); [| discriminate]. intros H.
    apply start_threads in H as (new & -> & Hnew). exists new. by split; [left |].
  - unfold submitTask. rewrite wait_for_nil. intros H.
    apply submitTask_locked_threads in H as (new & -> & Hnew). exists new.
    split; [| done]. destruct (notFull_pred w); auto.
  - intros [= <-]. exists []. rewrite app_nil_r. by split; [left |].
Qed.

Lemma dtor_step_threads e w w' :
  dtor_step e w = Some w' ->
  event_thread e = None
  /\ (os_threads w' = os_threads w
      \/ os_threads w'
         = map (fun th => mkOs (threadid th) (notify_pc (pc th))) (os_threads w)).
Proof.
  unfold dtor_step, dtor_lock, dtor_check.
  destruct e; try (by destruct (dtor w)); destruct (dtor w); try discriminate.
  - intros [= <-]. split; [done |]. right. by destruct (_ =? _)%nat.
  - destruct (spurious || notified); [| discriminate].
    intros [= <-]. split; [done |]. left. by destruct (_ =? _)%nat.
Qed.

(** A step that is not a step of thread [i] leaves thread [i] where it is,
    up to a notification. *)
Lemma step_other_thread e w w' i th :
  step e w = Some w' ->
  event_thread e <> Some i ->
  os_threads w !! i = Some th ->
  exists c, os_threads w' !! i = Some (mkOs (threadid th) c)
            /\ (c = pc th \/ c = notify_pc (pc th)).
Proof.
  intros H Hne Hth.
  assert (Heta : th = mkOs (threadid th) (pc th)) by by destruct th.
  apply step_cases in H
    as [(_ & H) | [(_ & _ & H) | [(_ & _ & H) | (_ & _ & _ & H)]]].
  - apply result_step_frame in H as (_ & -> & _).
    exists (pc th). split; [congruence | by left].
  - apply worker_step_threads in H as (j & c & Hj & -> & _).
    rewrite list_lookup_alter_ne by congruence.
    exists (pc th). split; [congruence | by left].
  - apply client_step_threads in H as (_ & new & [-> | ->] & _).
    + rewrite lookup_app_l by (by eapply lookup_lt_Some).
      exists (pc th). split; [congruence | by left].
    + rewrite lookup_app_l
        by (rewrite length_map; by eapply lookup_lt_Some).
      rewrite (notify_lookup _ _ _ Hth). eexists. split; [done | by right].
  - apply dtor_step_threads in H as (_ & [-> | ->]).
    + exists (pc th). split; [congruence | by left].
    + rewrite (notify_lookup _ _ _ Hth). eexists. split; [done | by right].
Qed.

(** ** Timed waits occur in Cached mode only *)

Lemma timed_wait_inv_init tks : timed_wait_inv (World_init tks).
Proof. intros i th lt b H. discriminate H. Qed.

Lemma timed_wait_origin (l new : list OsThread) i th' lt b :
  Forall (fun th => pc th = Entry) new ->
  (l ++ new) !! i = Some th'
  \/ (map (fun th => mkOs (threadid th) (notify_pc (pc th))) l ++ new) !! i
     = Some th' ->
  pc th' = InWaitFor lt b ->
  exists th b', l !! i = Some th /\ pc th = InWaitFor lt b'.
Proof.
  intros Hnew Hl Hpc.
  assert (Hn : forall j, new !! j = Some th' -> False).
  { intros j Hj. eapply Forall_lookup_1 in Hnew; [| exact Hj]. congruence. }
  destruct Hl as [Hl | Hl];
    apply lookup_app_Some in Hl as [Hl | [_ Hl]]; try (by destruct (Hn _ Hl)).
  - eauto.
  - destruct (l !! i) as [th |] eqn:Hi.
    + rewrite (notify_lookup _ _ _ Hi) in Hl. injection Hl as <-.
      simpl in Hpc. exists th. destruct (pc th); try discriminate.
      injection Hpc as <- _. eauto.
    + apply lookup_ge_None in Hi.
      assert (Hlen : (length (map (fun th => mkOs (threadid th) (notify_pc (pc th))) l)
                      <= i)%nat) by (by rewrite length_map).
      apply lookup_ge_None in Hlen. congruence.
Qed.

Lemma client_step_mode e w w' :
  client_step e w = Some w' ->
  isPoolRunning_ (pool w) = true ->
  poolMode_ (pool w') = poolMode_ (pool w)
  /\ (isPoolRunning_ (pool w') = true \/ dtor w' <> Alive).
Proof.
  intros H Hr. destruct e; simpl in H; try discriminate.
  - injection H as <-. rewrite upd_pool_id
      by (unfold setMode, checkRunningState; by rewrite Hr). auto.
  - destruct (is_intb threshhold); [| discriminate]. injection H as <-.
    rewrite upd_pool_id
      by (unfold setTaskQueMaxThreshHold, checkRunningState; by rewrite Hr).
    auto.
  - destruct (is_intb threshhold); [| discriminate]. injection H as <-.
    rewrite upd_pool_id
      by (unfold setThreadSizeThreshHold, checkRunningState; by rewrite Hr).
    auto.
  - destruct (is_intb initThreadSize); [| discriminate].
    apply start_frame in H. destruct_and!. auto.
  - unfold submitTask in H. rewrite wait_for_nil in H.
    apply submitTask_locked_counters in H. destruct_and!.
    split; [done |]. left. congruence.
  - injection H as <-. simpl. split; [done |]. by right.
Qed.

Lemma step_timed_wait e w w' :
  step e w = Some w' -> timed_wait_inv w -> timed_wait_inv w'.
Proof.
  intros H Hinv.
  apply step_cases in H
    as [(_ & H) | [(_ & _ & H) | [(Hdt & _ & H) | (_ & _ & _ & H)]]].
  - apply result_step_frame in H as (Hp & Hos & _ & _ & Hd & _).
    intros i th' lt b Hth' Hpc. rewrite Hp, Hd. rewrite Hos in Hth'. eauto.
  - intros i th' lt b Hth' Hpc.
    pose proof (worker_step_threads _ _ _ H) as (j & c & _ & Hos & Hc).
    apply worker_step_config in H
      as (_ & _ & _ & Hm & Hr & _ & _ & Hd).
    rewrite Hm, Hr. rewrite Hos in Hth'.
    destruct (decide (j = i)) as [-> | Hne].
    + rewrite list_lookup_alter_eq in Hth'.
      destruct (os_threads w !! i) as [th |]; [| done].
      injection Hth' as <-. simpl in Hpc.
      destruct (Hc _ _ Hpc) as [? ?]. auto.
    + rewrite list_lookup_alter_ne in Hth' by done.
      destruct (Hinv i th' lt b Hth' Hpc) as [? [? | Hna]]; [auto |].
      split; [done |]. right.
      destruct Hd as [-> | (b' & _ & ->)]; done.
  - intros i th' lt b Hth' Hpc.
    pose proof (client_step_threads _ _ _ H) as (_ & new & Hos & Hnew).
    destruct (timed_wait_origin (os_threads w) new i th' lt b)
      as (th & b' & Hth & Hpc');
      [done | destruct Hos as [<- | <-]; auto | done |].
    destruct (Hinv i th lt b' Hth Hpc') as [Hm [Hr | Hna]]; [| congruence].
    destruct (client_step_mode _ _ _ H Hr) as [-> ?]. auto.
  - intros i th' lt b Hth' Hpc.
    pose proof (dtor_step_threads _ _ _ H) as [_ Hos].
    apply dtor_step_frame in H as (-> & _ & _ & _ & _ & Hna).
    destruct (timed_wait_origin (os_threads w) [] i th' lt b)
      as (th & b' & Hth & Hpc');
      [done | rewrite !app_nil_r; destruct Hos as [<- | <-]; auto | done |].
    destruct (Hinv i th lt b' Hth Hpc') as [? _]. auto.
Qed.

Lemma run_timed_wait evs w w' :
  run evs w = Some w' -> timed_wait_inv w -> timed_wait_inv w'.
Proof.
  revert w. induction evs as [| e evs IH]; intros w; simpl.
  - by intros [= ->].
  - destruct (step e w) as [w1 |] eqn:Hs; simpl; [| discriminate].
    eauto using step_timed_wait.
Qed.

(** In Fixed mode every thread that has not returned is outside the timed
    wait. *)
Lemma fixed_live_untimed w i th :
  timed_wait_inv w -> poolMode_ (pool w) = MODE_FIXED ->
  os_threads w !! i = Some th -> live th = true ->
  untimed_and_live (pc th) = true.
Proof.
  intros Hinv Hm Hth Hl. unfold live in Hl.
  destruct (pc th) eqn:Hpc; try done.
  destruct (Hinv i th _ _ Hth Hpc) as [? _]. congruence.
Qed.


(** ** C7: idle threads *)

Lemma reclaim_cond_spec now lt p :
  reclaim_cond now lt p = true
  <-> THREAD_MAX_IDLE_TIME * ticks_per_second <= now - lt
      /\ initThreadSize_ p < curThreadSize_ p.
Proof.
  unfold reclaim_cond.
  rewrite andb_true_iff, Z.leb_le, Z.ltb_lt, duration_seconds_ge. tauto.
Qed.

Lemma untimed_and_live_notify c :
  untimed_and_live (notify_pc c) = untimed_and_live c.
Proof. by destruct c. Qed.

(** In a running pool in Fixed mode the loop head leads to the untimed wait
    or to a task. *)
Lemma threadFunc_check_fixed i tid lt w th :
  poolMode_ (pool w) = MODE_FIXED ->
  isPoolRunning_ (pool w) = true ->
  os_threads w !! i = Some th ->
  os_threads (threadFunc_check i tid lt w) !! i
  = Some (mkOs (threadid th)
            match taskQue_ (pool w) with
            | [] => InWait lt false
            | task :: _ => Holding task lt
            end)
  /\ threads_ (pool (threadFunc_check i tid lt w)) = threads_ (pool w).
Proof.
  intros Hm Hr Hth. unfold threadFunc_check.
  destruct (taskQue_ (pool w)); rewrite ?Hr, ?Hm; simpl;
    by rewrite list_lookup_alter_eq, Hth.
Qed.

Lemma worker_step_fixed e w w' i th :
  worker_step e w = Some w' ->
  event_thread e = Some i ->
  poolMode_ (pool w) = MODE_FIXED ->
  isPoolRunning_ (pool w) = true ->
  os_threads w !! i = Some th ->
  untimed_and_live (pc th) = true ->
  exists c, os_threads w' !! i = Some (mkOs (threadid th) c)
            /\ untimed_and_live c = true.
Proof.
  intros H He Hm Hr Hth Hok.
  destruct e; simpl in He; try discriminate; injection He as ->;
    simpl in H; rewrite Hth in H; simpl in H;
    destruct (pc th) eqn:Hpc; try discriminate.
  - injection H as <-. eexists. unfold threadFunc_enter.
    by rewrite (set_pc_lookup _ _ _ _ Hth).
  - injection H as <-.
    destruct (threadFunc_check_fixed i (threadid th) lastTime w th Hm Hr Hth)
      as [-> _].
    eexists. split; [done |]. by destruct (taskQue_ (pool w)).
  - destruct (spurious || notified); [| discriminate]. injection H as <-.
    destruct (threadFunc_check_fixed i (threadid th) lastTime w th Hm Hr Hth)
      as [-> _].
    eexists. split; [done |]. by destruct (taskQue_ (pool w)).
  - unfold threadFunc_exec in H.
    destruct task as [t |]; simpl in H.
    + destruct (Task_exec t w) as [w1 |] eqn:Hx; simpl in H; [| discriminate].
      injection H as <-. apply Task_exec_frame in Hx as (_ & Hos & _).
      rewrite <- Hos in Hth.
      eexists. by rewrite (set_pc_lookup _ _ _ _ Hth).
    + injection H as <-. eexists. by rewrite (set_pc_lookup _ _ _ _ Hth).
  - injection H as <-. eexists.
    unfold threadFunc_idle. by erewrite set_pc_lookup.
Qed.

Lemma step_fixed e w w' i th :
  step e w = Some w' ->
  not_destroy e = true ->
  poolMode_ (pool w) = MODE_FIXED ->
  isPoolRunning_ (pool w) = true ->
  dtor w = Alive ->
  os_threads w !! i = Some th ->
  untimed_and_live (pc th) = true ->
  (poolMode_ (pool w') = MODE_FIXED
   /\ isPoolRunning_ (pool w') = true
   /\ dtor w' = Alive)
  /\ exists c, os_threads w' !! i = Some (mkOs (threadid th) c)
               /\ untimed_and_live c = true.
Proof.
  intros H Hnd Hm Hr Hd Hth Hok. split.
  - apply step_cases in H
      as [(_ & H) | [(_ & _ & H) | [(_ & _ & H) | (Hna & _)]]];
      [| | | done].
    + by apply result_step_frame in H as (-> & _ & _ & _ & -> & _).
    + apply worker_step_config in H
        as (_ & _ & _ & Hm' & Hr' & _ & _ & Hd').
      rewrite Hm', Hr'. repeat (split; [done |]).
      destruct Hd' as [-> | (b & Hb & _)]; congruence.
    + destruct e; simpl in H; try discriminate.
      * injection H as <-. rewrite upd_pool_id
          by (unfold setMode, checkRunningState; by rewrite Hr). done.
      * destruct (is_intb threshhold); [| discriminate]. injection H as <-.
        rewrite upd_pool_id
          by (unfold setTaskQueMaxThreshHold, checkRunningState; by rewrite Hr).
        done.
      * destruct (is_intb threshhold); [| discriminate]. injection H as <-.
        rewrite upd_pool_id
          by (unfold setThreadSizeThreshHold, checkRunningState; by rewrite Hr).
        done.
      * destruct (is_intb initThreadSize); [| discriminate].
        apply start_frame in H. destruct_and!. close_inv.
      * unfold submitTask in H. rewrite wait_for_nil in H.
        apply submitTask_locked_counters in H. destruct_and!. close_inv.
  - destruct (decide (event_thread e = Some i)) as [He | He].
    + apply step_cases in H
        as [(_ & H) | [(_ & _ & H) | [(_ & Hwe & _) | (_ & _ & Hwe & _)]]].
      * apply result_step_frame in H. destruct_and!. congruence.
      * by eapply worker_step_fixed.
      * by destruct e.
      * by destruct e.
    + destruct (step_other_thread _ _ _ _ _ H He Hth) as (c & Hc & Hcc).
      exists c. split; [done |].
      destruct Hcc as [-> | ->]; by rewrite ?untimed_and_live_notify.
Qed.

Lemma run_fixed evs w w' i th :
  run evs w = Some w' ->
  forallb not_destroy evs = true ->
  poolMode_ (pool w) = MODE_FIXED ->
  isPoolRunning_ (pool w) = true ->
  dtor w = Alive ->
  os_threads w !! i = Some th ->
  untimed_and_live (pc th) = true ->
  (poolMode_ (pool w') = MODE_FIXED
   /\ isPoolRunning_ (pool w') = true
   /\ dtor w' = Alive)
  /\ exists c, os_threads w' !! i = Some (mkOs (threadid th) c)
               /\ untimed_and_live c = true.
Proof.
  revert w th. induction evs as [| e evs IH]; intros w th; simpl.
  - intros [= ->] _ Hm Hr Hd Hth Hok. split; [done |].
    exists (pc th). by destruct th.
  - destruct (step e w) as [w1 |] eqn:Hs; simpl; [| discriminate].
    intros Hrun Hev Hm Hr Hd Hth Hok.
    apply andb_true_iff in Hev as [He Hev].
    destruct (step_fixed _ _ _ _ _ Hs He Hm Hr Hd Hth Hok)
      as ((Hm1 & Hr1 & Hd1) & c & Hc & Hokc).
    apply (IH w1 (mkOs (threadid th) c)); done.
Qed.

Lemma lastTime_of_notify c : lastTime_of (notify_pc c) = lastTime_of c.
Proof. by destruct c. Qed.

(** The loop head keeps [lastTime]. *)
Lemma threadFunc_check_lastTime i tid lt w th :
  os_threads w !! i = Some th ->
  exists c,
    os_threads (threadFunc_check i tid lt w) !! i = Some (mkOs (threadid th) c)
    /\ (lastTime_of c = Some lt \/ c = Exited).
Proof.
  intros Hth. unfold threadFunc_check.
  destruct (taskQue_ (pool w)) as [| task rest].
  - destruct (isPoolRunning_ (pool w)); cbn [negb].
    + destruct (PoolMode_eqb _ _); eexists;
        (split; [by apply set_pc_lookup | by left]).
    + eexists. split; [| by right].
      apply set_pc_lookup.
      destruct (exitCond_notify_all_frame
                  (upd_pool (fun p => set_threads_ (delete tid (threads_ p)) p) w))
        as (_ & -> & _).
      done.
  - eexists. split; [by apply set_pc_lookup | by left].
Qed.

(** Only [lastTime = now] after a task changes the [lastTime] of a thread
    that has read the clock on entry. *)
Lemma step_lastTime e w w' i th t0 :
  step e w = Some w' ->
  not_completion_of i e = true ->
  os_threads w !! i = Some th ->
  lastTime_of (pc th) = Some t0 \/ pc th = Exited ->
  exists c,
    os_threads w' !! i = Some (mkOs (threadid th) c)
    /\ (lastTime_of c = Some t0 \/ c = Exited).
Proof.
  intros H Hnc Hth Hlt.
  destruct (decide (event_thread e = Some i)) as [He | He].
  - apply step_cases in H
      as [(_ & H) | [(_ & _ & H) | [(_ & Hwe & _) | (_ & _ & Hwe & _)]]].
    + apply result_step_frame in H. destruct_and!. congruence.
    + destruct e; simpl in He; try discriminate; injection He as ->;
        simpl in H; rewrite Hth in H; simpl in H;
        destruct (pc th) eqn:Hpc; try discriminate.
      * by destruct Hlt.
      * injection H as <-. destruct Hlt as [[= ->] | ?]; [| done].
        apply (threadFunc_check_lastTime _ _ _ _ _ Hth).
      * destruct (spurious || notified); [| discriminate]. injection H as <-.
        destruct Hlt as [[= ->] | ?]; [| done].
        apply (threadFunc_check_lastTime _ _ _ _ _ Hth).
      * destruct (spurious || notified); [| discriminate]. injection H as <-.
        destruct Hlt as [[= ->] | ?]; [| done].
        apply (threadFunc_check_lastTime _ _ _ _ _ Hth).
      * injection H as <-. destruct Hlt as [[= ->] | ?]; [| done].
        unfold threadFunc_timeout.
        destruct (reclaim_cond now t0 (pool w)).
        -- eexists. split; [by apply set_pc_lookup | by right].
        -- apply (threadFunc_check_lastTime _ _ _ _ _ Hth).
      * destruct Hlt as [[= ->] | ?]; [| done].
        unfold threadFunc_exec in H.
        destruct task as [t |]; simpl in H.
        -- destruct (Task_exec t w) as [w1 |] eqn:Hx; simpl in H; [| discriminate].
           injection H as <-. apply Task_exec_frame in Hx as (_ & Hos & _).
           rewrite <- Hos in Hth.
           eexists. split; [by apply set_pc_lookup | by left].
        -- injection H as <-.
           eexists. split; [by apply set_pc_lookup | by left].
      * simpl in Hnc. by rewrite Nat.eqb_refl in Hnc.
    + by destruct e.
    + by destruct e.
  - destruct (step_other_thread _ _ _ _ _ H He Hth) as (c & Hc & Hcc).
    exists c. split; [done |].
    destruct Hcc as [-> | ->]; [done |].
    rewrite lastTime_of_notify.
    destruct Hlt as [? | Hx]; [by left | right; by rewrite Hx].
Qed.

Lemma run_lastTime evs w w' i th t0 :
  run evs w = Some w' ->
  forallb (not_completion_of i) evs = true ->
  os_threads w !! i = Some th ->
  lastTime_of (pc th) = Some t0 \/ pc th = Exited ->
  exists c,
    os_threads w' !! i = Some (mkOs (threadid th) c)
    /\ (lastTime_of c = Some t0 \/ c = Exited).
Proof.
  revert w th. induction evs as [| e evs IH]; intros w th; simpl.
  - intros [= ->] _ Hth Hlt. exists (pc th). by destruct th.
  - destruct (step e w) as [w1 |] eqn:Hs; simpl; [| discriminate].
    intros Hrun Hev Hth Hlt.
    apply andb_true_iff in Hev as [He Hev].
    destruct (step_lastTime _ _ _ _ _ _ Hs He Hth Hlt) as (c & Hc & Hlc).
    apply (IH w1 (mkOs (threadid th) c)); done.
Qed.

(** The two statements that assign [lastTime]. *)
Lemma step_sets_lastTime w0 w1 i t0 :
  step (WorkerIdle i t0) w0 = Some w1 \/ step (WorkerEnter i t0) w0 = Some w1 ->
  exists th, os_threads w1 !! i = Some th /\ pc th = AtLoop t0.
Proof.
  intros [H | H];
    (apply step_cases in H
       as [(? & _) | [(_ & _ & H) | [(_ & ? & _) | (_ & _ & ? & _)]]];
     [done | | done | done]);
    simpl in H;
    destruct (os_threads w0 !! i) as [th |] eqn:Hth; simpl in H;
      try discriminate;
    destruct (pc th); try discriminate; injection H as <-;
    eexists; (split; [by apply set_pc_lookup | done]).
Qed.

(** C7. (Completion) A thread that has executed a task increments
    [idleThreadSize_] and sets [lastTime] to the time [t0] it reads then;
    the registry and [curThreadSize_] stay.  (Idle time) In every state
    reached from there, or from the thread's entry into [threadFunc] at
    [t0], without another completion by that thread, the [lastTime] of the
    thread in the timed wait is [t0]: the time of its last task completion,
    or of its entry if it has completed no task.  (Cached) A thread in the
    timed wait whose wait times out at [now] with the queue empty takes a
    step, and in that step it erases its id from the registry, decrements
    [curThreadSize_] and [idleThreadSize_] and returns exactly when at
    least 60 seconds have passed since [lastTime] and
    [curThreadSize_ > initThreadSize_]; otherwise both counters keep their
    values and, the pool running, the thread stays registered and waits
    again.  (Fixed) While the pool is in Fixed mode and running, a thread
    that has not returned never returns and never enters a timed wait,
    along every run that does not enter the destructor; with the queue empty
    its loop head leads to the wait without timeout, which no timeout step
    can end.  The invariant [timed_wait_inv] assumed of the first state
    holds in every state a program reaches ([run_timed_wait]). *)
Theorem idle_worker_policy (w0 w1 w w2 : World) (i : nat)
    (tid lt0 t0 lt now : Z) (b : bool) (th : OsThread)
    (evs0 evs : list Event) :
  (os_threads w0 !! i = Some (mkOs tid (Executed lt0)) ->
   dtor w0 <> Destroyed ->
   exists w',
     step (WorkerIdle i t0) w0 = Some w'
     /\ os_threads w' !! i = Some (mkOs tid (AtLoop t0))
     /\ idleThreadSize_ (pool w') = wrap_int (idleThreadSize_ (pool w0) + 1)
     /\ curThreadSize_ (pool w') = curThreadSize_ (pool w0)
     /\ threads_ (pool w') = threads_ (pool w0))
  /\ (step (WorkerIdle i t0) w0 = Some w1
      \/ step (WorkerEnter i t0) w0 = Some w1 ->
      forallb (not_completion_of i) evs0 = true ->
      run evs0 w1 = Some w ->
      os_threads w !! i = Some (mkOs tid (InWaitFor lt b)) ->
      lt = t0)
  /\ (os_threads w !! i = Some (mkOs tid (InWaitFor lt b)) ->
      dtor w <> Destroyed ->
      poolMode_ (pool w) = MODE_CACHED ->
      taskQue_ (pool w) = [] ->
      exists w',
        step (WorkerTimeout i now) w = Some w'
        /\ (THREAD_MAX_IDLE_TIME * ticks_per_second <= now - lt
            /\ initThreadSize_ (pool w) < curThreadSize_ (pool w) ->
            threads_ (pool w') = delete tid (threads_ (pool w))
            /\ curThreadSize_ (pool w') = wrap_int (curThreadSize_ (pool w) - 1)
            /\ idleThreadSize_ (pool w') = wrap_int (idleThreadSize_ (pool w) - 1)
            /\ os_threads w' !! i = Some (mkOs tid Exited))
        /\ (~ (THREAD_MAX_IDLE_TIME * ticks_per_second <= now - lt
               /\ initThreadSize_ (pool w) < curThreadSize_ (pool w)) ->
            curThreadSize_ (pool w') = curThreadSize_ (pool w)
            /\ idleThreadSize_ (pool w') = idleThreadSize_ (pool w)
            /\ (isPoolRunning_ (pool w) = true ->
                threads_ (pool w') = threads_ (pool w)
                /\ os_threads w' !! i = Some (mkOs tid (InWaitFor lt false)))))
  /\ (poolMode_ (pool w) = MODE_FIXED ->
      isPoolRunning_ (pool w) = true ->
      dtor w = Alive ->
      timed_wait_inv w ->
      os_threads w !! i = Some th ->
      live th = true ->
      forallb not_destroy evs = true ->
      run evs w = Some w2 ->
      (exists c, os_threads w2 !! i = Some (mkOs (threadid th) c)
                 /\ untimed_and_live c = true)
      /\ (pc th = AtLoop lt -> taskQue_ (pool w) = [] ->
          exists w',
            step (WorkerLock i) w = Some w'
            /\ pool w' = pool w
            /\ os_threads w' !! i = Some (mkOs (threadid th) (InWait lt false))
            /\ step (WorkerTimeout i now) w' = None)).
Proof.
  split; [| split; [| split]].
  - intros Hth Hd. exists (threadFunc_idle i t0 w0).
    split; [unfold step; destruct (dtor w0); try done; simpl; by rewrite Hth |].
    split; [| done].
    unfold threadFunc_idle.
    by apply (set_pc_lookup i (AtLoop t0) _ (mkOs tid (Executed lt0))).
  - intros Hset Hev Hrun Hth.
    destruct (step_sets_lastTime _ _ _ _ Hset) as (th1 & Hth1 & Hpc1).
    destruct (run_lastTime _ _ _ _ _ t0 Hrun Hev Hth1) as (c & Hc & Hlc).
    { left. by rewrite Hpc1. }
    rewrite Hth in Hc. injection Hc as _ <-.
    destruct Hlc as [[= ->] | ?]; done.
  - intros Hth Hd Hm Hq.
    exists (threadFunc_timeout i tid lt now w). split.
    { unfold step. destruct (dtor w); try done; simpl; by rewrite Hth. }
    unfold threadFunc_timeout.
    destruct (reclaim_cond now lt (pool w)) eqn:Hrc.
    + split; [| intros Hn; destruct Hn; by apply reclaim_cond_spec].
      intros _. simpl. by rewrite list_lookup_alter_eq, Hth.
    + split.
      { intros Hc. apply reclaim_cond_spec in Hc. congruence. }
      intros _. unfold threadFunc_check. rewrite Hq.
      destruct (isPoolRunning_ (pool w)) eqn:Hr; simpl.
      * apply PoolMode_eqb_eq in Hm. rewrite Hm. simpl.
        split; [done |]. split; [done |]. intros _. split; [done |].
        by rewrite list_lookup_alter_eq, Hth.
      * unfold exitCond_notify_all. simpl.
        destruct (dtor w); simpl; done.
  - intros Hm Hr Hd Hinv Hth Hlive Hev Hrun.
    pose proof (fixed_live_untimed _ _ _ Hinv Hm Hth Hlive) as Hok. split.
    + by destruct (run_fixed _ _ _ _ _ Hrun Hev Hm Hr Hd Hth Hok) as [_ H].
    + intros Hpc Hq.
      exists (threadFunc_check i (threadid th) lt w).
      assert (Hs : step (WorkerLock i) w
                   = Some (threadFunc_check i (threadid th) lt w)).
      { unfold step. rewrite Hd. simpl. rewrite Hth. simpl. by rewrite Hpc. }
      split; [done |].
      destruct (threadFunc_check_fixed i (threadid th) lt w th Hm Hr Hth)
        as [Hl _].
      rewrite Hq in Hl.
      split.
      { unfold threadFunc_check. by rewrite Hq, Hr, Hm. }
      split; [done |].
      unfold step.
      destruct (dtor (threadFunc_check i (threadid th) lt w)); try done;
        simpl; by rewrite Hl.
Qed.

(** ** The registry invariant *)


Lemma wf_alter_live reg g ths i th c :
  registry_wf_parts reg g ths ->
  ths !! i = Some th -> live th = true ->
  live (mkOs (threadid th) c) = true ->
  registry_wf_parts reg g (alter (fun th => mkOs (threadid th) c) i ths).
Proof.
  intros (H1 & H2 & H3) Hth Hl Hc. split; [done |]. split.
  - intros j thj Hj Hlj.
    destruct (decide (i = j)) as [-> | Hne].
    + rewrite list_lookup_alter_eq, Hth in Hj. injection Hj as <-. simpl. eauto.
    + rewrite list_lookup_alter_ne in Hj by done. eauto.
  - intros j k thj thk Hj Hk Hlj Hlk Heq.
    assert (Hget : forall m thm,
      alter (fun th => mkOs (threadid th) c) i ths !! m = Some thm ->
      live thm = true ->
      exists thm', ths !! m = Some thm' /\ live thm' = true
                   /\ threadid thm' = threadid thm).
    { intros m thm Hm Hlm. destruct (decide (i = m)) as [-> | Hne].
      - rewrite list_lookup_alter_eq, Hth in Hm. injection Hm as <-. eauto.
      - rewrite list_lookup_alter_ne in Hm by done. eauto. }
    destruct (Hget j thj Hj Hlj) as (thj' & Hj' & Hlj' & Hej).
    destruct (Hget k thk Hk Hlk) as (thk' & Hk' & Hlk' & Hek).
    eapply H3; eauto. congruence.
Qed.

Lemma wf_exit reg g ths i th :
  registry_wf_parts reg g ths ->
  ths !! i = Some th -> live th = true ->
  registry_wf_parts (delete (threadid th) reg) g
    (alter (fun th => mkOs (threadid th) Exited) i ths).
Proof.
  intros (H1 & H2 & H3) Hth Hl.
  assert (Hget : forall m thm,
    alter (fun th => mkOs (threadid th) Exited) i ths !! m = Some thm ->
    live thm = true -> i <> m /\ ths !! m = Some thm).
  { intros m thm Hm Hlm. destruct (decide (i = m)) as [-> | Hne].
    - rewrite list_lookup_alter_eq, Hth in Hm. injection Hm as <-. done.
    - rewrite list_lookup_alter_ne in Hm by done. done. }
  split; [| split].
  - intros k thk Hk. apply lookup_delete_Some in Hk as [_ Hk]. eauto.
  - intros j thj Hj Hlj. destruct (Hget j thj Hj Hlj) as [Hne Hj'].
    rewrite lookup_delete_ne; [eauto |].
    intros Heq. apply Hne. eapply H3; eauto.
  - intros j k thj thk Hj Hk Hlj Hlk Heq.
    destruct (Hget j thj Hj Hlj) as [_ Hj'].
    destruct (Hget k thk Hk Hlk) as [_ Hk'].
    eapply H3; eauto.
Qed.

Lemma wf_notify reg g ths :
  registry_wf_parts reg g ths ->
  registry_wf_parts reg g
    (map (fun th => mkOs (threadid th) (notify_pc (pc th))) ths).
Proof.
  intros (H1 & H2 & H3).
  assert (Hget : forall m thm,
    map (fun th => mkOs (threadid th) (notify_pc (pc th))) ths !! m = Some thm ->
    live thm = true ->
    exists thm', ths !! m = Some thm' /\ live thm' = true
                 /\ threadid thm' = threadid thm).
  { intros m thm Hm Hlm.
    destruct (ths !! m) as [thm' |] eqn:Hm'.
    - rewrite (notify_lookup _ _ _ Hm') in Hm. injection Hm as <-.
      exists thm'. split; [done |]. split; [| done].
      unfold live in *. simpl in Hlm. by destruct (pc thm').
    - apply lookup_ge_None in Hm'.
      assert (Hlen : (length (map (fun th => mkOs (threadid th) (notify_pc (pc th))) ths)
                      <= m)%nat) by (by rewrite length_map).
      apply lookup_ge_None in Hlen. congruence. }
  split; [done |]. split.
  - intros j thj Hj Hlj.
    destruct (Hget j thj Hj Hlj) as (thj' & Hj' & Hlj' & <-). eauto.
  - intros j k thj thk Hj Hk Hlj Hlk Heq.
    destruct (Hget j thj Hj Hlj) as (thj' & Hj' & Hlj' & Hej).
    destruct (Hget k thk Hk Hlk) as (thk' & Hk' & Hlk' & Hek).
    eapply H3; eauto. congruence.
Qed.

Lemma wf_spawn reg g ths :
  registry_wf_parts reg g ths ->
  emplace g (Thread.mk g) reg !! g = Some (Thread.mk g)
  /\ registry_wf_parts (emplace g (Thread.mk g) reg) (g + 1)
       (ths ++ [mkOs g Entry]).
Proof.
  intros (H1 & H2 & H3).
  assert (Hfresh : reg !! g = None).
  { destruct (reg !! g) as [th |] eqn:E; [| done].
    apply H1 in E as [_ E]. lia. }
  unfold emplace. rewrite Hfresh.
  split; [apply lookup_insert_eq |].
  assert (Hget : forall m thm,
    (ths ++ [mkOs g Entry]) !! m = Some thm ->
    (ths !! m = Some thm) \/ (m = length ths /\ thm = mkOs g Entry)).
  { intros m thm Hm. apply lookup_app_Some in Hm as [Hm | [Hge Hm]]; [by left |].
    right. apply list_lookup_singleton_Some in Hm as [Hm <-].
    split; [lia | done]. }
  assert (Hold : forall m thm, ths !! m = Some thm -> live thm = true ->
                 threadid thm < g).
  { intros m thm Hm Hlm. destruct (H2 m thm Hm Hlm) as [x Hx].
    by apply H1 in Hx as [_ Hx]. }
  split; [| split].
  - intros k th Hk. apply lookup_insert_Some in Hk as [[<- <-] | [Hne Hk]].
    + simpl. lia.
    + apply H1 in Hk as [Hk1 Hk2]. lia.
  - intros j thj Hj Hlj. destruct (Hget j thj Hj) as [Hj' | [_ ->]].
    + destruct (H2 j thj Hj' Hlj) as [x Hx].
      destruct (decide (g = threadid thj)) as [<- | Hne].
      * rewrite lookup_insert_eq. eauto.
      * rewrite lookup_insert_ne by done. eauto.
    + simpl. rewrite lookup_insert_eq. eauto.
  - intros j k thj thk Hj Hk Hlj Hlk Heq.
    destruct (Hget j thj Hj) as [Hj' | [-> ->]];
      destruct (Hget k thk Hk) as [Hk' | [-> ->]]; simpl in *.
    + eapply H3; eauto.
    + pose proof (Hold j thj Hj' Hlj). lia.
    + pose proof (Hold k thk Hk' Hlk). lia.
    + done.
Qed.

Lemma threadFunc_check_wf i lt w th :
  os_threads w !! i = Some th -> live th = true ->
  registry_wf w ->
  registry_wf (threadFunc_check i (threadid th) lt w).
Proof.
  intros Hth Hl Hwf. unfold registry_wf, threadFunc_check in *.
  destruct (taskQue_ (pool w)); simpl.
  - destruct (isPoolRunning_ (pool w)); simpl.
    + destruct (PoolMode_eqb _ _); simpl; by eapply wf_alter_live.
    + destruct (exitCond_notify_all_frame
                  (upd_pool (fun p => set_threads_ (delete (threadid th) (threads_ p)) p) w))
        as (Hp & Hos & Hg & _).
      rewrite Hp, Hos, Hg. simpl. by apply wf_exit.
  - by eapply wf_alter_live.
Qed.

Lemma worker_step_wf e w w' :
  worker_step e w = Some w' -> registry_wf w -> registry_wf w'.
Proof.
  intros H Hwf.
  destruct e; simpl in H; try discriminate;
    destruct (os_threads w !! i) as [th |] eqn:Hth; simpl in H; try discriminate;
    destruct (pc th) eqn:Hpc; try discriminate;
    assert (Hl : live th = true) by (unfold live; by rewrite Hpc).
  - injection H as <-. unfold registry_wf in *. simpl. by eapply wf_alter_live.
  - injection H as <-. by apply threadFunc_check_wf.
  - destruct (spurious || notified); [| discriminate]. injection H as <-.
    by apply threadFunc_check_wf.
  - destruct (spurious || notified); [| discriminate]. injection H as <-.
    by apply threadFunc_check_wf.
  - injection H as <-. unfold threadFunc_timeout.
    destruct (reclaim_cond now lastTime (pool w)).
    + unfold registry_wf in *. simpl. by apply wf_exit.
    + by apply threadFunc_check_wf.
  - unfold threadFunc_exec in H. destruct task as [t |]; simpl in H.
    + destruct (Task_exec t w) as [w1 |] eqn:Hx; simpl in H; [| discriminate].
      injection H as <-. apply Task_exec_frame in Hx as (Hp & Hos & Hg & _).
      unfold registry_wf in *. simpl. rewrite Hp, Hos, Hg.
      by eapply wf_alter_live.
    + injection H as <-. unfold registry_wf in *. simpl.
      by eapply wf_alter_live.
  - injection H as <-. unfold registry_wf in *. simpl. by eapply wf_alter_live.
Qed.

Lemma submitTask_locked_wf ok sp r w w' :
  submitTask_locked ok sp r w = Some w' -> registry_wf w -> registry_wf w'.
Proof.
  unfold submitTask_locked, registry_wf.
  destruct ok; cbn [negb]; cbv zeta; intros H Hwf.
  - set (w3 := notEmpty_notify_all _) in H.
    assert (H3 : registry_wf_parts (threads_ (pool w3)) (generateId_ w3)
                   (os_threads w3)) by (by apply wf_notify).
    clearbody w3.
    destruct (grow_cond (pool w3)).
    + destruct (submitTask_grow w3) as [w4 |] eqn:Hg; [| done].
      apply Result_ctor_frame in H as (-> & -> & -> & _).
      apply submitTask_grow_spec in Hg as (th & Hth & Hreg & Hos & Hgen & _).
      destruct (wf_spawn _ _ _ H3) as [Hlook Hwf'].
      rewrite Hreg, Hlook in Hth. injection Hth as <-.
      rewrite Hreg, Hos, Hgen. exact Hwf'.
    + apply Result_ctor_frame in H as (-> & -> & -> & _). done.
  - apply Result_ctor_frame in H as (-> & -> & -> & _). done.
Qed.

Lemma step_wf e w w' :
  step e w = Some w' -> not_start e = true ->
  registry_wf w -> registry_wf w'.
Proof.
  intros H Hns Hwf.
  apply step_cases in H
    as [(_ & H) | [(_ & _ & H) | [(_ & _ & H) | (_ & _ & _ & H)]]].
  - apply result_step_frame in H as (Hp & Hos & Hg & _).
    unfold registry_wf in *. by rewrite Hp, Hos, Hg.
  - by eapply worker_step_wf.
  - destruct e; simpl in H; try discriminate.
    + injection H as <-. unfold registry_wf in *. simpl.
      by destruct (setMode_frame mode (pool w)) as (-> & _).
    + destruct (is_intb threshhold); [| discriminate]. injection H as <-.
      unfold registry_wf in *. simpl.
      by destruct (setTaskQueMaxThreshHold_frame threshhold (pool w)) as (-> & _).
    + destruct (is_intb threshhold); [| discriminate]. injection H as <-.
      unfold registry_wf in *. simpl.
      by destruct (setThreadSizeThreshHold_frame threshhold (pool w)) as (-> & _).
    + unfold submitTask in H. rewrite wait_for_nil in H.
      by eapply submitTask_locked_wf.
    + by injection H as <-.
  - pose proof (dtor_step_threads _ _ _ H) as [_ Hos].
    apply dtor_step_frame in H as (Hp & Hg & _).
    unfold registry_wf in *. rewrite Hp, Hg.
    destruct Hos as [-> | ->]; [done | by apply wf_notify].
Qed.

Lemma run_wf evs w w' :
  run evs w = Some w' -> forallb not_start evs = true ->
  registry_wf w -> registry_wf w'.
Proof.
  revert w. induction evs as [| e evs IH]; intros w; simpl.
  - by intros [= ->].
  - destruct (step e w) as [w1 |] eqn:Hs; simpl; [| discriminate].
    intros Hr Hev Hwf. apply andb_true_iff in Hev as [He Hev].
    eauto using step_wf.
Qed.

(** ** Shutdown: the destroying thread and the threads *)

(** The destroying thread gets past [exitCond_.wait] only with an empty
    registry. *)
Lemma step_destroyed e w w' :
  step e w = Some w' -> dtor w <> Destroyed -> dtor w' = Destroyed ->
  threads_ (pool w') = ∅.
Proof.
  intros H Hne Hd'.
  apply step_cases in H
    as [(_ & H) | [(_ & _ & H) | [(Hd & _ & H) | (_ & _ & _ & H)]]].
  - apply result_step_frame in H. destruct_and!. congruence.
  - apply worker_step_config in H
      as (_ & _ & _ & _ & _ & _ & _ & [Hx | (b & _ & Hx)]); congruence.
  - exfalso. destruct e; simpl in H; try discriminate.
    + injection H as <-. simpl in Hd'. congruence.
    + destruct (is_intb threshhold); [| discriminate]. injection H as <-.
      simpl in Hd'. congruence.
    + destruct (is_intb threshhold); [| discriminate]. injection H as <-.
      simpl in Hd'. congruence.
    + destruct (is_intb initThreadSize); [| discriminate].
      apply start_frame in H. destruct_and!. congruence.
    + unfold submitTask in H. rewrite wait_for_nil in H.
      apply submitTask_locked_counters in H. destruct_and!. congruence.
    + injection H as <-. simpl in Hd'. congruence.
  - revert H. unfold dtor_step, dtor_lock, dtor_check.
    destruct e; try (by destruct (dtor w)); destruct (dtor w); try discriminate.
    + destruct (size _ =? 0)%nat eqn:Hsz; intros [= <-]; [| done].
      apply Nat.eqb_eq in Hsz. simpl in *. by apply map_size_empty_inv.
    + destruct (spurious || notified); [| discriminate].
      destruct (size _ =? 0)%nat eqn:Hsz; intros [= <-]; [| done].
      apply Nat.eqb_eq in Hsz. simpl in *. by apply map_size_empty_inv.
Qed.

(** Once the pool is destroyed only reads of results remain. *)
Lemma step_after_destroyed e w w' :
  step e w = Some w' -> dtor w = Destroyed ->
  pool w' = pool w /\ dtor w' = Destroyed.
Proof.
  intros H Hd.
  apply step_cases in H
    as [(_ & H) | [(? & _) | [(? & _) | (_ & ? & _)]]]; try congruence.
  apply result_step_frame in H. destruct_and!. split; congruence.
Qed.

Lemma run_destroyed evs w w' :
  run evs w = Some w' ->
  (dtor w = Destroyed -> threads_ (pool w) = ∅) ->
  dtor w' = Destroyed ->
  threads_ (pool w') = ∅.
Proof.
  revert w. induction evs as [| e evs IH]; intros w; simpl.
  - intros [= ->]. auto.
  - destruct (step e w) as [w1 |] eqn:Hs; simpl; [| discriminate].
    intros Hr Hinv Hd'. apply (IH w1); [done | | done].
    intros Hd1.
    destruct (dtor w) eqn:Hd;
      try (eapply step_destroyed; [exact Hs | congruence | done]).
    destruct (step_after_destroyed _ _ _ Hs Hd) as [-> _]. auto.
Qed.



Lemma wf_empty_registry_no_live w i th :
  registry_wf w -> threads_ (pool w) = ∅ ->
  os_threads w !! i = Some th -> live th = false.
Proof.
  intros (_ & H2 & _) Hempty Hth.
  destruct (live th) eqn:Hl; [| done].
  destruct (H2 i th Hth Hl) as [x Hx]. rewrite Hempty in Hx. done.
Qed.

(** ** [start] establishes the registry invariant *)

Lemma wf_register reg g ths :
  registry_wf_parts reg g ths ->
  registry_wf_parts (emplace g (Thread.mk g) reg) (g + 1) ths.
Proof.
  intros (H1 & H2 & H3).
  assert (Hfresh : reg !! g = None).
  { destruct (reg !! g) as [th |] eqn:E; [| done].
    apply H1 in E as [_ E]. lia. }
  unfold emplace. rewrite Hfresh.
  split; [| split; [| done]].
  - intros k th Hk. apply lookup_insert_Some in Hk as [[<- <-] | [Hne Hk]].
    + simpl. lia.
    + apply H1 in Hk as [Hk1 Hk2]. lia.
  - intros j thj Hj Hlj. destruct (H2 j thj Hj Hlj) as [x Hx].
    destruct (decide (g = threadid thj)) as [<- | Hne].
    + rewrite lookup_insert_eq. eauto.
    + rewrite lookup_insert_ne by done. eauto.
Qed.

Lemma wf_start_thread reg g ths k th :
  registry_wf_parts reg g ths ->
  reg !! k = Some th ->
  (forall j thj, ths !! j = Some thj -> live thj = true -> threadid thj <> k) ->
  registry_wf_parts reg g (ths ++ [mkOs (Thread.threadId_ th) Entry]).
Proof.
  intros (H1 & H2 & H3) Hk Hfree.
  destruct (H1 k th Hk) as [Hid _]. rewrite Hid.
  assert (Hget : forall m thm,
    (ths ++ [mkOs k Entry]) !! m = Some thm ->
    (ths !! m = Some thm) \/ (m = length ths /\ thm = mkOs k Entry)).
  { intros m thm Hm. apply lookup_app_Some in Hm as [Hm | [Hge Hm]]; [by left |].
    right. apply list_lookup_singleton_Some in Hm as [Hm <-].
    split; [lia | done]. }
  split; [done |]. split.
  - intros j thj Hj Hlj. destruct (Hget j thj Hj) as [Hj' | [_ ->]]; [eauto |].
    simpl. eauto.
  - intros j m thj thm Hj Hm Hlj Hlm Heq.
    destruct (Hget j thj Hj) as [Hj' | [-> ->]];
      destruct (Hget m thm Hm) as [Hm' | [-> ->]]; simpl in *.
    + eapply H3; eauto.
    + by destruct (Hfree j thj Hj' Hlj).
    + by destruct (Hfree m thm Hm' Hlm).
    + done.
Qed.

Lemma start_create_wf n w w' :
  start_create n w = Some w' -> registry_wf w -> registry_wf w'.
Proof.
  revert w. induction n as [| n IH]; intros w; simpl.
  - by intros [= ->].
  - unfold Thread_ctor, int_incr.
    destruct (generateId_ w <? INT32_MAX); simpl; [| discriminate].
    intros H Hwf. apply IH in H; [done |].
    unfold registry_wf in *. simpl. unfold Thread.getId. simpl.
    by apply wf_register.
Qed.

Lemma start_run_wf n i w w' :
  start_run n i w = Some w' ->
  registry_wf w ->
  (forall j th, os_threads w !! j = Some th -> live th = true ->
     ~ (i <= threadid th < i + Z.of_nat n)) ->
  registry_wf w'.
Proof.
  revert i w. induction n as [| n IH]; intros i w.
  - simpl. by intros [= ->].
  - cbn [start_run].
    destruct (threads_ (pool w) !! i) as [th |] eqn:Hth; simpl; [| discriminate].
    intros H Hwf Hfree.
    assert (Hid : Thread.threadId_ th = i) by (by apply Hwf in Hth as [? _]).
    apply IH in H; [done | |].
    + unfold registry_wf in *. simpl. eapply wf_start_thread; [done | done |].
      intros j thj Hj Hlj Heq. apply (Hfree j thj Hj Hlj). lia.
    + simpl. intros j thj Hj Hlj.
      apply lookup_app_Some in Hj as [Hj | [_ Hj]].
      * pose proof (Hfree j thj Hj Hlj). lia.
      * apply list_lookup_singleton_Some in Hj as [_ <-]. simpl. lia.
Qed.

(** [start(n)] keeps the invariant when no running thread has an id among
    the first [n]; in particular in a program that has started no thread
    yet. *)
Lemma start_wf n w w' :
  start n w = Some w' ->
  registry_wf w ->
  (forall j th, os_threads w !! j = Some th -> live th = true ->
     ~ (0 <= threadid th < n)) ->
  registry_wf w'.
Proof.
  unfold start. intros H Hwf Hfree.
  destruct (start_create _ _) as [w4 |] eqn:Hc; simpl in H; [| discriminate].
  pose proof (start_create_frame _ _ _ Hc) as (Hos & _ & _ & Hi & _).
  apply start_create_wf in Hc; [| done].
  eapply start_run_wf; [exact H | done |].
  rewrite Hos, Hi. simpl. intros j th Hj Hl.
  pose proof (Hfree j th Hj Hl). lia.
Qed.

(** ** The pending count *)

Lemma wrap_int_add a b : wrap_int (wrap_int a + b) = wrap_int (a + b).
Proof.
  unfold wrap_int.
  replace ((a + 2 ^ 31) mod 2 ^ 32 - 2 ^ 31 + b + 2 ^ 31)
    with ((a + 2 ^ 31) mod 2 ^ 32 + b) by lia.
  rewrite Zplus_mod_idemp_l. f_equal. f_equal. lia.
Qed.

Lemma threadFunc_check_taskSize i tid lt w :
  taskSize_inv w -> taskSize_inv (threadFunc_check i tid lt w).
Proof.
  unfold taskSize_inv, threadFunc_check.
  destruct (taskQue_ (pool w)) as [| task rest] eqn:Hq.
  - intros H. destruct (isPoolRunning_ (pool w)); simpl.
    + destruct (PoolMode_eqb _ _); simpl; by rewrite Hq.
    + destruct (exitCond_notify_all_frame
                  (upd_pool (fun p => set_threads_ (delete tid (threads_ p)) p) w))
        as (Hp & _).
      rewrite Hp. simpl. by rewrite Hq.
  - intros H. simpl. rewrite H, <- Z.add_opp_r, wrap_int_add. f_equal.
    simpl length. lia.
Qed.

Lemma worker_step_taskSize e w w' :
  worker_step e w = Some w' -> taskSize_inv w -> taskSize_inv w'.
Proof.
  destruct e; simpl; try discriminate;
    destruct (os_threads w !! i) as [th |] eqn:Hth; simpl; try discriminate;
    destruct (pc th) eqn:Hpc; try discriminate.
  - by intros [= <-].
  - intros [= <-]. apply threadFunc_check_taskSize.
  - destruct (spurious || notified); [| discriminate]. intros [= <-].
    apply threadFunc_check_taskSize.
  - destruct (spurious || notified); [| discriminate]. intros [= <-].
    apply threadFunc_check_taskSize.
  - intros [= <-]. unfold threadFunc_timeout.
    destruct (reclaim_cond now lastTime (pool w)); [done |].
    apply threadFunc_check_taskSize.
  - unfold threadFunc_exec.
    destruct task as [t |]; simpl.
    + destruct (Task_exec t w) as [w1 |] eqn:Hx; simpl; [| discriminate].
      intros [= <-]. unfold taskSize_inv. simpl.
      unfold Task_exec in Hx.
      destruct (tasks w !! t) as [tk |]; simpl in Hx; [| discriminate].
      destruct (Task.result_ tk) as [r |].
      * destruct (results w !! r) as [res |]; simpl in Hx; [| discriminate].
        destruct (Result.setVal (Task.run tk) res); simpl in Hx; [| discriminate].
        by injection Hx as <-.
      * by injection Hx as <-.
    + by intros [= <-].
  - by intros [= <-].
Qed.

Lemma submitTask_locked_taskSize ok sp r w w' :
  submitTask_locked ok sp r w = Some w' -> taskSize_inv w -> taskSize_inv w'.
Proof.
  unfold submitTask_locked, taskSize_inv.
  destruct ok; cbn [negb]; cbv zeta; intros H Hinv.
  - set (w3 := notEmpty_notify_all _) in H.
    assert (H3 : taskSize_ (pool w3)
                 = wrap_int (Z.of_nat (length (taskQue_ (pool w3))))).
    { subst w3. simpl. rewrite Hinv, wrap_int_add, length_app. f_equal.
      simpl. lia. }
    clearbody w3.
    destruct (grow_cond (pool w3)).
    + destruct (submitTask_grow w3) as [w4 |] eqn:Hg; [| done].
      apply Result_ctor_frame in H as (-> & _).
      apply submitTask_grow_spec in Hg as (th & Hg). destruct_and!. congruence.
    + by apply Result_ctor_frame in H as (-> & _).
  - by apply Result_ctor_frame in H as (-> & _).
Qed.

Lemma step_taskSize e w w' :
  step e w = Some w' -> taskSize_inv w -> taskSize_inv w'.
Proof.
  intros H Hinv.
  apply step_cases in H
    as [(_ & H) | [(_ & _ & H) | [(_ & _ & H) | (_ & _ & _ & H)]]].
  - apply result_step_frame in H as (Hp & _). unfold taskSize_inv. by rewrite Hp.
  - by eapply worker_step_taskSize.
  - unfold taskSize_inv in *. destruct e; simpl in H; try discriminate.
    + injection H as <-. simpl. rewrite setMode_taskQue_.
      pose proof (setMode_frame mode (pool w)). destruct_and!. congruence.
    + destruct (is_intb threshhold); [| discriminate]. injection H as <-. simpl.
      rewrite setTaskQueMaxThreshHold_taskQue_.
      pose proof (setTaskQueMaxThreshHold_frame threshhold (pool w)).
      destruct_and!. congruence.
    + destruct (is_intb threshhold); [| discriminate]. injection H as <-. simpl.
      rewrite setThreadSizeThreshHold_taskQue_.
      pose proof (setThreadSizeThreshHold_frame threshhold (pool w)).
      destruct_and!. congruence.
    + destruct (is_intb initThreadSize); [| discriminate].
      apply start_frame in H. destruct_and!. congruence.
    + unfold submitTask in H. rewrite wait_for_nil in H.
      by eapply submitTask_locked_taskSize.
    + by injection H as <-.
  - apply dtor_step_frame in H as (Hp & _). unfold taskSize_inv. by rewrite Hp.
Qed.

(** In every state a program reaches, the pending count [taskSize_] that
    [submitTask] compares with the idle count is the length of the queue. *)
Lemma run_taskSize evs tks w :
  run evs (World_init tks) = Some w -> taskSize_inv w.
Proof.
  assert (H : forall w0, taskSize_inv w0 -> run evs w0 = Some w -> taskSize_inv w).
  { induction evs as [| e evs IH]; intros w0 Hinv; simpl.
    - by intros [= <-].
    - destruct (step e w0) as [w1 |] eqn:Hs; simpl; [| discriminate].
      eauto using step_taskSize. }
  apply H. done.
Qed.

(** ** The theorems on example programs *)

Lemma submitTask_rejects_when_full_witness :
  let w := after [CallSetTaskQueMaxThreshHold 1; CallStart 0;
                  CallSubmitTask (Some 1%nat) 6%nat]
             (World_init example_tasks) in
  isPoolRunning_ (pool w) = true
  /\ taskQue_ (pool w) = [Some 1%nat]
  /\ exists w' res,
       submitTask [w; w] w (Some 0%nat) 5%nat = Some w'
       /\ pool w' = pool w
       /\ os_threads w' = os_threads w
       /\ enqueued_by (CallSubmitTask (Some 0%nat) 5%nat) w = []
       /\ results w' !! 5%nat = Some res
       /\ Result.isValid_ res = false
       /\ Result.get res = Result.Returned Any_empty_string res
       /\ forall n, gets n res = Some (replicate n Any_empty_string, res).
Proof.
  intros w.
  split; [vm_compute; reflexivity |]. split; [vm_compute; reflexivity |].
  apply (submitTask_rejects_when_full [w; w] w 0%nat 5%nat
           (Task.init (Any_of (Derive_int 7)))).
  - repeat constructor.
  - vm_compute. reflexivity.
  - vm_compute. reflexivity.
  - vm_compute. reflexivity.
Defined.

Lemma submitTask_spawns_at_most_one_witness :
  let w := after [CallSetMode MODE_CACHED] (World_init example_tasks) in
  let w' := after [CallSubmitTask (Some 0%nat) 5%nat] w in
  taskQue_ (pool w') = taskQue_ (pool w) ++ [Some 0%nat]
  /\ (exists tid,
        os_threads w' = os_threads (notEmpty_notify_all w) ++ [mkOs tid Entry])
  /\ curThreadSize_ (pool w') = wrap_int (curThreadSize_ (pool w) + 1)
  /\ (length (os_threads w') <= S (length (os_threads w)))%nat.
Proof.
  intros w w'.
  pose proof (submitTask_spawns_at_most_one [] w w w' (Some 0%nat) 5%nat) as H.
  cbv zeta in H.
  destruct H as (Hq & _ & Hc & _ & _ & Hle & _).
  - vm_compute. reflexivity.
  - vm_compute. reflexivity.
  - split; [exact Hq |].
    destruct Hc as (Hs & _ & _ & Hcur & _).
    + repeat split; vm_compute; reflexivity.
    + split; [exact Hs |]. split; [exact Hcur | exact Hle].
Defined.

Lemma fifo_dispatch_witness :
  let w := after [CallStart 1; CallSubmitTask (Some 0%nat) 5%nat;
                  CallSubmitTask (Some 1%nat) 6%nat]
             (World_init example_tasks) in
  let evs := [WorkerEnter 0 0; WorkerLock 0; WorkerExec 0; WorkerIdle 0 1;
              WorkerLock 0] in
  dispatched evs w ++ taskQue_ (pool (after evs w))
  = taskQue_ (pool w) ++ enqueued evs w
  /\ dispatched evs w !! 0%nat = Some (Some 0%nat)
  /\ dispatched evs w !! 1%nat = Some (Some 1%nat).
Proof.
  intros w evs.
  destruct (fifo_dispatch w (after evs w) evs [] [] [] (Some 0%nat) (Some 1%nat))
    as (_ & Heq & Hd & _).
  - vm_compute. reflexivity.
  - vm_compute. reflexivity.
  - split; [exact Heq |].
    destruct Hd as (HA & HB).
    + vm_compute. lia.
    + split; [exact HA | exact HB].
Defined.

Lemma queue_bound_witness :
  let w := after [CallSetTaskQueMaxThreshHold 1; CallStart 1]
             (World_init example_tasks) in
  let evs := [CallSubmitTask (Some 0%nat) 5%nat;
              CallSubmitTask (Some 1%nat) 6%nat;
              WorkerEnter 0 0; WorkerLock 0] in
  queue_within_limit (after evs w)
  /\ taskQueMaxThreshHold_ (pool (after evs w)) = 1.
Proof.
  intros w evs.
  destruct (queue_bound w (after evs w) evs) as (Hq & Ht & _).
  - unfold queue_within_limit. vm_compute. split; discriminate.
  - reflexivity.
  - vm_compute. reflexivity.
  - split; [exact Hq | exact Ht].
Defined.

(** C3 as stated fails for a negative limit: the admission test compares
    with [(size_t)(-1)], the task is queued, and the queue length 1 is above
    the configured limit -1. *)
Lemma queue_exceeds_negative_limit :
  exists w,
    run [CallSetTaskQueMaxThreshHold (-1); CallSubmitTask (Some 0%nat) 5%nat]
        (World_init example_tasks) = Some w
    /\ taskQueMaxThreshHold_ (pool w) = -1
    /\ taskQue_ (pool w) = [Some 0%nat]
    /\ ~ queue_within_limit w
    /\ ~ (Z.of_nat (length (taskQue_ (pool (World_init example_tasks)))) < -1).
Proof.
  eexists. split; [vm_compute; reflexivity |].
  split; [reflexivity |]. split; [reflexivity |].
  split.
  - unfold queue_within_limit. simpl. lia.
  - simpl. lia.
Qed.

Lemma thread_count_bound_witness :
  let w0 := after [CallSetMode MODE_CACHED; CallSetThreadSizeThreshHold 2]
              (World_init example_tasks) in
  let w1 := after [CallStart 1] w0 in
  let evs := [CallSubmitTask (Some 0%nat) 5%nat;
              CallSubmitTask (Some 1%nat) 6%nat] in
  initThreadSize_ (pool (after evs w1)) = 1
  /\ threadSizeThreshHold_ (pool (after evs w1)) = threadSizeThreshHold_ (pool w0)
  /\ curThreadSize_ (pool (after evs w1))
     <= Z.max 1 (threadSizeThreshHold_ (pool w0))
  /\ curThreadSize_ (pool (after evs w1))
     <= 1 + Z.of_nat (length (enqueued evs w1)).
Proof.
  intros w0 w1 evs.
  apply (thread_count_bound w0 w1 (after evs w1) 1 evs).
  - vm_compute. split; discriminate.
  - vm_compute. reflexivity.
  - reflexivity.
  - vm_compute. reflexivity.
Defined.

Lemma idle_worker_policy_witness :
  let base := World_init example_tasks in
  let w0 := after [CallSetMode MODE_CACHED; CallStart 1;
                   CallSubmitTask (Some 0%nat) 5%nat;
                   CallSubmitTask (Some 1%nat) 6%nat;
                   WorkerEnter 0 0; WorkerLock 0; WorkerEnter 1 5;
                   WorkerLock 1; WorkerExec 1] base in
  let wc := after [WorkerIdle 1 100; WorkerLock 1] w0 in
  let wf := after [CallStart 1; WorkerEnter 0 0] base in
  let evs := [WorkerLock 0; CallSubmitTask (Some 0%nat) 5%nat;
              WorkerWake 0 false; WorkerExec 0; WorkerIdle 0 9] in
  os_threads w0 !! 1%nat = Some (mkOs 1 (Executed 5))
  /\ (exists w',
        step (WorkerIdle 1 100) w0 = Some w'
        /\ os_threads w' !! 1%nat = Some (mkOs 1 (AtLoop 100))
        /\ idleThreadSize_ (pool w') = wrap_int (idleThreadSize_ (pool w0) + 1))
  /\ (forall lt b,
        os_threads wc !! 1%nat = Some (mkOs 1 (InWaitFor lt b)) -> lt = 100)
  /\ os_threads wc !! 1%nat = Some (mkOs 1 (InWaitFor 100 false))
  /\ (exists w',
        step (WorkerTimeout 1 60000000100) wc = Some w'
        /\ threads_ (pool w') = delete 1 (threads_ (pool wc))
        /\ curThreadSize_ (pool w') = wrap_int (curThreadSize_ (pool wc) - 1)
        /\ idleThreadSize_ (pool w') = wrap_int (idleThreadSize_ (pool wc) - 1)
        /\ os_threads w' !! 1%nat = Some (mkOs 1 Exited))
  /\ (exists w',
        step (WorkerTimeout 1 60000000050) wc = Some w'
        /\ curThreadSize_ (pool w') = curThreadSize_ (pool wc)
        /\ idleThreadSize_ (pool w') = idleThreadSize_ (pool wc)
        /\ threads_ (pool w') = threads_ (pool wc)
        /\ os_threads w' !! 1%nat = Some (mkOs 1 (InWaitFor 100 false)))
  /\ (exists c, os_threads (after evs wf) !! 0%nat = Some (mkOs 0 c)
                /\ untimed_and_live c = true)
  /\ (exists w',
        step (WorkerLock 0) wf = Some w'
        /\ pool w' = pool wf
        /\ os_threads w' !! 0%nat = Some (mkOs 0 (InWait 0 false))
        /\ step (WorkerTimeout 0 61000000000) w' = None).
Proof.
  intros base w0 wc wf evs.
  split; [by vm_compute |].
  split; [| split; [| split; [by vm_compute | split; [| split]]]].
  - destruct (idle_worker_policy w0 w0 w0 w0 1 1 5 100 0 0 false
                (mkOs 1 Entry) [] []) as (Ha & _).
    destruct Ha as (w' & Hs & Hpc & Hidle & _);
      [by vm_compute | by vm_compute |].
    exists w'. done.
  - intros lt b Hth.
    destruct (idle_worker_policy w0 (after [WorkerIdle 1 100] w0) wc wc 1 1 5
                100 lt 0 b (mkOs 1 Entry) [WorkerLock 1] []) as (_ & Hb & _).
    apply Hb; [left; by vm_compute | reflexivity | by vm_compute | exact Hth].
  - destruct (idle_worker_policy w0 w0 wc wc 1 1 5 100 100 60000000100 false
                (mkOs 1 Entry) [] []) as (_ & _ & Hc & _).
    destruct Hc as (w' & Hs & Hyes & _);
      [by vm_compute | by vm_compute | by vm_compute | by vm_compute |].
    exists w'. split; [exact Hs |]. apply Hyes.
    split; vm_compute; [discriminate | reflexivity].
  - destruct (idle_worker_policy w0 w0 wc wc 1 1 5 100 100 60000000050 false
                (mkOs 1 Entry) [] []) as (_ & _ & Hc & _).
    destruct Hc as (w' & Hs & _ & Hno);
      [by vm_compute | by vm_compute | by vm_compute | by vm_compute |].
    exists w'. split; [exact Hs |].
    destruct Hno as (Hcur & Hidle & Hrun).
    { intros [Hel _]. vm_compute in Hel. by apply Hel. }
    destruct Hrun as [Hreg Hpc]; [by vm_compute |].
    split; [exact Hcur |]. split; [exact Hidle |]. split; [exact Hreg | exact Hpc].
  - destruct (idle_worker_policy wf wf wf (after evs wf) 0 0 0 0 0 61000000000
                false (mkOs 0 (AtLoop 0)) [] evs) as (_ & _ & _ & Hf).
    destruct Hf as [Hstay Hwait];
      [by vm_compute | by vm_compute | by vm_compute
      | apply (run_timed_wait [CallStart 1; WorkerEnter 0 0] base);
          [by vm_compute | apply timed_wait_inv_init]
      | by vm_compute
      | reflexivity | reflexivity | by vm_compute |].
    split; [exact Hstay |].
    apply Hwait; [reflexivity | by vm_compute].
Defined.


(** * Further properties of the code *)

(** ** Any: what goes in comes out, at the same type only *)

(** X1. [cast_<T>()] on an [Any] built from a value of type [T] returns that
    value; at any other type, and on a default-constructed or moved-from
    [Any], it throws the string "type is unmatch!".  The value [get()]
    returns for a rejected submission is an [Any] holding the empty
    [const char*] string: it can be read as [const char*] only. *)
Theorem Any_cast_round_trip (T U : CType) (data : value T) (r : Result.t) :
  cast_ T (Any_ctor T data) = inl data
  /\ (U <> T -> cast_ U (Any_ctor T data) = inr "type is unmatch!"%string)
  /\ cast_ U Any_default = inr "type is unmatch!"%string
  /\ (Result.isValid_ r = false ->
      exists v r',
        Result.get r = Result.Returned v r'
        /\ cast_ T_const_char_ptr v = inl EmptyString
        /\ (U <> T_const_char_ptr -> cast_ U v = inr "type is unmatch!"%string)).
Proof.
  split; [by destruct T |].
  split; [by destruct T, U |].
  split; [by destruct U |].
  intros Hv. exists Any_empty_string, r.
  unfold Result.get. rewrite Hv. simpl.
  split; [done |]. split; [done |]. by destruct U.
Qed.

Lemma Any_cast_round_trip_witness :
  cast_ T_int (Any_ctor T_int 7) = inl 7
  /\ cast_ T_unsigned_long (Any_ctor T_int 7) = inr "type is unmatch!"%string
  /\ cast_ T_unsigned_long Any_default = inr "type is unmatch!"%string
  /\ exists v r',
       Result.get (Result.init 0%nat false) = Result.Returned v r'
       /\ cast_ T_const_char_ptr v = inl EmptyString
       /\ cast_ T_unsigned_long v = inr "type is unmatch!"%string.
Proof.
  destruct (Any_cast_round_trip T_int T_unsigned_long 7 (Result.init 0%nat false))
    as (H1 & H2 & H3 & H4).
  split; [exact H1 |].
  split; [apply H2; discriminate |].
  split; [exact H3 |].
  destruct (H4 eq_refl) as (v & r' & Hg & Hc & Hu).
  exists v, r'. split; [exact Hg |]. split; [exact Hc |].
  apply Hu. discriminate.
Defined.

(** ** Semaphore: resources are counted *)

Lemma calls_post n s :
  Semaphore.resLimit_ s + Z.of_nat n <= INT32_MAX ->
  calls n Semaphore.post s
  = Some (Semaphore.mk (Semaphore.resLimit_ s + Z.of_nat n)).
Proof.
  revert s. induction n as [| n IH]; intros [c] H; simpl in *.
  - by rewrite Z.add_0_r.
  - unfold Semaphore.post, int_incr. simpl.
    destruct (c <? INT32_MAX) eqn:E; [| apply Z.ltb_ge in E; lia].
    simpl. rewrite IH; simpl; [| lia]. do 2 f_equal. lia.
Qed.

Lemma Semaphore_wait_spec c :
  is_int c ->
  Semaphore.wait (Semaphore.mk c)
  = if 0 <? c then Some (Semaphore.mk (c - 1)) else None.
Proof.
  intros Hc. unfold Semaphore.wait, int_decr, is_int, INT32_MIN in *. simpl.
  destruct (0 <? c) eqn:E; [| done].
  apply Z.ltb_lt in E.
  destruct (-2147483648 <? c) eqn:E'; [done | apply Z.ltb_ge in E'; lia].
Qed.

Lemma calls_wait k s :
  is_int (Semaphore.resLimit_ s) ->
  is_Some (calls k Semaphore.wait s)
  <-> (k = 0%nat \/ Z.of_nat k <= Semaphore.resLimit_ s).
Proof.
  revert s. induction k as [| k IH]; intros [c] Hc.
  - simpl. split; [by left | by eexists].
  - cbn [calls Semaphore.resLimit_] in *.
    rewrite Semaphore_wait_spec by done.
    unfold is_int, INT32_MIN, INT32_MAX in *.
    destruct (0 <? c) eqn:E.
    + apply Z.ltb_lt in E. simpl.
      rewrite IH; simpl; lia.
    + apply Z.ltb_ge in E. simpl. split.
      * by intros [? ?].
      * lia.
Qed.

(** X2. From a count [c], [n] calls of [post()] (with no overflow of the
    [int]) leave the count [c + n]; then [k] calls of [wait()] in a row all
    return exactly when [k <= c + n]: one more blocks. *)
Theorem Semaphore_counts (s : Semaphore.t) (n : nat) :
  is_int (Semaphore.resLimit_ s) ->
  Semaphore.resLimit_ s + Z.of_nat n <= INT32_MAX ->
  exists s',
    calls n Semaphore.post s = Some s'
    /\ Semaphore.resLimit_ s' = Semaphore.resLimit_ s + Z.of_nat n
    /\ forall k, is_Some (calls k Semaphore.wait s')
                 <-> (k = 0%nat
                      \/ Z.of_nat k <= Semaphore.resLimit_ s + Z.of_nat n).
Proof.
  intros Hc Hn. eexists. split; [by apply calls_post |].
  split; [done |]. intros k. rewrite calls_wait; [done |].
  simpl. unfold is_int, INT32_MIN in *. lia.
Qed.

Lemma Semaphore_counts_witness :
  exists s',
    calls 2 Semaphore.post (Semaphore.init 0) = Some s'
    /\ Semaphore.resLimit_ s' = 2
    /\ is_Some (calls 2 Semaphore.wait s')
    /\ ~ is_Some (calls 3 Semaphore.wait s').
Proof.
  destruct (Semaphore_counts (Semaphore.init 0) 2) as (s' & Hp & Hl & Hk).
  - unfold is_int, INT32_MIN, INT32_MAX. simpl. lia.
  - unfold INT32_MAX. simpl. lia.
  - exists s'. split; [exact Hp |]. split; [exact Hl |]. split.
    + apply Hk. right. simpl. lia.
    + intros H. apply Hk in H. simpl in H. lia.
Defined.

(** ** Result: a second value before the first is read *)

(** X3. After two calls of [setVal] on a valid [Result] that holds no unread
    value, the first [get()] returns the later value (the earlier one is
    overwritten), the second [get()] returns without waiting with a
    moved-from, empty [Any], on which every [cast_] throws, and the third
    [get()] blocks. *)
Theorem Result_two_setVal (r : Result.t) (v1 v2 : Any) (U : CType) :
  Result.isValid_ r = true ->
  Semaphore.resLimit_ (Result.sem_ r) = 0 ->
  exists r1 r2 r3 r4,
    Result.setVal v1 r = Some r1
    /\ Result.setVal v2 r1 = Some r2
    /\ Result.get r2 = Result.Returned v2 r3
    /\ Result.get r3 = Result.Returned Any_default r4
    /\ cast_ U Any_default = inr "type is unmatch!"%string
    /\ Result.get r4 = Result.Blocked.
Proof.
  destruct r as [a [c] t valid]. simpl. intros -> ->.
  do 4 eexists.
  split; [reflexivity |]. split; [reflexivity |].
  split; [reflexivity |]. split; [reflexivity |].
  split; [by destruct U | reflexivity].
Qed.

Lemma Result_two_setVal_witness :
  exists r1 r2 r3 r4,
    Result.setVal (Any_ctor T_int 7) (Result.init 0%nat true) = Some r1
    /\ Result.setVal (Any_ctor T_int 8) r1 = Some r2
    /\ Result.get r2 = Result.Returned (Any_ctor T_int 8) r3
    /\ Result.get r3 = Result.Returned Any_default r4
    /\ cast_ T_int Any_default = inr "type is unmatch!"%string
    /\ Result.get r4 = Result.Blocked.
Proof.
  apply (Result_two_setVal (Result.init 0%nat true)); reflexivity.
Defined.

(** ** Configuration before start: the order of the setters *)

(** X4. On a pool that is not running and is in Fixed mode,
    [setThreadSizeThreshHold(n)] takes effect only after
    [setMode(MODE_CACHED)]: called before it, the threshold keeps its old
    value. *)
Theorem setters_do_not_commute (p : ThreadPool) (n : Z) :
  isPoolRunning_ p = false ->
  poolMode_ p = MODE_FIXED ->
  let p1 := setThreadSizeThreshHold n (setMode MODE_CACHED p) in
  let p2 := setMode MODE_CACHED (setThreadSizeThreshHold n p) in
  threadSizeThreshHold_ p1 = n
  /\ threadSizeThreshHold_ p2 = threadSizeThreshHold_ p
  /\ poolMode_ p1 = MODE_CACHED
  /\ poolMode_ p2 = MODE_CACHED.
Proof.
  intros Hr Hm. cbv zeta.
  unfold setThreadSizeThreshHold, setMode, checkRunningState.
  rewrite Hr. simpl. rewrite Hr, Hm. simpl. rewrite Hr. done.
Qed.

Lemma setters_do_not_commute_witness :
  threadSizeThreshHold_
    (setThreadSizeThreshHold 2 (setMode MODE_CACHED ThreadPool_ctor)) = 2
  /\ threadSizeThreshHold_
       (setMode MODE_CACHED (setThreadSizeThreshHold 2 ThreadPool_ctor)) = 1024.
Proof.
  destruct (setters_do_not_commute ThreadPool_ctor 2 eq_refl eq_refl)
    as (H1 & H2 & _).
  split; [exact H1 | exact H2].
Defined.

(** ** start: which threads it creates, and when it is defined *)

Lemma Thread_ctor_spec w :
  Thread_ctor w
  = if generateId_ w <? INT32_MAX
    then Some (Thread.mk (generateId_ w), set_generateId_ (generateId_ w + 1) w)
    else None.
Proof. unfold Thread_ctor, int_incr. by destruct (_ <? _). Qed.

Lemma emplace_lookup_other k th m k' :
  emplace k th m !! k'
  = match m !! k' with
    | Some th' => Some th'
    | None => if decide (k' = k) then Some th else None
    end.
Proof.
  unfold emplace. destruct (m !! k) as [th0 |] eqn:Hk.
  - destruct (m !! k') eqn:Hk'; [done |].
    case_decide; [congruence | done].
  - destruct (decide (k' = k)) as [-> | Hne].
    + by rewrite lookup_insert_eq, Hk.
    + rewrite lookup_insert_ne by done. by destruct (m !! k').
Qed.

(** The first loop registers the ids from [generateId_] on, and leaves the
    entries that exist. *)
Lemma start_create_spec n w :
  generateId_ w + Z.of_nat n <= INT32_MAX ->
  exists w',
    start_create n w = Some w'
    /\ generateId_ w' = generateId_ w + Z.of_nat n
    /\ forall k,
         threads_ (pool w') !! k
         = match threads_ (pool w) !! k with
           | Some th => Some th
           | None =>
               if decide (generateId_ w <= k < generateId_ w + Z.of_nat n)
               then Some (Thread.mk k) else None
           end.
Proof.
  revert w. induction n as [| n IH]; intros w Hn.
  - exists w. split; [done |]. split; [lia |]. intros k.
    destruct (threads_ (pool w) !! k); [done |].
    case_decide; [lia | done].
  - cbn [start_create]. rewrite Thread_ctor_spec.
    destruct (generateId_ w <? INT32_MAX) eqn:E; [| apply Z.ltb_ge in E; lia].
    cbn [mbind option_bind Thread.getId Thread.threadId_].
    set (w1 := upd_pool _ _).
    destruct (IH w1) as (w' & Hc & Hg & Hreg); [simpl; lia |].
    exists w'. split; [exact Hc |]. split; [simpl in Hg; lia |].
    intros k. rewrite Hreg. simpl. rewrite emplace_lookup_other.
    destruct (threads_ (pool w) !! k); [done |].
    repeat case_decide; try done; try lia; congruence.
Qed.

Lemma start_create_overflow n w :
  (0 < n)%nat ->
  INT32_MAX < generateId_ w + Z.of_nat n ->
  start_create n w = None.
Proof.
  revert w. induction n as [| n IH]; intros w H0 Hn; [lia |].
  cbn [start_create]. rewrite Thread_ctor_spec.
  destruct (generateId_ w <? INT32_MAX) eqn:E; [| done].
  apply Z.ltb_lt in E.
  cbn [mbind option_bind]. apply IH; simpl; lia.
Qed.

Lemma wrap_int_is_int z : is_int (wrap_int z).
Proof.
  unfold wrap_int, is_int, INT32_MIN, INT32_MAX.
  change (2 ^ 31) with 2147483648. change (2 ^ 32) with 4294967296.
  pose proof (Z.mod_pos_bound (z + 2147483648) 4294967296). lia.
Qed.

(** The second loop is defined when the keys [i .. i + n - 1] are present. *)
Lemma start_run_defined n i w :
  start_run n i w = None
  <-> exists k, i <= k < i + Z.of_nat n /\ threads_ (pool w) !! k = None.
Proof.
  revert i w. induction n as [| n IH]; intros i w.
  - simpl. split; [done |]. intros (k & ? & _). lia.
  - cbn [start_run].
    destruct (threads_ (pool w) !! i) as [th |] eqn:Hi.
    + cbn [mbind option_bind]. rewrite IH. simpl.
      split; intros (k & Hk & Hnone); exists k; (split; [lia | done])
        || (split; [| done]).
      destruct (decide (k = i)) as [-> | ?]; [congruence | lia].
    + simpl. split; [| done]. intros _. exists i. split; [lia | done].
Qed.

Lemma start_run_spec n i w :
  is_int (idleThreadSize_ (pool w)) ->
  (forall k, i <= k < i + Z.of_nat n ->
     threads_ (pool w) !! k = Some (Thread.mk k)) ->
  exists w',
    start_run n i w = Some w'
    /\ os_threads w'
       = os_threads w ++ ((fun k => mkOs k Entry) <$> seqZ i (Z.of_nat n))
    /\ idleThreadSize_ (pool w')
       = wrap_int (idleThreadSize_ (pool w) + Z.of_nat n).
Proof.
  revert i w. induction n as [| n IH]; intros i w Hidle Hreg.
  - exists w. split; [done |]. simpl. rewrite app_nil_r, Z.add_0_r.
    by rewrite wrap_int_id.
  - cbn [start_run]. rewrite (Hreg i) by lia. cbn [mbind option_bind].
    set (w1 := upd_pool _ _).
    destruct (IH (i + 1) w1) as (w' & Hr & Hos & Hid).
    + apply wrap_int_is_int.
    + intros k Hk. simpl. apply Hreg. lia.
    + exists w'. split; [exact Hr |]. split.
      * rewrite Hos.
        change (os_threads w1) with (os_threads w ++ [mkOs i Entry]).
        rewrite <- app_assoc. f_equal.
        rewrite (seqZ_cons i) by lia. rewrite fmap_cons.
        replace (Z.succ i) with (i + 1) by lia.
        by replace (Z.pred (Z.of_nat (S n))) with (Z.of_nat n) by lia.
      * rewrite Hid. simpl. rewrite wrap_int_add. f_equal. lia.
Qed.

(** X5. [start(n)] in a program that has created no thread object before
    registers the ids [0 .. n-1] and starts one thread for each, in this
    order, all at the entry of [threadFunc]; it records [n] as the initial
    and the current size, adds [n] to the idle count and marks the pool as
    running.  For [n <= 0] no thread is created, and [n] is recorded all the
    same. *)
Theorem start_fresh (n : Z) (w : World) :
  generateId_ w = 0 ->
  threads_ (pool w) = ∅ ->
  is_int n ->
  is_int (idleThreadSize_ (pool w)) ->
  exists w',
    start n w = Some w'
    /\ os_threads w' = os_threads w ++ ((fun k => mkOs k Entry) <$> seqZ 0 n)
    /\ (forall k, threads_ (pool w') !! k
                  = if decide (0 <= k < n) then Some (Thread.mk k) else None)
    /\ generateId_ w' = Z.max 0 n
    /\ initThreadSize_ (pool w') = n
    /\ curThreadSize_ (pool w') = n
    /\ idleThreadSize_ (pool w')
       = wrap_int (idleThreadSize_ (pool w) + Z.max 0 n)
    /\ isPoolRunning_ (pool w') = true
    /\ taskQue_ (pool w') = taskQue_ (pool w).
Proof.
  intros Hg Hreg Hn Hidle. unfold start. cbv zeta.
  set (w3 := upd_pool _ (upd_pool _ (upd_pool _ w))).
  change (initThreadSize_ (pool w3)) with n.
  destruct (start_create_spec (Z.to_nat n) w3) as (w4 & Hc & Hg4 & Hreg4).
  { simpl. rewrite Hg. unfold is_int, INT32_MAX in *. lia. }
  rewrite Hc. cbn [mbind option_bind].
  destruct (start_create_frame _ _ _ Hc)
    as (Cos & Cq & _ & Cinit & Ccur & Cidle & _ & _ & _ & Crun & _).
  assert (Hn4 : initThreadSize_ (pool w4) = n) by (by rewrite Cinit).
  rewrite Hn4.
  assert (Hk4 : forall k, threads_ (pool w4) !! k
                = if decide (0 <= k < n) then Some (Thread.mk k) else None).
  { intros k. rewrite Hreg4. simpl. rewrite Hreg, lookup_empty, Hg.
    repeat case_decide; try done; lia. }
  destruct (start_run_spec (Z.to_nat n) 0 w4) as (w' & Hr & Hos & Hid).
  { by rewrite Cidle. }
  { intros k Hk. rewrite Hk4. case_decide; [done | lia]. }
  exists w'. split; [exact Hr |].
  destruct (start_run_frame _ _ _ _ Hr)
    as (Rreg & Rg & Rq & _ & Rinit & Rcur & _ & _ & _ & Rrun & _).
  split.
  { rewrite Hos, Cos. simpl. do 2 f_equal.
    destruct (decide (0 <= n)) as [? | ?].
    - by rewrite Z2Nat.id.
    - rewrite !seqZ_nil; [done | lia | lia]. }
  split; [intros k; by rewrite Rreg |].
  split; [rewrite Rg, Hg4; simpl; lia |].
  split; [congruence |].
  split; [by rewrite Rcur, Ccur |].
  split; [rewrite Hid, Cidle; simpl; f_equal; lia |].
  split; [by rewrite Rrun, Crun |].
  by rewrite Rq, Cq.
Qed.

Lemma start_fresh_witness :
  exists w',
    start 2 (World_init example_tasks) = Some w'
    /\ os_threads w' = [mkOs 0 Entry; mkOs 1 Entry]
    /\ threads_ (pool w') !! 1 = Some (Thread.mk 1)
    /\ threads_ (pool w') !! 2 = None
    /\ curThreadSize_ (pool w') = 2
    /\ idleThreadSize_ (pool w') = 2.
Proof.
  destruct (start_fresh 2 (World_init example_tasks)) as (w' & Hs & Hos & Hk & H).
  - reflexivity.
  - reflexivity.
  - unfold is_int, INT32_MIN, INT32_MAX. lia.
  - unfold is_int, INT32_MIN, INT32_MAX. simpl. lia.
  - exists w'. destruct_and!.
    split; [exact Hs |]. split; [exact Hos |].
    split; [exact (Hk 1) |]. split; [exact (Hk 2) |].
    split; [done | done].
Defined.

(** X6. [start(n)] has undefined behaviour exactly when [n > 0] and either
    the id counter would overflow, or some id [k < n] that was handed out
    before is no longer registered: [threads_[k]] then yields a null pointer,
    which [->start()] dereferences.  The second case arises when a thread
    created by a submission in Cached mode has returned before [start] is
    called. *)
Theorem start_undefined_iff (n : Z) (w : World) :
  0 <= generateId_ w ->
  start n w = None
  <-> 0 < n
      /\ (INT32_MAX < generateId_ w + n
          \/ exists k, 0 <= k < n /\ k < generateId_ w
                       /\ threads_ (pool w) !! k = None).
Proof.
  intros Hg. unfold start. cbv zeta.
  set (w3 := upd_pool _ (upd_pool _ (upd_pool _ w))).
  change (initThreadSize_ (pool w3)) with n.
  destruct (decide (0 < n)) as [Hn | Hn].
  2: { replace (Z.to_nat n) with 0%nat by lia. simpl.
       replace (Z.to_nat n) with 0%nat by lia. simpl.
       split; [done | lia]. }
  destruct (decide (generateId_ w + n <= INT32_MAX)) as [Hov | Hov].
  2: { rewrite start_create_overflow; [| lia | simpl; lia]. simpl.
       split; [| done]. intros _. split; [done |]. left. lia. }
  destruct (start_create_spec (Z.to_nat n) w3) as (w4 & Hc & Hg4 & Hreg4).
  { simpl. lia. }
  rewrite Hc. cbn [mbind option_bind].
  destruct (start_create_frame _ _ _ Hc) as (_ & _ & _ & Cinit & _).
  replace (initThreadSize_ (pool w4)) with n by (by rewrite Cinit).
  rewrite start_run_defined. split.
  - intros (k & Hk & Hnone). split; [done |]. right. exists k.
    rewrite Hreg4 in Hnone. simpl in Hnone.
    destruct (threads_ (pool w) !! k) eqn:Hwk; [done |].
    case_decide; [done |]. split; [lia |]. split; [lia | done].
  - intros (_ & [? | (k & Hk & Hkg & Hnone)]); [lia |].
    exists k. split; [lia |]. rewrite Hreg4. simpl. rewrite Hnone.
    case_decide; [lia | done].
Qed.

Lemma start_undefined_iff_witness :
  let w := after [CallSetMode MODE_CACHED; CallSubmitTask (Some 0%nat) 5%nat;
                  WorkerEnter 0 0; WorkerLock 0; WorkerExec 0; WorkerIdle 0 1;
                  WorkerLock 0]
             (World_init example_tasks) in
  generateId_ w = 1
  /\ threads_ (pool w) !! 0 = None
  /\ dtor w = Alive
  /\ start 1 w = None.
Proof.
  cbv zeta.
  split; [reflexivity |]. split; [reflexivity |]. split; [reflexivity |].
  apply start_undefined_iff; [by vm_compute |].
  split; [lia |]. right. exists 0.
  split; [lia |]. split; [by vm_compute | reflexivity].
Defined.

(** ** The cases of a step *)

(** What a step of a thread inside [threadFunc] is. *)
Lemma worker_step_inv e w w' :
  worker_step e w = Some w' ->
  exists i th,
    event_thread e = Some i /\ os_threads w !! i = Some th
    /\ ((exists now, pc th = Entry /\ w' = threadFunc_enter i now w)
        \/ (exists lt,
              (pc th = AtLoop lt \/ (exists b, pc th = InWaitFor lt b)
               \/ exists b, pc th = InWait lt b)
              /\ w' = threadFunc_check i (threadid th) lt w)
        \/ (exists lt b now,
              pc th = InWaitFor lt b
              /\ reclaim_cond now lt (pool w) = true
              /\ w' = threadFunc_timeout i (threadid th) lt now w)
        \/ (exists task lt,
              pc th = Holding task lt /\ threadFunc_exec i task lt w = Some w')
        \/ (exists lt now, pc th = Executed lt /\ w' = threadFunc_idle i now w)).
Proof.
  destruct e; simpl; try discriminate;
    destruct (os_threads w !! i) as [th |] eqn:Hth; simpl; try discriminate;
    destruct (pc th) eqn:Hpc; try discriminate; intros H;
    exists i, th; (split; [done |]); (split; [done |]).
  - injection H as <-. left. by exists now.
  - injection H as <-. right. left. exists lastTime. split; [by left | done].
  - destruct (spurious || notified); [| discriminate]. injection H as <-.
    right. left. exists lastTime. split; [right; left; by eexists | done].
  - destruct (spurious || notified); [| discriminate]. injection H as <-.
    right. left. exists lastTime. split; [right; right; by eexists | done].
  - injection H as <-.
    destruct (reclaim_cond now lastTime (pool w)) eqn:Hrc.
    + right. right. left. by exists lastTime, notified, now.
    + right. left. exists lastTime. split; [right; left; by eexists |].
      unfold threadFunc_timeout. by rewrite Hrc.
  - right. right. right. left. by exists task, lastTime.
  - injection H as <-. do 4 right. by exists lastTime, now.
Qed.

Lemma Result_ctor_inv r sp valid w w' :
  Result_ctor r sp valid w = Some w' ->
  exists t tk,
    sp = Some t /\ tasks w !! t = Some tk /\ results w !! r = None
    /\ w' = set_results (<[r := Result.init t valid]> (results w))
              (set_tasks (<[t := Task.setResult r tk]> (tasks w)) w).
Proof.
  unfold Result_ctor. destruct sp as [t |]; simpl; [| discriminate].
  destruct (tasks w !! t) as [tk |] eqn:Ht; simpl; [| discriminate].
  destruct (results w !! r) eqn:Hr; [discriminate |].
  intros [= <-]. by exists t, tk.
Qed.

(** What a call of [submitTask] is, once [wait_for] has returned. *)
Lemma submitTask_locked_inv ok sp r w w' :
  submitTask_locked ok sp r w = Some w' ->
  exists w4,
    Result_ctor r sp ok w4 = Some w'
    /\ ((ok = false /\ w4 = w)
        \/ (ok = true
            /\ exists w3,
                 pool w3 = set_taskSize_ (wrap_int (taskSize_ (pool w) + 1))
                             (set_taskQue_ (taskQue_ (pool w) ++ [sp]) (pool w))
                 /\ os_threads w3
                    = map (fun th => mkOs (threadid th) (notify_pc (pc th)))
                        (os_threads w)
                 /\ generateId_ w3 = generateId_ w
                 /\ tasks w3 = tasks w /\ results w3 = results w
                 /\ dtor w3 = dtor w
                 /\ ((grow_cond (pool w3) = false /\ w4 = w3)
                     \/ (grow_cond (pool w3) = true
                         /\ submitTask_grow w3 = Some w4)))).
Proof.
  unfold submitTask_locked. destruct ok; cbn [negb]; cbv zeta.
  - set (w3 := notEmpty_notify_all _).
    destruct (grow_cond (pool w3)) eqn:Hg.
    + destruct (submitTask_grow w3) as [w4 |] eqn:Hgrow; [| by intros ?].
      simpl. intros H. exists w4. split; [done |]. right. split; [done |].
      exists w3. repeat (split; [done |]). by right.
    + simpl. intros H. exists w3. split; [done |]. right. split; [done |].
      exists w3. repeat (split; [done |]). by left.
  - intros H. exists w. split; [done |]. by left.
Qed.

(** ** The idle count *)

Lemma wrap_int_idem z : wrap_int (wrap_int z) = wrap_int z.
Proof. apply wrap_int_id, wrap_int_is_int. Qed.

Lemma wrap_int_congr a a' b :
  wrap_int a = wrap_int a' -> wrap_int (a + b) = wrap_int (a' + b).
Proof.
  intros H. by rewrite <- (wrap_int_add a), <- (wrap_int_add a'), H.
Qed.

Lemma busy_alter (l : list OsThread) i th c :
  l !! i = Some th ->
  Z.of_nat (length (filter (fun th => busy_pc (pc th) = true)
                      (alter (fun th => mkOs (threadid th) c) i l)))
  + b2z (busy_pc (pc th))
  = Z.of_nat (length (filter (fun th => busy_pc (pc th) = true) l))
    + b2z (busy_pc c).
Proof.
  revert i. induction l as [| a l IH]; intros i H; [done |].
  destruct i as [| i]; simpl in H.
  - injection H as ->.
    change (alter (fun th => mkOs (threadid th) c) 0%nat (th :: l))
      with (mkOs (threadid th) c :: l).
    rewrite !filter_cons. cbn [pc].
    destruct (busy_pc (pc th)), (busy_pc c); repeat case_decide;
      cbn [length b2z]; try done; lia.
  - specialize (IH _ H).
    change (alter (fun th => mkOs (threadid th) c) (S i) (a :: l))
      with (a :: alter (fun th => mkOs (threadid th) c) i l).
    rewrite !filter_cons.
    case_decide; cbn [length]; lia.
Qed.

Lemma busy_notify (l : list OsThread) :
  length (filter (fun th => busy_pc (pc th) = true)
            (map (fun th => mkOs (threadid th) (notify_pc (pc th))) l))
  = length (filter (fun th => busy_pc (pc th) = true) l).
Proof.
  induction l as [| a l IH]; simpl; [done |].
  rewrite !filter_cons. simpl.
  assert (E : busy_pc (notify_pc (pc a)) = busy_pc (pc a))
    by (by destruct (pc a)).
  rewrite E. case_decide; simpl; by rewrite IH.
Qed.

Lemma busy_app_entry (l new : list OsThread) :
  Forall (fun th => pc th = Entry) new ->
  length (filter (fun th => busy_pc (pc th) = true) (l ++ new))
  = length (filter (fun th => busy_pc (pc th) = true) l).
Proof.
  intros Hnew. rewrite filter_app, length_app.
  assert (E : filter (fun th => busy_pc (pc th) = true) new = []).
  { induction Hnew as [| a new Ha _ IH]; [done |].
    rewrite filter_cons, Ha. simpl. exact IH. }
  rewrite E. simpl. lia.
Qed.

(** The invariant under a step of the thread at [i]: [d] is added to the
    idle count and [g] to the current count. *)
Lemma idle_inv_alter w w' i th c d g :
  idle_inv w ->
  os_threads w !! i = Some th ->
  os_threads w' = alter (fun th => mkOs (threadid th) c) i (os_threads w) ->
  wrap_int (idleThreadSize_ (pool w')) = wrap_int (idleThreadSize_ (pool w) + d) ->
  wrap_int (curThreadSize_ (pool w')) = wrap_int (curThreadSize_ (pool w) + g) ->
  d + b2z (busy_pc c) = g + b2z (busy_pc (pc th)) ->
  idle_inv w'.
Proof.
  unfold idle_inv, busy. intros Hinv Hth Hos Hidle Hcur Hd.
  pose proof (busy_alter _ _ _ c Hth) as Hb. rewrite <- Hos in Hb.
  rewrite Hcur, <- (wrap_int_congr _ _ g Hinv).
  rewrite <- wrap_int_add, Hidle, wrap_int_add. f_equal. lia.
Qed.

(** The invariant under a step that leaves the busy threads as they are. *)
Lemma idle_inv_ext w w' d :
  idle_inv w ->
  busy w' = busy w ->
  wrap_int (idleThreadSize_ (pool w')) = wrap_int (idleThreadSize_ (pool w) + d) ->
  wrap_int (curThreadSize_ (pool w')) = wrap_int (curThreadSize_ (pool w) + d) ->
  idle_inv w'.
Proof.
  unfold idle_inv. intros Hinv Hb Hidle Hcur.
  rewrite Hb, Hcur, <- (wrap_int_congr _ _ d Hinv).
  rewrite <- wrap_int_add, Hidle, wrap_int_add. f_equal. lia.
Qed.

Lemma threadFunc_check_idle i lt w th :
  os_threads w !! i = Some th -> busy_pc (pc th) = false ->
  idle_inv w -> idle_inv (threadFunc_check i (threadid th) lt w).
Proof.
  intros Hth Hb Hinv. unfold threadFunc_check.
  destruct (taskQue_ (pool w)) as [| task rest].
  - destruct (isPoolRunning_ (pool w)); simpl.
    + destruct (PoolMode_eqb _ _);
        (eapply (idle_inv_alter w _ i th _ 0 0); [done | done | done | ..];
         simpl; rewrite ?Z.add_0_r, ?Hb; done).
    + eapply (idle_inv_alter w _ i th Exited 0 0); [done | done | ..].
      * unfold exitCond_notify_all. simpl. by destruct (dtor w).
      * unfold exitCond_notify_all. simpl. rewrite Z.add_0_r.
        by destruct (dtor w).
      * unfold exitCond_notify_all. simpl. rewrite Z.add_0_r.
        by destruct (dtor w).
      * by rewrite Hb.
  - eapply (idle_inv_alter w _ i th (Holding task lt) (-1) 0);
      [done | done | done | ..]; simpl.
    + by rewrite wrap_int_idem.
    + by rewrite Z.add_0_r.
    + by rewrite Hb.
Qed.

Lemma worker_step_idle e w w' :
  worker_step e w = Some w' -> idle_inv w -> idle_inv w'.
Proof.
  intros H Hinv.
  destruct (worker_step_inv _ _ _ H) as (i & th & _ & Hth & Hcase).
  destruct Hcase as [(now & Hpc & ->) | [(lt & Hpc & ->) |
    [(lt & b & now & Hpc & Hrc & ->) | [(task & lt & Hpc & Hx) |
    (lt & now & Hpc & ->)]]]].
  - eapply (idle_inv_alter w _ i th (AtLoop now) 0 0);
      [done | done | done | ..]; simpl; rewrite ?Z.add_0_r, ?Hpc; done.
  - apply threadFunc_check_idle; [done | | done].
    destruct Hpc as [-> | [(b & ->) | (b & ->)]]; done.
  - unfold threadFunc_timeout. rewrite Hrc.
    eapply (idle_inv_alter w _ i th Exited (-1) (-1));
      [done | done | done | ..]; simpl; rewrite ?wrap_int_idem, ?Hpc; done.
  - unfold threadFunc_exec in Hx.
    assert (Hw1 : exists w1, pool w1 = pool w /\ os_threads w1 = os_threads w
                             /\ w' = set_pc i (Executed lt) w1).
    { destruct task as [t |]; simpl in Hx.
      - destruct (Task_exec t w) as [w1 |] eqn:Hx1; simpl in Hx; [| done].
        injection Hx as <-. apply Task_exec_frame in Hx1 as (Hp & Hos & _).
        by exists w1.
      - injection Hx as <-. by exists w. }
    destruct Hw1 as (w1 & Hp & Hos & ->).
    eapply (idle_inv_alter w _ i th (Executed lt) 0 0);
      [done | done | | ..]; simpl; rewrite ?Hp, ?Hos, ?Z.add_0_r, ?Hpc; done.
  - eapply (idle_inv_alter w _ i th (AtLoop now) 1 0);
      [done | done | done | ..]; simpl;
      rewrite ?wrap_int_idem, ?Z.add_0_r, ?Hpc; done.
Qed.

Lemma submitTask_locked_idle ok sp r w w' :
  submitTask_locked ok sp r w = Some w' -> idle_inv w -> idle_inv w'.
Proof.
  intros H Hinv.
  destruct (submitTask_locked_inv _ _ _ _ _ H) as (w4 & Hr & Hcase).
  apply Result_ctor_frame in Hr as (Hp & Hos & _).
  destruct Hcase as [(_ & ->) | (_ & w3 & Hp3 & Hos3 & _ & _ & _ & _ & Hg)].
  - apply (idle_inv_ext w _ 0); [done | | |];
      unfold busy; rewrite ?Hp, ?Hos, ?Z.add_0_r; done.
  - assert (H3 : idle_inv w3).
    { apply (idle_inv_ext w _ 0); [done | | |].
      - unfold busy. rewrite Hos3. apply busy_notify.
      - by rewrite Hp3, Z.add_0_r.
      - by rewrite Hp3, Z.add_0_r. }
    destruct Hg as [(_ & ->) | (_ & Hgrow)].
    + apply (idle_inv_ext w3 _ 0); [done | | |];
        unfold busy; rewrite ?Hp, ?Hos, ?Z.add_0_r; done.
    + apply submitTask_grow_spec in Hgrow
        as (th & _ & _ & Hos4 & _ & Hcur & Hidle & _).
      apply (idle_inv_ext w3 _ 1); [done | | |].
      * unfold busy. rewrite Hos, Hos4. apply busy_app_entry.
        by repeat constructor.
      * by rewrite Hp, Hidle, wrap_int_idem.
      * by rewrite Hp, Hcur, wrap_int_idem.
Qed.

Lemma step_idle e w w' :
  step e w = Some w' -> not_start e = true -> idle_inv w -> idle_inv w'.
Proof.
  intros H Hns Hinv.
  destruct (step_cases _ _ _ H)
    as [(_ & Hs) | [(_ & _ & Hs) | [(_ & _ & Hs) | (_ & _ & _ & Hs)]]].
  - apply result_step_frame in Hs as (Hp & Hos & _).
    apply (idle_inv_ext w _ 0); [done | | |];
      unfold busy; rewrite ?Hp, ?Hos, ?Z.add_0_r; done.
  - by eapply worker_step_idle.
  - destruct e; simpl in Hs; try discriminate.
    + injection Hs as <-. destruct (setMode_frame mode (pool w)); destruct_and!.
      apply (idle_inv_ext w _ 0); [done | done | |]; simpl;
        rewrite ?Z.add_0_r; congruence.
    + destruct (is_intb threshhold); [| discriminate]. injection Hs as <-.
      destruct (setTaskQueMaxThreshHold_frame threshhold (pool w)); destruct_and!.
      apply (idle_inv_ext w _ 0); [done | done | |]; simpl;
        rewrite ?Z.add_0_r; congruence.
    + destruct (is_intb threshhold); [| discriminate]. injection Hs as <-.
      destruct (setThreadSizeThreshHold_frame threshhold (pool w)); destruct_and!.
      apply (idle_inv_ext w _ 0); [done | done | |]; simpl;
        rewrite ?Z.add_0_r; congruence.
    + unfold submitTask in Hs. rewrite wait_for_nil in Hs.
      by eapply submitTask_locked_idle.
    + injection Hs as <-.
      apply (idle_inv_ext w _ 0); [done | done | |]; simpl;
        by rewrite ?Z.add_0_r.
  - pose proof (dtor_step_frame _ _ _ Hs) as (Hp & _).
    apply dtor_step_threads in Hs as (_ & Hos).
    apply (idle_inv_ext w _ 0); [done | | |]; rewrite ?Hp, ?Z.add_0_r; try done.
    unfold busy. destruct Hos as [-> | ->]; [done | apply busy_notify].
Qed.

Lemma start_run_idle n i w w' :
  start_run n i w = Some w' ->
  wrap_int (idleThreadSize_ (pool w'))
  = wrap_int (idleThreadSize_ (pool w) + Z.of_nat n).
Proof.
  revert i w. induction n as [| n IH]; intros i w; cbn [start_run].
  - intros [= <-]. by rewrite Z.add_0_r.
  - destruct (threads_ (pool w) !! i) as [th |]; simpl; [| discriminate].
    intros H. apply IH in H. rewrite H. simpl.
    rewrite wrap_int_add. f_equal. lia.
Qed.

Lemma start_idle n w w' :
  idle_inv w -> curThreadSize_ (pool w) = 0 -> 0 <= n ->
  start n w = Some w' -> idle_inv w'.
Proof.
  intros Hinv Hcur Hn H.
  destruct (start_threads _ _ _ H) as (new & Hos & Hnew).
  destruct (start_frame _ _ _ H) as (_ & _ & _ & Hcur' & _).
  unfold start in H. cbv zeta in H.
  destruct (start_create _ _) as [w4 |] eqn:Hc; simpl in H; [| done].
  destruct (start_create_frame _ _ _ Hc) as (_ & _ & _ & Hi4 & _ & Hidle4 & _).
  simpl in Hi4, Hidle4. rewrite Hi4 in H. apply start_run_idle in H.
  rewrite Hidle4, Z2Nat.id in H by done.
  unfold idle_inv in *. rewrite Hcur in Hinv.
  unfold busy. rewrite Hos, busy_app_entry by done. fold (busy w).
  rewrite Hcur', <- wrap_int_add, H, wrap_int_add.
  replace (idleThreadSize_ (pool w) + n + Z.of_nat (busy w))
    with (idleThreadSize_ (pool w) + Z.of_nat (busy w) + n) by lia.
  rewrite (wrap_int_congr _ _ n Hinv). done.
Qed.

(** X7. [idleThreadSize_] counts the threads of [curThreadSize_] that are
    not between taking a task and the [idleThreadSize_++] that follows its
    execution (modulo 2^32, as the counters are atomic [int]s): this holds in
    a program from the construction of the pool on, along every run without
    [start], and [start(n)] with [n >= 0] keeps it when it is called while
    [curThreadSize_] is 0. *)
Theorem idle_count_accounting (w w' : World) (evs : list Event) :
  idle_inv w ->
  forallb not_start evs = true ->
  run evs w = Some w' ->
  idle_inv w'
  /\ forall n w'',
       curThreadSize_ (pool w') = 0 -> 0 <= n ->
       step (CallStart n) w' = Some w'' -> idle_inv w''.
Proof.
  intros Hinv Hns Hrun.
  assert (Hinv' : idle_inv w').
  { revert w Hinv Hns Hrun. induction evs as [| e evs IH]; intros w Hinv Hns.
    - by intros [= <-].
    - simpl in Hns. apply andb_true_iff in Hns as [He Hns].
      cbn [run]. destruct (step e w) as [w1 |] eqn:Hs; simpl; [| done].
      intros Hrun. eapply IH; [| done | done]. by eapply step_idle. }
  split; [done |]. intros n w'' Hcur Hn Hs.
  apply step_cases in Hs
    as [(Hr & _) | [(_ & Hw & _) | [(_ & _ & Hs) | (_ & _ & _ & Hs)]]];
    try done.
  simpl in Hs. destruct (is_intb n); [| done]. by eapply start_idle.
Qed.

Lemma idle_count_accounting_witness :
  let w := World_init example_tasks in
  let w1 := after [CallStart 2] w in
  let evs := [CallSubmitTask (Some 0%nat) 5%nat; WorkerEnter 0 0;
              WorkerLock 0; WorkerEnter 1 0; WorkerLock 1] in
  idle_inv w /\ idle_inv w1 /\ idle_inv (after evs w1)
  /\ curThreadSize_ (pool (after evs w1)) = 2
  /\ idleThreadSize_ (pool (after evs w1)) = 1
  /\ busy (after evs w1) = 1%nat.
Proof.
  cbv zeta.
  assert (H0 : idle_inv (World_init example_tasks)) by reflexivity.
  destruct (idle_count_accounting (World_init example_tasks)
              (World_init example_tasks) [] H0 eq_refl eq_refl) as (_ & Hstart).
  assert (H1 : idle_inv (after [CallStart 2] (World_init example_tasks))).
  { apply (Hstart 2); [by vm_compute | lia | by vm_compute]. }
  split; [exact H0 |]. split; [exact H1 |].
  split; [| by vm_compute].
  refine (proj1 (idle_count_accounting _ _
                   [CallSubmitTask (Some 0%nat) 5%nat; WorkerEnter 0 0;
                    WorkerLock 0; WorkerEnter 1 0; WorkerLock 1]
                   H1 eq_refl _)).
  by vm_compute.
Defined.

(** ** How a step changes the registry *)

Lemma worker_step_registry e w w' :
  worker_step e w = Some w' ->
  (threads_ (pool w') = threads_ (pool w)
   /\ curThreadSize_ (pool w') = curThreadSize_ (pool w))
  \/ exists i th,
       os_threads w !! i = Some th /\ live th = true
       /\ threads_ (pool w') = delete (threadid th) (threads_ (pool w))
       /\ ((isPoolRunning_ (pool w) = false
            /\ curThreadSize_ (pool w') = curThreadSize_ (pool w))
           \/ (exists lt b,
                 pc th = InWaitFor lt b
                 /\ initThreadSize_ (pool w) < curThreadSize_ (pool w)
                 /\ curThreadSize_ (pool w')
                    = wrap_int (curThreadSize_ (pool w) - 1))).
Proof.
  intros H.
  destruct (worker_step_inv _ _ _ H) as (i & th & _ & Hth & Hcase).
  destruct Hcase as [(now & Hpc & ->) | [(lt & Hpc & ->) |
    [(lt & b & now & Hpc & Hrc & ->) | [(task & lt & Hpc & Hx) |
    (lt & now & Hpc & ->)]]]].
  - by left.
  - assert (Hlive : live th = true).
    { unfold live. by destruct Hpc as [-> | [(b & ->) | (b & ->)]]. }
    unfold threadFunc_check.
    destruct (taskQue_ (pool w)); [| by left].
    destruct (isPoolRunning_ (pool w)) eqn:Hrun; simpl.
    + destruct (PoolMode_eqb _ _); by left.
    + right. exists i, th. split; [done |]. split; [done |].
      unfold exitCond_notify_all. simpl.
      split; [by destruct (dtor w) |]. left. by destruct (dtor w).
  - right. exists i, th. split; [done |].
    split; [unfold live; by rewrite Hpc |].
    unfold threadFunc_timeout. rewrite Hrc. simpl. split; [done |].
    right. exists lt, b. apply reclaim_cond_spec in Hrc as [_ Hrc]. done.
  - left. unfold threadFunc_exec in Hx.
    destruct task as [t |]; simpl in Hx.
    + destruct (Task_exec t w) as [w1 |] eqn:Hx1; simpl in Hx; [| done].
      injection Hx as <-. apply Task_exec_frame in Hx1 as (Hp & _).
      simpl. by rewrite Hp.
    + by injection Hx as <-.
  - by left.
Qed.

Lemma submitTask_locked_registry ok sp r w w' :
  submitTask_locked ok sp r w = Some w' ->
  (threads_ (pool w') = threads_ (pool w)
   /\ curThreadSize_ (pool w') = curThreadSize_ (pool w)
   /\ generateId_ w' = generateId_ w
   /\ (os_threads w' = os_threads w
       \/ os_threads w'
          = map (fun th => mkOs (threadid th) (notify_pc (pc th))) (os_threads w)))
  \/ (poolMode_ (pool w) = MODE_CACHED
      /\ curThreadSize_ (pool w) < threadSizeThreshHold_ (pool w)
      /\ threads_ (pool w')
         = emplace (generateId_ w) (Thread.mk (generateId_ w)) (threads_ (pool w))
      /\ generateId_ w' = generateId_ w + 1
      /\ curThreadSize_ (pool w') = wrap_int (curThreadSize_ (pool w) + 1)
      /\ exists th,
           threads_ (pool w') !! generateId_ w = Some th
           /\ os_threads w'
              = map (fun th => mkOs (threadid th) (notify_pc (pc th)))
                  (os_threads w)
                ++ [mkOs (Thread.threadId_ th) Entry]).
Proof.
  intros H.
  destruct (submitTask_locked_inv _ _ _ _ _ H) as (w4 & Hr & Hcase).
  apply Result_ctor_frame in Hr as (Hp & Hos & Hgen & _).
  rewrite Hp, Hos, Hgen.
  destruct Hcase as [(_ & ->) | (_ & w3 & Hp3 & Hos3 & Hg3 & _ & _ & _ & Hg)].
  - left. repeat (split; [done |]). by left.
  - destruct Hg as [(_ & ->) | (Hgc & Hgrow)].
    + left. rewrite Hp3, Hos3, Hg3. repeat (split; [done |]). by right.
    + right. apply grow_cond_spec in Hgc as (Hm & _ & Hlt).
      rewrite Hp3 in Hm, Hlt. simpl in Hm, Hlt.
      apply submitTask_grow_spec in Hgrow
        as (th & Hth & Hreg & Hos4 & Hg4 & Hcur & _).
      rewrite Hp3, Hg3 in *. simpl in *.
      repeat (split; [done |]). exists th. split; [done |].
      by rewrite Hos4, Hos3.
Qed.

Lemma client_step_registry e w w' :
  client_step e w = Some w' -> not_start e = true ->
  (threads_ (pool w') = threads_ (pool w)
   /\ curThreadSize_ (pool w') = curThreadSize_ (pool w)
   /\ generateId_ w' = generateId_ w
   /\ (os_threads w' = os_threads w
       \/ os_threads w'
          = map (fun th => mkOs (threadid th) (notify_pc (pc th))) (os_threads w)))
  \/ (poolMode_ (pool w) = MODE_CACHED
      /\ curThreadSize_ (pool w) < threadSizeThreshHold_ (pool w)
      /\ threads_ (pool w')
         = emplace (generateId_ w) (Thread.mk (generateId_ w)) (threads_ (pool w))
      /\ generateId_ w' = generateId_ w + 1
      /\ curThreadSize_ (pool w') = wrap_int (curThreadSize_ (pool w) + 1)
      /\ exists th,
           threads_ (pool w') !! generateId_ w = Some th
           /\ os_threads w'
              = map (fun th => mkOs (threadid th) (notify_pc (pc th)))
                  (os_threads w)
                ++ [mkOs (Thread.threadId_ th) Entry]).
Proof.
  intros Hs Hns. destruct e; simpl in Hs; try discriminate.
  - injection Hs as <-. left.
    destruct (setMode_frame mode (pool w)) as (? & _ & _ & ? & _).
    repeat (split; [done |]). by left.
  - destruct (is_intb threshhold); [| discriminate]. injection Hs as <-. left.
    destruct (setTaskQueMaxThreshHold_frame threshhold (pool w))
      as (? & _ & _ & ? & _).
    repeat (split; [done |]). by left.
  - destruct (is_intb threshhold); [| discriminate]. injection Hs as <-. left.
    destruct (setThreadSizeThreshHold_frame threshhold (pool w))
      as (? & _ & ? & _).
    repeat (split; [done |]). by left.
  - unfold submitTask in Hs. rewrite wait_for_nil in Hs.
    by eapply submitTask_locked_registry.
  - injection Hs as <-. left. repeat (split; [done |]). by left.
Qed.

(** ** [curThreadSize_] is the size of the registry *)

Lemma start_create_size n w w' :
  start_create n w = Some w' ->
  (forall k, is_Some (threads_ (pool w) !! k) -> k < generateId_ w) ->
  size (threads_ (pool w')) = (size (threads_ (pool w)) + n)%nat.
Proof.
  revert w. induction n as [| n IH]; intros w; cbn [start_create].
  - intros [= <-] _. lia.
  - rewrite Thread_ctor_spec.
    destruct (generateId_ w <? INT32_MAX); [| discriminate].
    cbn [mbind option_bind Thread.getId Thread.threadId_].
    intros H Hkeys.
    assert (Hfresh : threads_ (pool w) !! generateId_ w = None).
    { destruct (threads_ (pool w) !! generateId_ w) eqn:E; [| done].
      assert (generateId_ w < generateId_ w) by (apply Hkeys; by eexists).
      lia. }
    apply IH in H.
    + rewrite H. simpl. unfold emplace. rewrite Hfresh.
      rewrite map_size_insert_None by done. lia.
    + intros k. simpl. unfold emplace. rewrite Hfresh.
      destruct (decide (k = generateId_ w)) as [-> | Hne]; [lia |].
      rewrite lookup_insert_ne by done. intros Hk. apply Hkeys in Hk. lia.
Qed.

Lemma step_count e w w' :
  step e w = Some w' ->
  not_start e = true -> not_destroy e = true ->
  started_inv w -> registry_wf w -> dtor w = Alive -> count_inv w ->
  count_inv w' /\ dtor w' = Alive.
Proof.
  intros H Hns Hnd Hst Hwf Hd Hc.
  destruct Hst as (Hinit & Hthr & Hcur & _ & Hrun). specialize (Hrun Hd).
  destruct Hwf as (Hwf1 & Hwf2 & _).
  unfold count_inv in *.
  destruct (step_cases _ _ _ H)
    as [(_ & Hs) | [(_ & _ & Hs) | [(_ & _ & Hs) | (Hd' & _)]]];
    [| | | done].
  - apply result_step_frame in Hs as (Hp & _ & _ & _ & Hd' & _).
    by rewrite Hp, Hd'.
  - split.
    + destruct (worker_step_registry _ _ _ Hs)
        as [(-> & ->) | (i & th & Hth & Hlive & -> & Hcase)]; [done |].
      destruct Hcase as [(Hr & _) | (lt & b & _ & Hlt & ->)]; [congruence |].
      rewrite map_size_delete_Some by (by eapply Hwf2).
      assert (Hne : size (threads_ (pool w)) <> 0%nat).
      { apply map_size_ne_0_lookup. eexists. by eapply Hwf2. }
      rewrite wrap_int_id by (unfold is_int, INT32_MIN, INT32_MAX in *; lia).
      lia.
    + apply worker_step_config in Hs as (_ & _ & _ & _ & _ & _ & _ & Hd').
      destruct Hd' as [-> | (b & Hb & _)]; congruence.
  - split.
    + destruct (client_step_registry _ _ _ Hs Hns)
        as [(-> & -> & _) | (_ & Hlt & -> & _ & -> & _)]; [done |].
      assert (Hfresh : threads_ (pool w) !! generateId_ w = None).
      { destruct (threads_ (pool w) !! generateId_ w) eqn:E; [| done].
        apply Hwf1 in E as [_ E]. lia. }
      unfold emplace. rewrite Hfresh, map_size_insert_None by done.
      rewrite wrap_int_id by (unfold is_int, INT32_MIN, INT32_MAX in *; lia).
      lia.
    + destruct e; simpl in Hs; try discriminate.
      * by injection Hs as <-.
      * destruct (is_intb threshhold); [| discriminate]. by injection Hs as <-.
      * destruct (is_intb threshhold); [| discriminate]. by injection Hs as <-.
      * unfold submitTask in Hs. rewrite wait_for_nil in Hs.
        apply submitTask_locked_counters in Hs as (_ & _ & _ & _ & -> & _).
        done.
Qed.

(** X8. After [start(n)] with [n >= 0] in a program that has created no
    thread before, [curThreadSize_] is the number of thread objects in
    [threads_] in every state reached without a second [start] and before the
    destructor is entered. *)
Theorem thread_count_is_registry_size (w0 w1 w' : World) (n : Z)
    (evs : list Event) :
  generateId_ w0 = 0 ->
  threads_ (pool w0) = ∅ ->
  os_threads w0 = [] ->
  is_int (threadSizeThreshHold_ (pool w0)) ->
  0 <= n ->
  step (CallStart n) w0 = Some w1 ->
  forallb not_start evs = true ->
  forallb not_destroy evs = true ->
  run evs w1 = Some w' ->
  curThreadSize_ (pool w') = Z.of_nat (size (threads_ (pool w')))
  /\ dtor w' = Alive.
Proof.
  intros Hg Hreg Hos Hthr Hn Hs Hns Hnd Hrun.
  assert (Hwf0 : registry_wf w0).
  { unfold registry_wf, registry_wf_parts. rewrite Hreg, Hos.
    split; [intros k th; by rewrite lookup_empty |].
    split; intros *; by rewrite lookup_nil. }
  pose proof (start_started _ _ _ Hthr Hs) as (Hst1 & _ & Hcur1 & _).
  destruct (step_cases _ _ _ Hs)
    as [(Hr & _) | [(_ & Hw & _) | [(Hd0 & _ & Hc) | (_ & _ & _ & Hx)]]];
    try done.
  simpl in Hc. destruct (is_intb n); [| done].
  assert (Hwf1 : registry_wf w1).
  { eapply start_wf; [done | done |]. intros j th. by rewrite Hos, lookup_nil. }
  assert (Hd1 : dtor w1 = Alive).
  { destruct (start_frame _ _ _ Hc) as (_ & _ & _ & _ & _ & _ & _ & _ & _ & _ & Hd).
    congruence. }
  assert (Hc1 : count_inv w1).
  { unfold count_inv. rewrite Hcur1.
    unfold start in Hc. cbv zeta in Hc.
    destruct (start_create _ _) as [w4 |] eqn:Hcr; simpl in Hc; [| done].
    apply start_run_frame in Hc as (-> & _).
    apply start_create_size in Hcr.
    - rewrite Hcr. simpl. rewrite Hreg, map_size_empty. lia.
    - intros k. simpl. rewrite Hreg, lookup_empty. by intros [? ?]. }
  clear Hs Hc Hwf0 Hcur1.
  revert w1 Hst1 Hwf1 Hd1 Hc1 Hns Hnd Hrun.
  induction evs as [| e evs IH]; intros w1 Hst1 Hwf1 Hd1 Hc1 Hns Hnd.
  - by intros [= <-].
  - simpl in Hns, Hnd.
    apply andb_true_iff in Hns as [He Hns].
    apply andb_true_iff in Hnd as [He' Hnd].
    cbn [run]. destruct (step e w1) as [w2 |] eqn:Hs; simpl; [| done].
    destruct (step_count _ _ _ Hs He He' Hst1 Hwf1 Hd1 Hc1) as (Hc2 & Hd2).
    apply IH; try done.
    + by eapply step_started.
    + by eapply step_wf.
Qed.

Lemma thread_count_is_registry_size_witness :
  let w0 := after [CallSetMode MODE_CACHED] (World_init example_tasks) in
  let w1 := after [CallStart 1] w0 in
  let evs := [CallSubmitTask (Some 0%nat) 5%nat;
              CallSubmitTask (Some 1%nat) 6%nat;
              WorkerEnter 0 0; WorkerLock 0; WorkerEnter 1 5; WorkerLock 1;
              WorkerExec 1; WorkerIdle 1 6; WorkerLock 1;
              WorkerTimeout 1 61000000006] in
  curThreadSize_ (pool (after evs w1)) = 1
  /\ curThreadSize_ (pool (after evs w1))
     = Z.of_nat (size (threads_ (pool (after evs w1)))).
Proof.
  cbv zeta. split; [by vm_compute |].
  refine (proj1 (thread_count_is_registry_size
                   (after [CallSetMode MODE_CACHED] (World_init example_tasks))
                   _ _ 1
                   [CallSubmitTask (Some 0%nat) 5%nat;
                    CallSubmitTask (Some 1%nat) 6%nat;
                    WorkerEnter 0 0; WorkerLock 0; WorkerEnter 1 5; WorkerLock 1;
                    WorkerExec 1; WorkerIdle 1 6; WorkerLock 1;
                    WorkerTimeout 1 61000000006]
                   eq_refl eq_refl eq_refl _ _ _ eq_refl eq_refl _)).
  - by vm_compute.
  - lia.
  - by vm_compute.
  - by vm_compute.
Defined.

(** ** A pool in Fixed mode keeps its threads *)

Lemma client_step_init e w w' :
  client_step e w = Some w' -> not_start e = true ->
  initThreadSize_ (pool w') = initThreadSize_ (pool w).
Proof.
  intros Hs Hns. destruct e; simpl in Hs; try discriminate.
  - injection Hs as <-. by destruct (setMode_frame mode (pool w)) as (_ & ? & _).
  - destruct (is_intb threshhold); [| discriminate]. injection Hs as <-.
    by destruct (setTaskQueMaxThreshHold_frame threshhold (pool w)) as (_ & ? & _).
  - destruct (is_intb threshhold); [| discriminate]. injection Hs as <-.
    by destruct (setThreadSizeThreshHold_frame threshhold (pool w)) as (_ & ? & _).
  - unfold submitTask in Hs. rewrite wait_for_nil in Hs.
    by apply submitTask_locked_counters in Hs as (? & _).
  - by injection Hs as <-.
Qed.

Lemma step_fixed_stable e w w' :
  step e w = Some w' ->
  not_start e = true ->
  poolMode_ (pool w) = MODE_FIXED ->
  timed_wait_inv w ->
  (dtor w = Alive -> isPoolRunning_ (pool w) = true) ->
  poolMode_ (pool w') = MODE_FIXED
  /\ (dtor w' = Alive -> isPoolRunning_ (pool w') = true)
  /\ curThreadSize_ (pool w') = curThreadSize_ (pool w)
  /\ initThreadSize_ (pool w') = initThreadSize_ (pool w)
  /\ length (os_threads w') = length (os_threads w)
  /\ (dtor w' = Alive ->
      threads_ (pool w') = threads_ (pool w) /\ dtor w = Alive).
Proof.
  intros H Hns Hm Htw Hrun.
  destruct (step_cases _ _ _ H)
    as [(_ & Hs) | [(_ & _ & Hs) | [(Hd & _ & Hs) | (Hd & _ & _ & Hs)]]].
  - apply result_step_frame in Hs as (Hp & Hos & _ & _ & Hd' & _).
    rewrite Hp, Hos, Hd'. done.
  - pose proof (worker_step_config _ _ _ Hs)
      as (Hi & _ & _ & Hm' & Hr' & _ & _ & Hd').
    assert (Hal : dtor w' = Alive -> dtor w = Alive).
    { destruct Hd' as [-> | (b & _ & ->)]; done. }
    destruct (worker_step_threads _ _ _ Hs) as (i & c & _ & Hos & _).
    rewrite Hm', Hr', Hi, Hos, length_alter.
    split; [done |]. split; [auto |].
    destruct (worker_step_registry _ _ _ Hs)
      as [(-> & ->) | (j & th & Hth & _ & _ & Hcase)].
    { split; [done |]. split; [done |]. split; [done |].
      intros Ha. split; [done | auto]. }
    destruct Hcase as [(Hnr & ->) | (lt & b & Hpc & _)].
    + repeat (split; [done |]). intros Ha. specialize (Hrun (Hal Ha)).
      congruence.
    + destruct (Htw _ _ _ _ Hth Hpc) as [Hc _]. congruence.
  - specialize (Hrun Hd).
    destruct (client_step_mode _ _ _ Hs Hrun) as (Hm' & Hr').
    rewrite Hm', (client_step_init _ _ _ Hs Hns).
    split; [done |]. split; [by destruct Hr' |].
    destruct (client_step_registry _ _ _ Hs Hns)
      as [(-> & -> & _ & Hos) | (Hc & _)]; [| congruence].
    repeat (split; [done |]).
    split; [destruct Hos as [-> | ->]; by rewrite ?length_map | done].
  - pose proof (dtor_step_frame _ _ _ Hs) as (Hp & _ & _ & _ & _ & Hd').
    apply dtor_step_threads in Hs as (_ & Hos).
    rewrite Hp. repeat (split; [done |]).
    split; [destruct Hos as [-> | ->]; by rewrite ?length_map | done].
Qed.

(** X9. In Fixed mode, after [start(n)] and without a second [start], the
    pool never creates and never reclaims a thread: along every run, through
    the destructor as well, [curThreadSize_] and [initThreadSize_] stay [n],
    the mode stays Fixed and no thread is started; until the destructor is
    entered the registry [threads_] is the one [start] has built. *)
Theorem fixed_pool_is_stable (w0 w1 w' : World) (n : Z) (evs : list Event) :
  poolMode_ (pool w0) = MODE_FIXED ->
  timed_wait_inv w0 ->
  step (CallStart n) w0 = Some w1 ->
  forallb not_start evs = true ->
  run evs w1 = Some w' ->
  poolMode_ (pool w') = MODE_FIXED
  /\ curThreadSize_ (pool w') = n
  /\ initThreadSize_ (pool w') = n
  /\ length (os_threads w') = length (os_threads w1)
  /\ (dtor w' = Alive -> threads_ (pool w') = threads_ (pool w1)).
Proof.
  intros Hm Htw Hs Hns Hrun.
  pose proof (step_timed_wait _ _ _ Hs Htw) as Htw1.
  destruct (step_cases _ _ _ Hs)
    as [(Hr & _) | [(_ & Hw & _) | [(Hd0 & _ & Hc) | (_ & _ & _ & Hx)]]];
    try done.
  simpl in Hc. destruct (is_intb n); [| done].
  destruct (start_frame _ _ _ Hc)
    as (_ & _ & Hi1 & Hc1 & _ & _ & Hm1 & Hr1 & _).
  rewrite Hm in Hm1. clear Hs Hc Htw Hm Hd0.
  assert (Hr1' : dtor w1 = Alive -> isPoolRunning_ (pool w1) = true) by done.
  clear Hr1.
  cut (poolMode_ (pool w') = MODE_FIXED
       /\ curThreadSize_ (pool w') = curThreadSize_ (pool w1)
       /\ initThreadSize_ (pool w') = initThreadSize_ (pool w1)
       /\ length (os_threads w') = length (os_threads w1)
       /\ (dtor w' = Alive -> threads_ (pool w') = threads_ (pool w1))).
  { by rewrite Hi1, Hc1. }
  clear Hi1 Hc1.
  revert w1 Htw1 Hm1 Hr1' Hrun.
  induction evs as [| e evs IH]; intros w1 Htw1 Hm1 Hr1.
  - by intros [= <-].
  - simpl in Hns. apply andb_true_iff in Hns as [He Hns].
    cbn [run]. destruct (step e w1) as [w2 |] eqn:Hs; simpl; [| done].
    intros Hrun.
    destruct (step_fixed_stable _ _ _ Hs He Hm1 Htw1 Hr1)
      as (Hm2 & Hr2 & Hc2 & Hi2 & Hl2 & Ht2).
    destruct (IH Hns w2) as (? & ? & ? & ? & Hreg); try done.
    { by eapply step_timed_wait. }
    repeat (split; [congruence |]).
    intros Ha. specialize (Hreg Ha).
    assert (Hd2 : dtor w2 = Alive).
    { clear -Hrun Ha Hns. revert w2 Hrun.
      induction evs as [| e' evs IH']; intros w2.
      - intros [= <-]. done.
      - cbn [run]. destruct (step e' w2) as [w3 |] eqn:Hs'; simpl; [| done].
        simpl in Hns. apply andb_true_iff in Hns as [_ Hns].
        intros Hrun. specialize (IH' Hns _ Hrun).
        destruct (step_cases _ _ _ Hs')
          as [(_ & Hx) | [(_ & _ & Hx) | [(Hd & _) | (_ & _ & _ & Hx)]]].
        + apply result_step_frame in Hx as (_ & _ & _ & _ & Hd & _). congruence.
        + apply worker_step_config in Hx as (_ & _ & _ & _ & _ & _ & _ & Hd).
          destruct Hd as [Hd | (b & _ & Hd)]; congruence.
        + done.
        + apply dtor_step_frame in Hx as (_ & _ & _ & _ & _ & Hd). done. }
    destruct (Ht2 Hd2) as [Ht _]. congruence.
Qed.

Lemma fixed_pool_is_stable_witness :
  let w0 := World_init example_tasks in
  let w1 := after [CallStart 2] w0 in
  let evs := [CallSetMode MODE_CACHED; CallSubmitTask (Some 0%nat) 5%nat;
              CallSubmitTask (Some 1%nat) 6%nat; WorkerEnter 0 0;
              WorkerLock 0; WorkerExec 0; WorkerIdle 0 1] in
  poolMode_ (pool (after evs w1)) = MODE_FIXED
  /\ curThreadSize_ (pool (after evs w1)) = 2
  /\ initThreadSize_ (pool (after evs w1)) = 2
  /\ length (os_threads (after evs w1)) = length (os_threads w1)
  /\ threads_ (pool (after evs w1)) = threads_ (pool w1).
Proof.
  cbv zeta.
  destruct (fixed_pool_is_stable (World_init example_tasks)
              (after [CallStart 2] (World_init example_tasks))
              (after [CallSetMode MODE_CACHED; CallSubmitTask (Some 0%nat) 5%nat;
                      CallSubmitTask (Some 1%nat) 6%nat; WorkerEnter 0 0;
                      WorkerLock 0; WorkerExec 0; WorkerIdle 0 1]
                 (after [CallStart 2] (World_init example_tasks)))
              2
              [CallSetMode MODE_CACHED; CallSubmitTask (Some 0%nat) 5%nat;
               CallSubmitTask (Some 1%nat) 6%nat; WorkerEnter 0 0;
               WorkerLock 0; WorkerExec 0; WorkerIdle 0 1])
    as (H1 & H2 & H3 & H4 & H5).
  - reflexivity.
  - apply timed_wait_inv_init.
  - by vm_compute.
  - reflexivity.
  - by vm_compute.
  - split; [exact H1 |]. split; [exact H2 |]. split; [exact H3 |].
    split; [exact H4 |]. apply H5. by vm_compute.
Defined.

(** ** The destructor and the threads *)

(** X10. When [start] is called once, in a program that has created no
    thread before, the destructor returns only after every thread of the
    pool has returned from [threadFunc]. *)
Theorem destructor_returns_after_all_threads (w0 w1 w' : World) (n : Z)
    (evs : list Event) (i : nat) (th : OsThread) :
  generateId_ w0 = 0 ->
  threads_ (pool w0) = ∅ ->
  os_threads w0 = [] ->
  step (CallStart n) w0 = Some w1 ->
  forallb not_start evs = true ->
  run evs w1 = Some w' ->
  dtor w' = Destroyed ->
  os_threads w' !! i = Some th ->
  pc th = Exited.
Proof.
  intros Hg Hreg Hos Hs Hns Hrun Hd Hth.
  assert (Hwf0 : registry_wf w0).
  { unfold registry_wf, registry_wf_parts. rewrite Hreg, Hos.
    split; [intros k th0; by rewrite lookup_empty |].
    split; intros *; by rewrite lookup_nil. }
  destruct (step_cases _ _ _ Hs)
    as [(Hr & _) | [(_ & Hw & _) | [(Hd0 & _ & Hc) | (_ & _ & _ & Hx)]]];
    try done.
  simpl in Hc. destruct (is_intb n); [| done].
  assert (Hwf1 : registry_wf w1).
  { eapply start_wf; [done | done |]. intros j th0. by rewrite Hos, lookup_nil. }
  assert (Hd1 : dtor w1 = Alive).
  { destruct (start_frame _ _ _ Hc) as (_ & _ & _ & _ & _ & _ & _ & _ & _ & _ & Hd').
    congruence. }
  pose proof (run_wf _ _ _ Hrun Hns Hwf1) as Hwf'.
  assert (Hempty : threads_ (pool w') = ∅).
  { eapply run_destroyed; [done | | done]. congruence. }
  pose proof (wf_empty_registry_no_live _ _ _ Hwf' Hempty Hth) as Hl.
  unfold live in Hl. by destruct (pc th).
Qed.

Lemma destructor_returns_after_all_threads_witness :
  let w1 := after [CallStart 1] (World_init example_tasks) in
  let evs := [CallSubmitTask (Some 0%nat) 5%nat; WorkerEnter 0 0; WorkerLock 0;
              CallDestroy; DtorLock; WorkerExec 0; WorkerIdle 0 1;
              WorkerLock 0; DtorWake false] in
  dtor (after evs w1) = Destroyed
  /\ os_threads (after evs w1) !! 0%nat = Some (mkOs 0 Exited)
  /\ pc (mkOs 0 Exited) = Exited.
Proof.
  cbv zeta. split; [by vm_compute |]. split; [by vm_compute |].
  refine (destructor_returns_after_all_threads (World_init example_tasks)
            (after [CallStart 1] (World_init example_tasks))
            (after [CallSubmitTask (Some 0%nat) 5%nat; WorkerEnter 0 0;
                    WorkerLock 0; CallDestroy; DtorLock; WorkerExec 0;
                    WorkerIdle 0 1; WorkerLock 0; DtorWake false]
               (after [CallStart 1] (World_init example_tasks)))
            1
            [CallSubmitTask (Some 0%nat) 5%nat; WorkerEnter 0 0; WorkerLock 0;
             CallDestroy; DtorLock; WorkerExec 0; WorkerIdle 0 1;
             WorkerLock 0; DtorWake false]
            0%nat (mkOs 0 Exited) eq_refl eq_refl eq_refl _ eq_refl _ _ _);
    by vm_compute.
Defined.

(** ** A thread object that no thread owns *)

Lemma notify_lookup_inv (l : list OsThread) i th' :
  map (fun th => mkOs (threadid th) (notify_pc (pc th))) l !! i = Some th' ->
  exists th, l !! i = Some th
             /\ th' = mkOs (threadid th) (notify_pc (pc th)).
Proof.
  revert i. induction l as [| a l IH]; intros [| i]; simpl; try done.
  - intros [= <-]. by exists a.
  - apply IH.
Qed.

Lemma live_notify th :
  live (mkOs (threadid th) (notify_pc (pc th))) = live th.
Proof. unfold live. simpl. by destruct (pc th). Qed.

Lemma worker_step_alter e w w' :
  worker_step e w = Some w' ->
  exists i th c,
    event_thread e = Some i /\ os_threads w !! i = Some th /\ live th = true
    /\ os_threads w' = alter (fun th => mkOs (threadid th) c) i (os_threads w).
Proof.
  intros H.
  destruct (worker_step_inv _ _ _ H) as (i & th & Hev & Hth & Hcase).
  destruct (worker_step_threads _ _ _ H) as (i' & c & Hev' & Hos & _).
  assert (i' = i) as -> by congruence.
  exists i, th, c. repeat (split; [done |]). split; [| done].
  unfold live.
  destruct Hcase as [(now & -> & _) | [(lt & Hpc & _) |
    [(lt & b & now & -> & _) | [(task & lt & -> & _) |
    (lt & now & -> & _)]]]]; try done.
  by destruct Hpc as [-> | [(b & ->) | (b & ->)]].
Qed.

Lemma step_unowned e w w' k :
  step e w = Some w' -> not_start e = true ->
  unowned k w -> unowned k w'.
Proof.
  intros H Hns (Hk & Hwf1 & Hown). unfold unowned.
  assert (Hnotify : forall i th,
            map (fun th => mkOs (threadid th) (notify_pc (pc th))) (os_threads w)
              !! i = Some th ->
            live th = true -> threadid th <> k).
  { intros i th Hth Hl. apply notify_lookup_inv in Hth as (th0 & Hth0 & ->).
    rewrite live_notify in Hl. simpl. by eapply Hown. }
  destruct (step_cases _ _ _ H)
    as [(_ & Hs) | [(_ & _ & Hs) | [(_ & _ & Hs) | (_ & _ & _ & Hs)]]].
  - apply result_step_frame in Hs as (Hp & Hos & Hg & _).
    by rewrite Hp, Hos, Hg.
  - pose proof (worker_step_config _ _ _ Hs) as (_ & _ & _ & _ & _ & Hg & _).
    destruct (worker_step_alter _ _ _ Hs) as (i & th0 & c & _ & Hth0 & Hl0 & Hos).
    rewrite Hg.
    assert (Hown' : forall j th, os_threads w' !! j = Some th ->
                      live th = true -> threadid th <> k).
    { intros j th. rewrite Hos, list_lookup_alter. case_decide as Hij.
      - rewrite Hth0. simpl. intros [= <-] _. simpl. by eapply Hown.
      - apply Hown. }
    destruct (worker_step_registry _ _ _ Hs)
      as [(-> & _) | (j & th & Hth & Hl & -> & _)]; [done |].
    pose proof (Hown _ _ Hth Hl) as Hne.
    split; [by rewrite lookup_delete_ne |].
    split; [| done]. intros key x Hx.
    apply lookup_delete_Some in Hx as [_ Hx]. by apply Hwf1.
  - destruct (client_step_registry _ _ _ Hs Hns)
      as [(-> & _ & -> & Hos) | (_ & _ & -> & -> & _ & th & Hth & ->)].
    + repeat (split; [done |]). by destruct Hos as [-> | ->].
    + assert (Hfresh : threads_ (pool w) !! generateId_ w = None).
      { destruct (threads_ (pool w) !! generateId_ w) eqn:E; [| done].
        apply Hwf1 in E as [_ E]. lia. }
      assert (Hkg : k < generateId_ w).
      { destruct Hk as [x Hx]. by apply Hwf1 in Hx as [_ ?]. }
      unfold emplace in *. rewrite Hfresh in *.
      rewrite lookup_insert_eq in Hth. injection Hth as <-.
      split; [rewrite lookup_insert_ne by lia; done |].
      split.
      * intros key x. destruct (decide (key = generateId_ w)) as [-> | Hne].
        -- rewrite lookup_insert_eq. intros [= <-]. simpl. lia.
        -- rewrite lookup_insert_ne by done. intros Hx.
           apply Hwf1 in Hx as [? ?]. split; [done | lia].
      * intros i x Hx Hl. apply lookup_app_Some in Hx as [Hx | [_ Hx]].
        -- by eapply Hnotify.
        -- destruct (i - _)%nat as [| ?]; simpl in Hx; [| done].
           injection Hx as <-. simpl. lia.
  - pose proof (dtor_step_frame _ _ _ Hs) as (Hp & Hg & _).
    apply dtor_step_threads in Hs as (_ & Hos).
    rewrite Hp, Hg. repeat (split; [done |]).
    by destruct Hos as [-> | ->].
Qed.

(** X11. A thread object in [threads_] that belongs to no thread that has
    not returned is never erased: only its own thread erases an entry, and
    threads created later get other ids.  With such an object the registry
    never becomes empty, so the destructor never returns.  A second call of
    [start] leaves such objects: the thread objects it creates get new ids,
    and it starts the objects registered under [0 .. n-1] once more. *)
Theorem unowned_thread_object_blocks_destructor (w w' : World) (k : Z)
    (evs : list Event) :
  unowned k w ->
  dtor w <> Destroyed ->
  forallb not_start evs = true ->
  run evs w = Some w' ->
  is_Some (threads_ (pool w') !! k) /\ dtor w' <> Destroyed.
Proof.
  intros Hu Hd Hns Hrun.
  assert (Hu' : unowned k w' /\ dtor w' <> Destroyed).
  { revert w Hu Hd Hns Hrun. induction evs as [| e evs IH]; intros w Hu Hd Hns.
    - by intros [= <-].
    - simpl in Hns. apply andb_true_iff in Hns as [He Hns].
      cbn [run]. destruct (step e w) as [w1 |] eqn:Hs; simpl; [| done].
      pose proof (step_unowned _ _ _ _ Hs He Hu) as Hu1.
      apply IH; [done | | done].
      intros Hd1. pose proof (step_destroyed _ _ _ Hs Hd Hd1) as He1.
      destruct Hu1 as ([x Hx] & _). by rewrite He1, lookup_empty in Hx. }
  destruct Hu' as ((? & _) & ?). done.
Qed.

Lemma unowned_thread_object_blocks_destructor_witness :
  let w := after [CallStart 1; CallStart 1] (World_init example_tasks) in
  let evs := [WorkerEnter 0 0; WorkerLock 0; WorkerEnter 1 0; WorkerLock 1;
              CallDestroy; DtorLock; WorkerWake 0 false; WorkerWake 1 false;
              DtorWake true] in
  os_threads w = [mkOs 0 Entry; mkOs 0 Entry]
  /\ os_threads (after evs w) = [mkOs 0 Exited; mkOs 0 Exited]
  /\ is_Some (threads_ (pool (after evs w)) !! 1)
  /\ dtor (after evs w) <> Destroyed.
Proof.
  cbv zeta. split; [by vm_compute |]. split; [by vm_compute |].
  refine (unowned_thread_object_blocks_destructor
            (after [CallStart 1; CallStart 1] (World_init example_tasks))
            _ 1
            [WorkerEnter 0 0; WorkerLock 0; WorkerEnter 1 0; WorkerLock 1;
             CallDestroy; DtorLock; WorkerWake 0 false; WorkerWake 1 false;
             DtorWake true] _ _ eq_refl _).
  - assert (Hreg : threads_ (pool (after [CallStart 1; CallStart 1]
                                      (World_init example_tasks)))
                   = <[0 := Thread.mk 0]> (<[1 := Thread.mk 1]> ∅))
      by (by vm_compute).
    assert (Hos : os_threads (after [CallStart 1; CallStart 1]
                                (World_init example_tasks))
                  = [mkOs 0 Entry; mkOs 0 Entry]) by (by vm_compute).
    assert (Hg : generateId_ (after [CallStart 1; CallStart 1]
                                (World_init example_tasks)) = 2)
      by (by vm_compute).
    unfold unowned. rewrite Hreg, Hos, Hg.
    split; [by eexists |]. split.
    + intros key th.
      destruct (decide (key = 0)) as [-> | ?];
        [rewrite lookup_insert_eq; intros [= <-]; simpl; lia |].
      rewrite lookup_insert_ne by done.
      destruct (decide (key = 1)) as [-> | ?];
        [rewrite lookup_insert_eq; intros [= <-]; simpl; lia |].
      by rewrite lookup_insert_ne, lookup_empty.
    + intros [| [| i]] th; simpl; try done; by intros [= <-].
  - by vm_compute.
  - by vm_compute.
Defined.

(** ** Reclaiming a thread does not look at the queue *)

Lemma step_worker_event e w :
  dtor w <> Destroyed -> is_worker_event e = true ->
  step e w = worker_step e w.
Proof.
  intros Hd He. unfold step.
  assert (Hr : is_result_event e = false) by (by destruct e).
  rewrite Hr, He. by destruct (dtor w).
Qed.

(** X12. When [wait_for] times out on a thread that has been idle for 60
    seconds while [curThreadSize_ > initThreadSize_], the thread returns
    without testing the queue: a task that was queued in the meantime stays
    queued.  If no other thread is left, nothing takes the task as long as
    no other call creates a thread. *)
Theorem reclaim_ignores_queue (w : World) (i : nat) (tid lt now : Z)
    (b : bool) :
  os_threads w !! i = Some (mkOs tid (InWaitFor lt b)) ->
  dtor w <> Destroyed ->
  THREAD_MAX_IDLE_TIME * ticks_per_second <= now - lt ->
  initThreadSize_ (pool w) < curThreadSize_ (pool w) ->
  exists w',
    step (WorkerTimeout i now) w = Some w'
    /\ os_threads w' !! i = Some (mkOs tid Exited)
    /\ taskQue_ (pool w') = taskQue_ (pool w)
    /\ taskSize_ (pool w') = taskSize_ (pool w)
    /\ isPoolRunning_ (pool w') = isPoolRunning_ (pool w)
    /\ ((forall j th, j <> i -> os_threads w !! j = Some th -> live th = false) ->
        forall e, is_worker_event e = true -> step e w' = None).
Proof.
  intros Hth Hd Hidle Hcur.
  assert (Hrc : reclaim_cond now lt (pool w) = true)
    by (by apply reclaim_cond_spec).
  rewrite step_worker_event by done.
  cbn [worker_step]. rewrite Hth. cbn [mbind option_bind pc threadid].
  unfold threadFunc_timeout. rewrite Hrc. eexists. split; [reflexivity |].
  split; [by apply (set_pc_lookup i Exited _ (mkOs tid (InWaitFor lt b))) |].
  repeat (split; [done |]).
  intros Hothers e He.
  rewrite step_worker_event by done.
  destruct (worker_step e _) as [w'' |] eqn:Hs; [| done]. exfalso.
  destruct (worker_step_alter _ _ _ Hs) as (j & th & _ & _ & Hj & Hl & _).
  simpl in Hj. rewrite list_lookup_alter in Hj. case_decide as Hij.
  - rewrite Hth in Hj. injection Hj as <-. done.
  - rewrite (Hothers j th) in Hl; [done | done | done].
Qed.

Lemma reclaim_ignores_queue_witness :
  let w := after [CallSetMode MODE_CACHED; CallStart 0;
                  CallSubmitTask (Some 0%nat) 5%nat; WorkerEnter 0 0;
                  WorkerLock 0; WorkerExec 0; WorkerIdle 0 1; WorkerLock 0;
                  CallSubmitTask (Some 1%nat) 6%nat]
             (World_init example_tasks) in
  os_threads w = [mkOs 0 (InWaitFor 1 true)]
  /\ taskQue_ (pool w) = [Some 1%nat]
  /\ exists w',
       step (WorkerTimeout 0 61000000001) w = Some w'
       /\ os_threads w' !! 0%nat = Some (mkOs 0 Exited)
       /\ taskQue_ (pool w') = [Some 1%nat]
       /\ isPoolRunning_ (pool w') = true
       /\ step (WorkerLock 0) w' = None.
Proof.
  cbv zeta. split; [by vm_compute |]. split; [by vm_compute |].
  destruct (reclaim_ignores_queue
              (after [CallSetMode MODE_CACHED; CallStart 0;
                      CallSubmitTask (Some 0%nat) 5%nat; WorkerEnter 0 0;
                      WorkerLock 0; WorkerExec 0; WorkerIdle 0 1; WorkerLock 0;
                      CallSubmitTask (Some 1%nat) 6%nat]
                 (World_init example_tasks))
              0%nat 0 1 61000000001 true)
    as (w' & Hs & Hos & Hq & _ & Hr & Hnone).
  - by vm_compute.
  - by vm_compute.
  - unfold THREAD_MAX_IDLE_TIME, ticks_per_second. lia.
  - vm_compute. reflexivity.
  - exists w'. split; [exact Hs |]. split; [exact Hos |].
    split; [rewrite Hq; by vm_compute |].
    split; [rewrite Hr; by vm_compute |].
    apply Hnone; [| reflexivity].
    intros [| j] th Hj; [done |]. by vm_compute.
Defined.

(** ** A second [Result] for the same task *)

Lemma submitTask_locked_heap ok sp r w w' :
  submitTask_locked ok sp r w = Some w' ->
  exists t tk,
    sp = Some t /\ tasks w !! t = Some tk /\ results w !! r = None
    /\ tasks w' = <[t := Task.setResult r tk]> (tasks w)
    /\ results w' = <[r := Result.init t ok]> (results w).
Proof.
  intros H.
  destruct (submitTask_locked_inv _ _ _ _ _ H) as (w4 & Hr & Hcase).
  assert (H4 : tasks w4 = tasks w /\ results w4 = results w).
  { destruct Hcase as [(_ & ->) | (_ & w3 & _ & _ & _ & Ht3 & Hr3 & _ & Hg)];
      [done |].
    destruct Hg as [(_ & ->) | (_ & Hgrow)]; [done |].
    apply submitTask_grow_spec in Hgrow as (th & Hgrow). destruct_and!.
    split; congruence. }
  destruct H4 as [Ht4 Hr4].
  apply Result_ctor_inv in Hr as (t & tk & -> & Ht & Hnone & ->).
  exists t, tk. rewrite <- Ht4, <- Hr4. done.
Qed.

Lemma worker_step_heap e w w' :
  worker_step e w = Some w' ->
  tasks w' = tasks w
  /\ (results w' = results w
      \/ exists i th t lt tk r res res',
           os_threads w !! i = Some th /\ pc th = Holding (Some t) lt
           /\ tasks w !! t = Some tk /\ Task.result_ tk = Some r
           /\ results w !! r = Some res
           /\ Result.setVal (Task.run tk) res = Some res'
           /\ results w' = <[r := res']> (results w)).
Proof.
  intros H. split; [by apply worker_step_config in H as (_ & _ & _ & _ & _ & _ & ? & _) |].
  destruct (worker_step_inv _ _ _ H) as (i & th & _ & Hth & Hcase).
  destruct Hcase as [(now & Hpc & ->) | [(lt & Hpc & ->) |
    [(lt & b & now & Hpc & Hrc & ->) | [(task & lt & Hpc & Hx) |
    (lt & now & Hpc & ->)]]]].
  - by left.
  - left. pose proof (threadFunc_check_config i (threadid th) lt w) as Hc.
    simpl in Hc. by destruct Hc as (_ & _ & _ & _ & _ & _ & _ & _ & ? & _).
  - left. unfold threadFunc_timeout. by rewrite Hrc.
  - unfold threadFunc_exec in Hx. destruct task as [t |]; simpl in Hx.
    + destruct (Task_exec t w) as [w1 |] eqn:Hx1; simpl in Hx; [| done].
      injection Hx as <-. simpl. unfold Task_exec in Hx1.
      destruct (tasks w !! t) as [tk |] eqn:Ht; simpl in Hx1; [| done].
      destruct (Task.result_ tk) as [r |] eqn:Hr.
      * destruct (results w !! r) as [res |] eqn:Hres; simpl in Hx1; [| done].
        destruct (Result.setVal (Task.run tk) res) as [res' |] eqn:Hsv;
          simpl in Hx1; [| done].
        injection Hx1 as <-. right.
        by exists i, th, t, lt, tk, r, res, res'.
      * injection Hx1 as <-. by left.
    + injection Hx as <-. by left.
  - by left.
Qed.

Lemma client_step_heap e w w' :
  client_step e w = Some w' ->
  (tasks w' = tasks w /\ results w' = results w)
  \/ exists sp r ok t tk,
       e = CallSubmitTask sp r
       /\ sp = Some t /\ tasks w !! t = Some tk /\ results w !! r = None
       /\ tasks w' = <[t := Task.setResult r tk]> (tasks w)
       /\ results w' = <[r := Result.init t ok]> (results w).
Proof.
  intros Hs. destruct e; simpl in Hs; try discriminate.
  - injection Hs as <-. by left.
  - destruct (is_intb threshhold); [| discriminate]. injection Hs as <-. by left.
  - destruct (is_intb threshhold); [| discriminate]. injection Hs as <-. by left.
  - destruct (is_intb initThreadSize); [| discriminate]. left.
    destruct (start_frame _ _ _ Hs) as (_ & _ & _ & _ & _ & _ & _ & _ & ? & ? & _).
    done.
  - unfold submitTask in Hs. rewrite wait_for_nil in Hs.
    apply submitTask_locked_heap in Hs as (t & tk & ? & ? & ? & ? & ?).
    right. by exists sp, r, (notFull_pred w), t, tk.
  - injection Hs as <-. by left.
Qed.

Lemma step_orphaned e w w' r res :
  step e w = Some w' ->
  Result.isValid_ res = true ->
  Semaphore.resLimit_ (Result.sem_ res) <= 0 ->
  orphaned r res w -> orphaned r res w'.
Proof.
  intros H Hv Hl (Hres & Hno). unfold orphaned.
  destruct (step_cases _ _ _ H)
    as [(_ & Hs) | [(_ & _ & Hs) | [(_ & _ & Hs) | (_ & _ & _ & Hs)]]].
  - pose proof (result_step_frame _ _ _ Hs) as (_ & _ & _ & Ht & _).
    rewrite Ht. split; [| done].
    destruct e; simpl in Hs; try discriminate.
    destruct (results w !! r0) as [res0 |] eqn:Hr0; simpl in Hs; [| done].
    destruct (Result.get res0) as [v res0' |] eqn:Hg; [| done].
    injection Hs as <-. simpl.
    destruct (decide (r0 = r)) as [-> | Hne].
    + assert (res0 = res) as -> by congruence.
      assert (Hb : Result.get res = Result.Blocked)
        by (by apply get_blocked_iff).
      congruence.
    + by rewrite lookup_insert_ne.
  - destruct (worker_step_heap _ _ _ Hs) as (Ht & Hr). rewrite Ht.
    split; [| done].
    destruct Hr as [-> | (i & th & t & lt & tk & r0 & res0 & res0' & _ & _
                          & Htk & Hr0 & _ & _ & ->)]; [done |].
    rewrite lookup_insert_ne; [done |].
    intros ->. by eapply Hno.
  - destruct (client_step_heap _ _ _ Hs)
      as [(-> & ->) | (sp & r0 & ok & t & tk & _ & _ & Htk & Hnone & -> & ->)];
      [done |].
    assert (Hne : r0 <> r) by congruence.
    split; [by rewrite lookup_insert_ne |].
    intros t' tk'. destruct (decide (t' = t)) as [-> | Hne'].
    + rewrite lookup_insert_eq. intros [= <-]. simpl. congruence.
    + rewrite lookup_insert_ne by done. apply Hno.
  - apply dtor_step_frame in Hs as (_ & _ & -> & -> & _). done.
Qed.

(** X13. Submitting a task object again before the [Result] of its first
    submission has been published orphans that [Result]: the new [Result]
    (also that of a rejected submission) takes over the back pointer of the
    task, nothing publishes into the first one any more, and [get()] on it
    blocks in every later state.  This is for a task object that no thread
    holds when it is submitted again, and for runs without a data race on a
    task object or its [Result] ([race_free]): a thread that holds the task
    may have read the old back pointer already, and the write of the new
    one is a data race with that read. *)
Theorem resubmitted_task_orphans_first_Result (w w1 w' : World)
    (evs : list Event) (t r1 r2 : addr) (tk : Task.t) (res1 : Result.t) :
  tasks w !! t = Some tk ->
  Task.result_ tk = Some r1 ->
  (forall t' tk', tasks w !! t' = Some tk' -> Task.result_ tk' = Some r1 ->
     t' = t) ->
  results w !! r1 = Some res1 ->
  Result.isValid_ res1 = true ->
  Semaphore.resLimit_ (Result.sem_ res1) <= 0 ->
  races (CallSubmitTask (Some t) r2) w = false ->
  step (CallSubmitTask (Some t) r2) w = Some w1 ->
  race_free evs w1 = true ->
  run evs w1 = Some w' ->
  results w' !! r1 = Some res1
  /\ step (CallGet r1) w' = None.
Proof.
  intros Ht Hr1 Huniq Hres Hv Hl _ Hs _ Hrun.
  assert (Ho1 : orphaned r1 res1 w1).
  { destruct (step_cases _ _ _ Hs)
      as [(Hr & _) | [(_ & Hw & _) | [(_ & _ & Hc) | (_ & _ & _ & Hx)]]];
      try done.
    simpl in Hc. unfold submitTask in Hc. rewrite wait_for_nil in Hc.
    apply submitTask_locked_heap in Hc
      as (t0 & tk0 & [= <-] & Htk0 & Hnone & Ht1 & Hr1').
    unfold orphaned. rewrite Ht1, Hr1'.
    assert (Hne : r2 <> r1) by congruence.
    split; [by rewrite lookup_insert_ne |].
    intros t' tk'. destruct (decide (t' = t)) as [-> | Hne'].
    - rewrite lookup_insert_eq. intros [= <-]. simpl. congruence.
    - rewrite lookup_insert_ne by done. intros Htk' Hr'.
      by apply Hne', (Huniq _ tk'). }
  assert (Ho' : orphaned r1 res1 w').
  { clear -Ho1 Hrun Hv Hl. revert w1 Ho1 Hrun.
    induction evs as [| e evs IH]; intros w1 Ho1.
    - by intros [= <-].
    - cbn [run]. destruct (step e w1) as [w2 |] eqn:Hs; simpl; [| done].
      apply IH. by eapply step_orphaned. }
  destruct Ho' as (Hres' & _). split; [done |].
  unfold step. simpl. rewrite Hres'. simpl.
  assert (Hb : Result.get res1 = Result.Blocked) by (by apply get_blocked_iff).
  by rewrite Hb.
Qed.

Lemma resubmitted_task_orphans_first_Result_witness :
  let w := after [CallStart 1; CallSubmitTask (Some 0%nat) 5%nat]
             (World_init example_tasks) in
  let w1 := after [CallSubmitTask (Some 0%nat) 6%nat] w in
  let evs := [WorkerEnter 0 0; WorkerLock 0; WorkerExec 0; WorkerIdle 0 1;
              WorkerLock 0; WorkerExec 0; WorkerIdle 0 2; CallGet 6%nat;
              CallGet 6%nat] in
  taskQue_ (pool (after evs w1)) = []
  /\ results (after evs w1) !! 5%nat = Some (Result.init 0%nat true)
  /\ step (CallGet 5%nat) (after evs w1) = None.
Proof.
  cbv zeta. split; [by vm_compute |].
  refine (resubmitted_task_orphans_first_Result
            (after [CallStart 1; CallSubmitTask (Some 0%nat) 5%nat]
               (World_init example_tasks))
            (after [CallSubmitTask (Some 0%nat) 6%nat]
               (after [CallStart 1; CallSubmitTask (Some 0%nat) 5%nat]
                  (World_init example_tasks)))
            _
            [WorkerEnter 0 0; WorkerLock 0; WorkerExec 0; WorkerIdle 0 1;
             WorkerLock 0; WorkerExec 0; WorkerIdle 0 2; CallGet 6%nat;
             CallGet 6%nat]
            0%nat 5%nat 6%nat
            (Task.mk (Some 5%nat) (Any_of (Derive_int 7)))
            (Result.init 0%nat true) _ eq_refl _ _ eq_refl _ _ _ _ _).
  - by vm_compute.
  - intros t' tk'.
    assert (Ht : tasks (after [CallStart 1; CallSubmitTask (Some 0%nat) 5%nat]
                          (World_init example_tasks))
                 = <[0%nat := Task.mk (Some 5%nat) (Any_of (Derive_int 7))]>
                     (<[1%nat := Task.init (Any_of (Derive_int 8))]> ∅))
      by (by vm_compute).
    rewrite Ht. destruct (decide (t' = 0%nat)) as [-> | ?]; [done |].
    rewrite lookup_insert_ne by done.
    destruct (decide (t' = 1%nat)) as [-> | ?];
      [rewrite lookup_insert_eq; by intros [= <-] |].
    by rewrite lookup_insert_ne, lookup_empty.
  - by vm_compute.
  - simpl. lia.
  - by vm_compute.
  - by vm_compute.
  - by vm_compute.
  - by vm_compute.
Defined.

(** ** A task object while a thread holds it *)

Lemma races_submit_spec t r w i th lt :
  races (CallSubmitTask (Some t) r) w = false ->
  os_threads w !! i = Some th ->
  pc th <> Holding (Some t) lt.
Proof.
  intros Hno Hth Hpc. simpl in Hno.
  assert (Hex : existsb (holds t) (os_threads w) = true).
  { apply existsb_exists. exists th. split.
    - apply list_elem_of_In. by eapply list_elem_of_lookup_2.
    - unfold holds. rewrite Hpc. apply Nat.eqb_refl. }
  congruence.
Qed.

(** A step that does not race leaves the task object of every task that a
    thread holds as it is: so [result_], which [exec()] reads without the
    lock, has one value from the moment the thread takes the task to the
    end of [exec()]. *)
Lemma step_task_stable e w w' i th t lt :
  step e w = Some w' ->
  races e w = false ->
  os_threads w !! i = Some th ->
  pc th = Holding (Some t) lt ->
  tasks w' !! t = tasks w !! t.
Proof.
  intros H Hno Hth Hpc.
  destruct (step_cases _ _ _ H)
    as [(_ & Hs) | [(_ & _ & Hs) | [(_ & _ & Hs) | (_ & _ & _ & Hs)]]].
  - apply result_step_frame in Hs as (_ & _ & _ & -> & _). done.
  - apply worker_step_config in Hs as (_ & _ & _ & _ & _ & _ & -> & _). done.
  - destruct (client_step_heap _ _ _ Hs)
      as [(-> & _) | (sp & r & ok & t0 & tk & -> & -> & _ & _ & -> & _)];
      [done |].
    destruct (decide (t0 = t)) as [-> | Hne].
    + by destruct (races_submit_spec _ _ _ _ _ lt Hno Hth).
    + by rewrite lookup_insert_ne.
  - apply dtor_step_frame in Hs as (_ & _ & -> & _). done.
Qed.


(** ** The pointers the pool holds *)

Lemma heap_le_same w w' :
  tasks w' = tasks w -> results w' = results w -> heap_le w w'.
Proof.
  intros Ht Hr. unfold heap_le. rewrite Ht, Hr.
  split; [done |]. split; intros; by left.
Qed.

Lemma heap_le_publish w w' r res res' :
  tasks w' = tasks w -> results w !! r = Some res ->
  results w' = <[r := res']> (results w) -> heap_le w w'.
Proof.
  intros Ht Hres Hr. unfold heap_le. rewrite Ht, Hr.
  split; [| split; intros; by left].
  intros r0 Hr0. destruct (decide (r0 = r)) as [-> | ?].
  - rewrite lookup_insert_eq. by eexists.
  - by rewrite lookup_insert_ne.
Qed.

Lemma heap_le_Result w w' t tk r valid :
  tasks w !! t = Some tk -> results w !! r = None ->
  tasks w' = <[t := Task.setResult r tk]> (tasks w) ->
  results w' = <[r := Result.init t valid]> (results w) ->
  heap_le w w'.
Proof.
  intros Htk Hnone Ht Hr. unfold heap_le. rewrite Ht, Hr.
  split; [| split].
  - intros r0 Hr0. destruct (decide (r0 = r)) as [-> | ?].
    + rewrite lookup_insert_eq. by eexists.
    + by rewrite lookup_insert_ne.
  - intros t0 tk0 Ht0. destruct (decide (t0 = t)) as [-> | ?].
    + right. exists r. rewrite !lookup_insert_eq.
      split; [congruence | by eexists].
    + left. by rewrite lookup_insert_ne.
  - intros t0 tk0. destruct (decide (t0 = t)) as [-> | ?].
    + rewrite lookup_insert_eq. intros [= <-]. right. exists r.
      rewrite lookup_insert_eq. split; [done | by eexists].
    + rewrite lookup_insert_ne by done. by left.
Qed.

Lemma step_heap_le e w w' : step e w = Some w' -> heap_le w w'.
Proof.
  intros H.
  destruct (step_cases _ _ _ H)
    as [(_ & Hs) | [(_ & _ & Hs) | [(_ & _ & Hs) | (_ & _ & _ & Hs)]]].
  - pose proof (result_step_frame _ _ _ Hs) as (_ & _ & _ & Ht & _).
    destruct e; simpl in Hs; try discriminate.
    destruct (results w !! r) as [res |] eqn:Hr; simpl in Hs; [| done].
    destruct (Result.get res) as [v res' |]; [| done].
    injection Hs as <-. by eapply heap_le_publish.
  - destruct (worker_step_heap _ _ _ Hs) as (Ht & Hr).
    destruct Hr as [Hr | (i & th & t & lt & tk & r & res & res' & _ & _ & _
                          & _ & Hres & _ & Hr)].
    + by apply heap_le_same.
    + by eapply heap_le_publish.
  - destruct (client_step_heap _ _ _ Hs)
      as [(Ht & Hr) | (sp & r & ok & t & tk & _ & _ & Htk & Hnone & Ht & Hr)].
    + by apply heap_le_same.
    + by eapply heap_le_Result.
  - apply dtor_step_frame in Hs as (_ & _ & Ht & Hr & _).
    by apply heap_le_same.
Qed.

Lemma bound_mono w w' sp : heap_le w w' -> bound w sp -> bound w' sp.
Proof.
  intros (Hres & Htk & _) (t & tk & r & res & -> & Ht & Hr & Hrr).
  unfold bound.
  destruct (Htk _ _ Ht) as [Ht' | (r' & Ht' & [res' Hr'])].
  - destruct (Hres r) as [res' Hr']; [by eexists |].
    by exists t, tk, r, res'.
  - by exists t, (Task.setResult r' tk), r', res'.
Qed.

Lemma holding_set_pc i c w0 j th' task lt :
  os_threads (set_pc i c w0) !! j = Some th' ->
  pc th' = Holding task lt ->
  c = Holding task lt
  \/ exists th, os_threads w0 !! j = Some th /\ pc th = Holding task lt.
Proof.
  unfold set_pc. simpl. rewrite list_lookup_alter. case_decide as Hij.
  - destruct (os_threads w0 !! i); simpl; [| done].
    intros [= <-]. simpl. by left.
  - intros Hj Hpc. right. by exists th'.
Qed.

Lemma holding_origin (l new : list OsThread) i th' task lt :
  Forall (fun th => pc th = Entry) new ->
  (l ++ new) !! i = Some th'
  \/ (map (fun th => mkOs (threadid th) (notify_pc (pc th))) l ++ new) !! i
     = Some th' ->
  pc th' = Holding task lt ->
  exists th, l !! i = Some th /\ pc th = Holding task lt.
Proof.
  intros Hnew Hi Hpc.
  assert (Hnot : forall k, new !! k = Some th' -> False).
  { intros k Hk. apply (Forall_lookup_1 _ _ _ _ Hnew) in Hk. congruence. }
  destruct Hi as [Hi | Hi]; apply lookup_app_Some in Hi as [Hi | [_ Hi]];
    try (by destruct (Hnot _ Hi)).
  - by exists th'.
  - apply notify_lookup_inv in Hi as (th & Hth & ->). exists th.
    split; [done |]. simpl in Hpc. by destruct (pc th).
Qed.

Lemma step_heap_inv e w w' : step e w = Some w' -> heap_inv w -> heap_inv w'.
Proof.
  intros H (H1 & Hq & Hh).
  pose proof (step_heap_le _ _ _ H) as Hle.
  assert (Hmono : forall sp, bound w sp -> bound w' sp)
    by (intros sp; by apply bound_mono).
  unfold heap_inv. split; [| split].
  - intros t tk' r Ht Hr. destruct Hle as (Hres & _ & Hback).
    destruct (Hback _ _ Ht) as [Ht0 | (r0 & Hr0 & Hsome)].
    + apply Hres. by eapply H1.
    + congruence.
  - pose proof (step_fifo _ _ _ H) as Hfifo.
    apply Forall_forall. intros sp Hin.
    assert (Hin' : sp ∈ taskQue_ (pool w) ++ enqueued_by e w).
    { rewrite <- Hfifo. apply elem_of_app. by right. }
    apply elem_of_app in Hin' as [Hin' | Hin'].
    + apply Hmono. by eapply (proj1 (Forall_forall _ _) Hq).
    + destruct e; simpl in Hin'; try (by apply elem_of_nil in Hin').
      destruct (notFull_pred w); [| by apply elem_of_nil in Hin'].
      apply list_elem_of_singleton in Hin' as ->.
      destruct (step_cases _ _ _ H)
        as [(Hr & _) | [(_ & Hw & _) | [(_ & _ & Hs) | (_ & _ & _ & Hs)]]];
        try done.
      simpl in Hs. unfold submitTask in Hs. rewrite wait_for_nil in Hs.
      apply submitTask_locked_heap in Hs
        as (t & tk & -> & Htk & Hnone & Ht' & Hr').
      exists t, (Task.setResult r tk), r, (Result.init t (notFull_pred w)).
      rewrite Ht', Hr', !lookup_insert_eq. done.
  - intros j th' task lt Hj Hpc.
    destruct (step_cases _ _ _ H)
      as [(_ & Hs) | [(_ & _ & Hs) | [(_ & _ & Hs) | (_ & _ & _ & Hs)]]].
    + apply result_step_frame in Hs as (_ & Hos & _). rewrite Hos in Hj.
      apply Hmono. by eapply Hh.
    + assert (Hold : forall w0, os_threads w0 = os_threads w ->
                (exists th, os_threads w0 !! j = Some th
                            /\ pc th = Holding task lt) ->
                bound w' task).
      { intros w0 Hos0 (th0 & Hth0 & Hpc0). rewrite Hos0 in Hth0.
        apply Hmono. by eapply Hh. }
      destruct (worker_step_inv _ _ _ Hs) as (i & th & _ & Hth & Hcase).
      destruct Hcase as [(now & Hpc0 & ->) | [(lt0 & Hpc0 & ->) |
        [(lt0 & b & now & Hpc0 & Hrc & ->) | [(task0 & lt0 & Hpc0 & Hx) |
        (lt0 & now & Hpc0 & ->)]]]].
      * destruct (holding_set_pc _ _ _ _ _ _ _ Hj Hpc) as [? | Ho]; [done |].
        by apply (Hold w).
      * unfold threadFunc_check in Hj.
        destruct (taskQue_ (pool w)) as [| head rest] eqn:Hqw.
        -- destruct (isPoolRunning_ (pool w)); simpl in Hj.
           ++ destruct (PoolMode_eqb _ _);
                (destruct (holding_set_pc _ _ _ _ _ _ _ Hj Hpc) as [? | Ho];
                 [done | by apply (Hold w)]).
           ++ destruct (holding_set_pc _ _ _ _ _ _ _ Hj Hpc) as [? | Ho];
                [done |].
              eapply Hold; [| exact Ho].
              unfold exitCond_notify_all. simpl. by destruct (dtor w).
        -- destruct (holding_set_pc _ _ _ _ _ _ _ Hj Hpc) as [Hc | Ho].
           ++ injection Hc as <- _. apply Hmono.
              apply (proj1 (Forall_forall _ _) Hq). apply elem_of_cons. by left.
           ++ eapply Hold; [| exact Ho]. done.
      * unfold threadFunc_timeout in Hj. rewrite Hrc in Hj.
        destruct (holding_set_pc _ _ _ _ _ _ _ Hj Hpc) as [? | Ho]; [done |].
        eapply Hold; [| exact Ho]. done.
      * unfold threadFunc_exec in Hx.
        assert (Hw1 : exists w1, os_threads w1 = os_threads w
                                 /\ w' = set_pc i (Executed lt0) w1).
        { destruct task0 as [t |]; simpl in Hx.
          - destruct (Task_exec t w) as [w1 |] eqn:Hx1; simpl in Hx; [| done].
            injection Hx as <-. apply Task_exec_frame in Hx1 as (_ & Hos & _).
            by exists w1.
          - injection Hx as <-. by exists w. }
        destruct Hw1 as (w1 & Hos1 & ->).
        destruct (holding_set_pc _ _ _ _ _ _ _ Hj Hpc) as [? | Ho]; [done |].
        by apply (Hold w1).
      * destruct (holding_set_pc _ _ _ _ _ _ _ Hj Hpc) as [? | Ho]; [done |].
        eapply Hold; [| exact Ho]. done.
    + apply client_step_threads in Hs as (_ & new & Hos & Hnew).
      assert (Hor : (os_threads w ++ new) !! j = Some th'
                    \/ (map (fun th => mkOs (threadid th) (notify_pc (pc th)))
                          (os_threads w) ++ new) !! j = Some th').
      { destruct Hos as [Hos | Hos]; rewrite Hos in Hj; [by left | by right]. }
      destruct (holding_origin _ _ _ _ _ _ Hnew Hor Hpc) as (th & Hth & Hpc0).
      apply Hmono. by eapply Hh.
    + apply dtor_step_threads in Hs as (_ & Hos).
      assert (Hor : (os_threads w ++ []) !! j = Some th'
                    \/ (map (fun th => mkOs (threadid th) (notify_pc (pc th)))
                          (os_threads w) ++ []) !! j = Some th').
      { rewrite !app_nil_r.
        destruct Hos as [Hos | Hos]; rewrite Hos in Hj; [by left | by right]. }
      destruct (holding_origin _ _ _ _ _ _ (Forall_nil_2 _) Hor Hpc)
        as (th & Hth & Hpc0).
      apply Hmono. by eapply Hh.
Qed.

(** X14. In a program that constructs the pool and task objects, then uses
    only the pool's interface, keeps every [Result] it receives alive, and
    has no data race on a task object or its [Result] ([race_free]: no task
    object is submitted while a thread holds it or held by two threads at
    once, no [get()] returns from a [Result] while a thread holds a task
    that points to it): in every state, every
    entry of the queue and every task a thread has taken is a non-null
    pointer to a task object whose back pointer points to a [Result] object,
    and every back pointer that is set points to a [Result] object.  So the
    test [task != nullptr] in [threadFunc] never fails, and [task->exec()]
    is defined and publishes into that [Result] (unless its semaphore count
    is at [INT_MAX]).  The task object, and with it the back pointer that
    [exec()] reads without the lock, is not changed by any step other than
    a submission of a task object that a thread holds. *)
Theorem pool_pointers_stay_valid (tks : gmap addr Task.t) (evs : list Event)
    (w : World) :
  (forall t tk, tks !! t = Some tk -> Task.result_ tk = None) ->
  race_free evs (World_init tks) = true ->
  run evs (World_init tks) = Some w ->
  heap_inv w
  /\ forall i tid task lt,
       os_threads w !! i = Some (mkOs tid (Holding task lt)) ->
       dtor w <> Destroyed ->
       exists t tk r res,
         task = Some t /\ tasks w !! t = Some tk
         /\ Task.result_ tk = Some r /\ results w !! r = Some res
         /\ (forall e w1, step e w = Some w1 -> races e w = false ->
               tasks w1 !! t = Some tk)
         /\ (Semaphore.resLimit_ (Result.sem_ res) < INT32_MAX ->
             exists w' res',
               step (WorkerExec i) w = Some w'
               /\ Result.setVal (Task.run tk) res = Some res'
               /\ results w' !! r = Some res').
Proof.
  intros Hfresh _ Hrun.
  assert (Hinv : heap_inv w).
  { assert (H0 : heap_inv (World_init tks)).
    { unfold heap_inv. simpl. split; [| split].
      - intros t tk r Ht Hr. apply Hfresh in Ht. congruence.
      - constructor.
      - intros i th task lt. by rewrite lookup_nil. }
    revert H0 Hrun. generalize (World_init tks). clear Hfresh.
    induction evs as [| e evs IH]; intros w0 H0.
    - by intros [= <-].
    - cbn [run]. destruct (step e w0) as [w1 |] eqn:Hs; simpl; [| done].
      apply IH. by eapply step_heap_inv. }
  split; [done |].
  intros i tid task lt Hth Hd.
  destruct Hinv as (_ & _ & Hh).
  destruct (Hh i _ task lt Hth eq_refl) as (t & tk & r & res & -> & Ht & Hr & Hres).
  exists t, tk, r, res. repeat (split; [done |]).
  split.
  { intros e w1 Hs Hno.
    by rewrite (step_task_stable _ _ _ _ _ _ _ Hs Hno Hth eq_refl). }
  intros Hlim. rewrite step_worker_event by done.
  cbn [worker_step]. rewrite Hth. cbn [mbind option_bind pc].
  unfold threadFunc_exec, Task_exec. rewrite Ht. cbn [mbind option_bind].
  rewrite Hr, Hres. cbn [mbind option_bind].
  unfold Result.setVal, Semaphore.post, int_incr.
  destruct (_ <? INT32_MAX) eqn:E; [| apply Z.ltb_ge in E; lia].
  cbn [mbind option_bind fmap option_fmap option_map].
  do 2 eexists. split; [reflexivity |]. split; [reflexivity |].
  simpl. by rewrite lookup_insert_eq.
Qed.

Lemma pool_pointers_stay_valid_witness :
  let evs := [CallStart 1; CallSubmitTask (Some 0%nat) 5%nat;
              CallSubmitTask (Some 1%nat) 6%nat; WorkerEnter 0 0;
              WorkerLock 0] in
  let w := after evs (World_init example_tasks) in
  heap_inv w
  /\ os_threads w !! 0%nat = Some (mkOs 0 (Holding (Some 0%nat) 0))
  /\ tasks (after [CallSubmitTask (Some 1%nat) 7%nat] w) !! 0%nat
     = Some (Task.mk (Some 5%nat) (Any_of (Derive_int 7)))
  /\ exists w' res',
       step (WorkerExec 0) w = Some w'
       /\ Result.setVal (Any_of (Derive_int 7)) (Result.init 0%nat true)
          = Some res'
       /\ results w' !! 5%nat = Some res'.
Proof.
  cbv zeta.
  destruct (pool_pointers_stay_valid example_tasks
              [CallStart 1; CallSubmitTask (Some 0%nat) 5%nat;
               CallSubmitTask (Some 1%nat) 6%nat; WorkerEnter 0 0;
               WorkerLock 0]
              (after [CallStart 1; CallSubmitTask (Some 0%nat) 5%nat;
                      CallSubmitTask (Some 1%nat) 6%nat; WorkerEnter 0 0;
                      WorkerLock 0] (World_init example_tasks)))
    as (Hinv & Hexec).
  - intros t tk. unfold example_tasks.
    destruct (decide (t = 0%nat)) as [-> | ?];
      [rewrite lookup_insert_eq; by intros [= <-] |].
    rewrite lookup_insert_ne by done.
    destruct (decide (t = 1%nat)) as [-> | ?];
      [rewrite lookup_insert_eq; by intros [= <-] |].
    by rewrite lookup_insert_ne, lookup_empty.
  - by vm_compute.
  - by vm_compute.
  - split; [exact Hinv |]. split; [by vm_compute |].
    destruct (Hexec 0%nat 0 (Some 0%nat) 0)
      as (t & tk & r & res & Ht & Htk & Hr & Hres & Hst & Hx).
    + by vm_compute.
    + by vm_compute.
    + injection Ht as <-.
      assert (Htk' : tk = Task.mk (Some 5%nat) (Any_of (Derive_int 7)))
        by (vm_compute in Htk; injection Htk as <-; reflexivity).
      subst tk. simpl in Hr. injection Hr as <-.
      assert (Hres' : res = Result.init 0%nat true)
        by (vm_compute in Hres; injection Hres as <-; reflexivity).
      subst res. split.
      * apply (Hst (CallSubmitTask (Some 1%nat) 7%nat)); by vm_compute.
      * apply Hx. simpl. unfold INT32_MAX. lia.
Defined.

(** ** From submission to [get()] *)

Lemma submitTask_locked_defined ok t r w tk :
  generateId_ w < INT32_MAX ->
  tasks w !! t = Some tk -> results w !! r = None ->
  is_Some (submitTask_locked ok (Some t) r w).
Proof.
  intros Hg Ht Hr.
  assert (Hctor : forall w4 valid, tasks w4 = tasks w -> results w4 = results w ->
            is_Some (Result_ctor r (Some t) valid w4)).
  { intros w4 valid Ht4 Hr4. unfold Result_ctor. simpl.
    rewrite Ht4, Ht, Hr4. simpl. rewrite Hr. by eexists. }
  unfold submitTask_locked. destruct ok; cbn [negb]; cbv zeta; [| by apply Hctor].
  set (w3 := notEmpty_notify_all _).
  destruct (grow_cond (pool w3)); [| by apply Hctor].
  unfold submitTask_grow. rewrite Thread_ctor_spec.
  change (generateId_ w3) with (generateId_ w).
  destruct (generateId_ w <? INT32_MAX) eqn:E; [| apply Z.ltb_ge in E; lia].
  cbn [mbind option_bind Thread.getId Thread.threadId_]. cbv zeta.
  set (w2 := upd_pool _ _).
  destruct (emplace_lookup (generateId_ w) (Thread.mk (generateId_ w))
              (threads_ (pool w3))) as [th Hth].
  change (threads_ (pool w2) !! generateId_ w)
    with (emplace (generateId_ w) (Thread.mk (generateId_ w))
            (threads_ (pool w3)) !! generateId_ w).
  rewrite Hth. cbn [mbind option_bind]. by apply Hctor.
Qed.

(** X15. The way of one task through the pool.  A task submitted to an
    empty queue that is not full is accepted; [get()] on its [Result] blocks
    while the task is queued and while a thread holds it; the thread that
    next looks at the queue takes this task; executing it publishes the value
    of [run()], which the first [get()] then returns, and a second [get()]
    blocks.  When [run()] returned a value of type [T], [cast_<T>()] on what
    [get()] returned gives that value back. *)
Theorem submit_exec_get (w : World) (i : nat) (tid lt : Z) (t r : addr)
    (tk : Task.t) (T : CType) (v : value T) :
  dtor w = Alive ->
  taskQue_ (pool w) = [] ->
  notFull_pred w = true ->
  generateId_ w < INT32_MAX ->
  os_threads w !! i = Some (mkOs tid (AtLoop lt)) ->
  tasks w !! t = Some tk ->
  results w !! r = None ->
  Task.run tk = Any_ctor T v ->
  exists w1 w2 w3 res res' a,
    step (CallSubmitTask (Some t) r) w = Some w1
    /\ step (CallGet r) w1 = None
    /\ step (WorkerLock i) w1 = Some w2
    /\ os_threads w2 !! i = Some (mkOs tid (Holding (Some t) lt))
    /\ step (CallGet r) w2 = None
    /\ step (WorkerExec i) w2 = Some w3
    /\ results w3 !! r = Some res
    /\ Result.get res = Result.Returned a res'
    /\ a = Task.run tk
    /\ cast_ T a = inl v
    /\ Result.get res' = Result.Blocked.
Proof.
  intros Hd Hq Hnf Hg Hth Ht Hr Hrun.
  assert (Hsub : step (CallSubmitTask (Some t) r) w
                 = submitTask_locked true (Some t) r w).
  { unfold step. simpl. rewrite Hd. simpl. unfold submitTask.
    by rewrite wait_for_nil, Hnf. }
  destruct (submitTask_locked_defined true t r w tk Hg Ht Hr) as [w1 Hs1].
  pose proof (submitTask_locked_queue _ _ _ _ _ Hs1) as (Hq1 & _).
  rewrite Hq in Hq1. simpl in Hq1.
  destruct (submitTask_locked_heap _ _ _ _ _ Hs1)
    as (t0 & tk0 & [= <-] & Htk0 & _ & Ht1 & Hr1).
  assert (tk0 = tk) as -> by congruence.
  destruct (submitTask_locked_threads _ _ _ _ _ Hs1) as (new & Hos1 & _).
  pose proof (submitTask_locked_counters _ _ _ _ _ Hs1)
    as (_ & _ & _ & _ & Hd1 & _).
  assert (Hth1 : os_threads w1 !! i = Some (mkOs tid (AtLoop lt))).
  { rewrite Hos1. apply lookup_app_l_Some.
    by rewrite (notify_lookup _ _ _ Hth). }
  assert (Hblocked : forall w0, results w0 = results w1 ->
            step (CallGet r) w0 = None).
  { intros w0 Hr0. unfold step. simpl. rewrite Hr0, Hr1, lookup_insert_eq.
    done. }
  set (w2 := threadFunc_check i tid lt w1).
  assert (Hs2 : step (WorkerLock i) w1 = Some w2).
  { rewrite step_worker_event by (done || congruence).
    cbn [worker_step]. by rewrite Hth1. }
  assert (Hw2 : os_threads w2 !! i = Some (mkOs tid (Holding (Some t) lt))
                /\ tasks w2 = tasks w1 /\ results w2 = results w1
                /\ dtor w2 = dtor w1).
  { unfold w2, threadFunc_check. rewrite Hq1.
    split; [| done].
    by apply (set_pc_lookup i _ _ (mkOs tid (AtLoop lt))). }
  destruct Hw2 as (Hth2 & Ht2 & Hr2 & Hd2).
  set (res := Result.mk (Task.run tk) (Semaphore.mk 1) t true).
  set (w3 := set_pc i (Executed lt)
               (set_results (<[r := res]> (results w2)) w2)).
  assert (Hs3 : step (WorkerExec i) w2 = Some w3).
  { rewrite step_worker_event by (done || congruence).
    cbn [worker_step]. rewrite Hth2. cbn [mbind option_bind pc].
    assert (Hlt : tasks w2 !! t = Some (Task.setResult r tk))
      by (by rewrite Ht2, Ht1, lookup_insert_eq).
    assert (Hlr : results w2 !! r = Some (Result.init t true))
      by (by rewrite Hr2, Hr1, lookup_insert_eq).
    unfold threadFunc_exec, Task_exec.
    rewrite Hlt. cbn [mbind option_bind Task.result_ Task.setResult].
    rewrite Hlr. done. }
  exists w1, w2, w3, res,
    (Result.mk Any_default (Semaphore.mk 0) t true), (Task.run tk).
  split; [by rewrite Hsub |].
  split; [by apply Hblocked |].
  split; [done |]. split; [done |].
  split; [by apply Hblocked |].
  split; [done |].
  split; [unfold w3; simpl; by rewrite lookup_insert_eq |].
  split; [done |]. split; [done |].
  split; [rewrite Hrun; by destruct T | done].
Qed.

Lemma submit_exec_get_witness :
  let w := after [CallStart 1; WorkerEnter 0 0] (World_init example_tasks) in
  exists w1 w2 w3 res res' a,
    step (CallSubmitTask (Some 0%nat) 5%nat) w = Some w1
    /\ step (CallGet 5%nat) w1 = None
    /\ step (WorkerLock 0) w1 = Some w2
    /\ os_threads w2 !! 0%nat = Some (mkOs 0 (Holding (Some 0%nat) 0))
    /\ step (CallGet 5%nat) w2 = None
    /\ step (WorkerExec 0) w2 = Some w3
    /\ results w3 !! 5%nat = Some res
    /\ Result.get res = Result.Returned a res'
    /\ a = Any_of (Derive_int 7)
    /\ cast_ T_int a = inl 7
    /\ Result.get res' = Result.Blocked.
Proof.
  cbv zeta.
  apply (submit_exec_get
           (after [CallStart 1; WorkerEnter 0 0] (World_init example_tasks))
           0%nat 0 0 0%nat 5%nat (Task.init (Any_of (Derive_int 7))) T_int 7);
    by vm_compute.
Defined.

(** ** The pending count and the queue *)

(** X16. In every state of a program that has constructed the pool,
    [taskSize_] is the length of the queue (as an [int]): the atomic counter
    and the container never disagree at a point where no thread holds the
    lock. *)
Theorem taskSize_is_queue_length (tks : gmap addr Task.t) (evs : list Event)
    (w : World) :
  run evs (World_init tks) = Some w ->
  taskSize_ (pool w) = wrap_int (Z.of_nat (length (taskQue_ (pool w))))
  /\ (Z.of_nat (length (taskQue_ (pool w))) <= INT32_MAX ->
      taskSize_ (pool w) = Z.of_nat (length (taskQue_ (pool w)))).
Proof.
  intros Hrun. pose proof (run_taskSize _ _ _ Hrun) as Hinv.
  unfold taskSize_inv in Hinv. split; [done |].
  intros Hle. rewrite Hinv. apply wrap_int_id.
  unfold is_int, INT32_MIN, INT32_MAX in *. lia.
Qed.

Lemma taskSize_is_queue_length_witness :
  let evs := [CallStart 1; CallSubmitTask (Some 0%nat) 5%nat;
              CallSubmitTask (Some 1%nat) 6%nat; WorkerEnter 0 0;
              WorkerLock 0] in
  taskQue_ (pool (after evs (World_init example_tasks))) = [Some 1%nat]
  /\ taskSize_ (pool (after evs (World_init example_tasks))) = 1.
Proof.
  cbv zeta. split; [by vm_compute |].
  destruct (taskSize_is_queue_length example_tasks
              [CallStart 1; CallSubmitTask (Some 0%nat) 5%nat;
               CallSubmitTask (Some 1%nat) 6%nat; WorkerEnter 0 0;
               WorkerLock 0]
              (after [CallStart 1; CallSubmitTask (Some 0%nat) 5%nat;
                      CallSubmitTask (Some 1%nat) 6%nat; WorkerEnter 0 0;
                      WorkerLock 0] (World_init example_tasks)))
    as (_ & H).
  - by vm_compute.
  - rewrite H; by vm_compute.
Defined.

(** ** Threads and the registry *)

(** X17. After [start], called once in a program that has created no thread
    before, every thread that has not returned from [threadFunc] is
    registered in [threads_] under the id it was started with, no two such
    threads have the same id, and every thread object is stored under its
    own id, which is below [Thread::generateId_]. *)
Theorem threads_registered_once (w0 w1 w' : World) (n : Z) (evs : list Event) :
  generateId_ w0 = 0 ->
  threads_ (pool w0) = ∅ ->
  os_threads w0 = [] ->
  step (CallStart n) w0 = Some w1 ->
  forallb not_start evs = true ->
  run evs w1 = Some w' ->
  (forall k th, threads_ (pool w') !! k = Some th ->
     Thread.getId th = k /\ k < generateId_ w')
  /\ (forall i th, os_threads w' !! i = Some th -> pc th <> Exited ->
        is_Some (threads_ (pool w') !! threadid th))
  /\ (forall i j thi thj,
        os_threads w' !! i = Some thi -> os_threads w' !! j = Some thj ->
        pc thi <> Exited -> pc thj <> Exited ->
        threadid thi = threadid thj -> i = j).
Proof.
  intros Hg Hreg Hos Hs Hns Hrun.
  assert (Hwf0 : registry_wf w0).
  { unfold registry_wf, registry_wf_parts. rewrite Hreg, Hos.
    split; [intros k th0; by rewrite lookup_empty |].
    split; intros *; by rewrite lookup_nil. }
  destruct (step_cases _ _ _ Hs)
    as [(Hr & _) | [(_ & Hw & _) | [(Hd0 & _ & Hc) | (_ & _ & _ & Hx)]]];
    try done.
  simpl in Hc. destruct (is_intb n); [| done].
  assert (Hwf1 : registry_wf w1).
  { eapply start_wf; [done | done |]. intros j th0. by rewrite Hos, lookup_nil. }
  pose proof (run_wf _ _ _ Hrun Hns Hwf1) as (H1 & H2 & H3).
  assert (Hlive : forall th, pc th <> Exited -> live th = true).
  { intros th Hpc. unfold live. by destruct (pc th). }
  split; [done |]. split.
  - intros i th Hth Hpc. eapply H2; [done | by apply Hlive].
  - intros i j thi thj Hi Hj Hpi Hpj. eapply H3; try done; by apply Hlive.
Qed.

Lemma threads_registered_once_witness :
  let w1 := after [CallSetMode MODE_CACHED; CallStart 1]
              (World_init example_tasks) in
  let evs := [CallSubmitTask (Some 0%nat) 5%nat;
              CallSubmitTask (Some 1%nat) 6%nat; WorkerEnter 1 0] in
  os_threads (after evs w1) = [mkOs 0 Entry; mkOs 1 (AtLoop 0)]
  /\ is_Some (threads_ (pool (after evs w1)) !! 1).
Proof.
  cbv zeta. split; [by vm_compute |].
  destruct (threads_registered_once
              (after [CallSetMode MODE_CACHED] (World_init example_tasks))
              (after [CallSetMode MODE_CACHED; CallStart 1]
                 (World_init example_tasks))
              (after [CallSubmitTask (Some 0%nat) 5%nat;
                      CallSubmitTask (Some 1%nat) 6%nat; WorkerEnter 1 0]
                 (after [CallSetMode MODE_CACHED; CallStart 1]
                    (World_init example_tasks)))
              1
              [CallSubmitTask (Some 0%nat) 5%nat;
               CallSubmitTask (Some 1%nat) 6%nat; WorkerEnter 1 0])
    as (_ & H2 & _); try by vm_compute.
  apply (H2 1%nat (mkOs 1 (AtLoop 0))); by vm_compute.
Defined.

(** * Shutdown and the tasks of the pool *)

(** ** Tasks taken and tasks executed *)










(** ** The queue when the destructor returns *)







